(** * dsw2to3: the registry migration (src/dsw2to3/migration/registry.py)

    A shallow embedding of the integrity checker [RegistryEntities] and of the
    migration pipeline [RegistryMigrator], with the properties of the
    specification proved (or refuted) on it.

    - Python objects mutated in place (the entity records, the [_result]
      list) are threaded explicitly: every method takes the object and
      returns the updated one.
    - [uuid.uuid4()] is the only source of randomness; it is an explicit
      stream of tokens with a read position ([Entropy]).
    - The three store clients are outside the code base; their calls are
      recorded as a trace of [Event]s and their answers come from an [Env]. *)

From Stdlib Require Import ZArith.
From stdpp Require Import base gmap strings list.

#[local] Set Warnings "-clear-no-such-hyp,-register-all".

Local Open Scope string_scope.
Local Open Scope nat_scope.
Local Open Scope list_scope.

(** ** Plain data *)

(** [datetime.datetime], as microseconds since the epoch. *)
Definition datetime := Z.

(** The payload of a binary asset. *)
Definition bytes := list Byte.byte.

(** ** Randomness: [uuid.uuid4()]

    [tokens] is the sequence of strings the generator hands out in this run,
    [drawn] how many of them have been handed out so far. *)
Record Entropy := { tokens : nat → string; drawn : nat }.

Definition uuid4 (e : Entropy) : string * Entropy :=
  (tokens e (drawn e), {| tokens := tokens e; drawn := S (drawn e) |}).

(** ** The interface every entity class offers to the checker

    [__name__] is the class name, [get_id] the method of that name (it may
    draw from the random generator), [integrity_ok] the attribute and
    [set_integrity_ok b x] the assignment [x.integrity_ok = b]. *)
Class Entity (A : Type) := {
  __name__ : string;
  get_id : A → Entropy → string * Entropy;
  integrity_ok : A → bool;
  set_integrity_ok : bool → A → A;
}.

(** What the assignment does to the attribute, and that an identity never
    reads the marker. *)
Class EntityLaws (A : Type) `{Entity A} := {
  integrity_ok_set (b : bool) (x : A) : integrity_ok (set_integrity_ok b x) = b;
  get_id_set (b : bool) (x : A) (e : Entropy) :
    get_id (set_integrity_ok b x) e = get_id x e;
  set_integrity_ok_same (x : A) : set_integrity_ok (integrity_ok x) x = x;
  set_integrity_ok_twice (b c : bool) (x : A) :
    set_integrity_ok b (set_integrity_ok c x) = set_integrity_ok b x;
}.

(** Entities whose identity is a stored field: [get_id] draws nothing. *)
Class StoredId (A : Type) `{Entity A} := {
  id_of : A → string;
  get_id_stored (x : A) (e : Entropy) : get_id x e = (id_of x, e);
}.

(** ** Entity classes of registry.py *)

Module ActionKey.
Definition COLLECTION := "actionKeys".
Definition TABLE_NAME := "action_key".

Record t := {
  uuid : string;
  organization_id : string;
  type : string;
  hash : string;
  created_at : datetime;
  integrity_ok : bool;
}.

Definition get_id (self : t) : string := uuid self.

Definition set_integrity_ok (b : bool) (self : t) : t :=
  {| uuid := uuid self; organization_id := organization_id self;
     type := type self; hash := hash self; created_at := created_at self;
     integrity_ok := b |}.
End ActionKey.

Module AuditEntry.
Definition COLLECTION := "auditEntries".
Definition TABLE_NAME := "audit".

Record t := {
  type : string;
  organization_id : string;
  instance_statistics : option string;
  package_id : string;
  created_at : datetime;
  integrity_ok : bool;
}.

(** [f'{self.organization_id}_{uuid.uuid4()}'] *)
Definition get_id (self : t) (e : Entropy) : string * Entropy :=
  let '(token, e) := uuid4 e in
  (organization_id self +:+ "_" +:+ token, e).

Definition set_integrity_ok (b : bool) (self : t) : t :=
  {| type := type self; organization_id := organization_id self;
     instance_statistics := instance_statistics self;
     package_id := package_id self; created_at := created_at self;
     integrity_ok := b |}.
End AuditEntry.

Module Organization.
Definition COLLECTION := "organizations".
Definition TABLE_NAME := "organization".

Record t := {
  organization_id : string;
  name : string;
  description : string;
  email : string;
  role : string;
  token : string;
  active : bool;
  logo : string;
  created_at : datetime;
  updated_at : datetime;
  integrity_ok : bool;
}.

Definition get_id (self : t) : string := organization_id self.

Definition set_integrity_ok (b : bool) (self : t) : t :=
  {| organization_id := organization_id self; name := name self;
     description := description self; email := email self;
     role := role self; token := token self; active := active self;
     logo := logo self; created_at := created_at self;
     updated_at := updated_at self; integrity_ok := b |}.
End Organization.

(** ** Entity classes imported from dsw2to3.migration.entitites

    That module is not part of the sources at hand. The records below hold
    the attributes registry.py reads from these classes. *)

Module Package.
(** Modelled from the spec: the class [Package] of
    dsw2to3.migration.entitites. Its identity is the package id; the three
    optional references are the attributes [_check_references] names;
    [None] stands for Python's [None]. *)
Record t := {
  id : string;
  previous_package_id : option string;
  fork_of_package_id : option string;
  merge_checkpoint_package_id : option string;
  integrity_ok : bool;
}.

Definition get_id (self : t) : string := id self.

Definition set_integrity_ok (b : bool) (self : t) : t :=
  {| id := id self; previous_package_id := previous_package_id self;
     fork_of_package_id := fork_of_package_id self;
     merge_checkpoint_package_id := merge_checkpoint_package_id self;
     integrity_ok := b |}.
End Package.

Module Template.
(** Modelled from the spec: the class [Template] of
    dsw2to3.migration.entitites. Its identity is the template id. *)
Record t := {
  id : string;
  integrity_ok : bool;
}.

Definition get_id (self : t) : string := id self.

Definition set_integrity_ok (b : bool) (self : t) : t :=
  {| id := id self; integrity_ok := b |}.
End Template.

Module TemplateAsset.
(** Modelled from the spec: the class [TemplateAsset] of
    dsw2to3.migration.entitites. Its identity is its uuid; the other
    attributes are those [migrate_template_assets] and
    [_check_references] read. *)
Record t := {
  uuid : string;
  original_uuid : string;
  template_id : string;
  content_type : string;
  integrity_ok : bool;
}.

Definition get_id (self : t) : string := uuid self.

Definition set_integrity_ok (b : bool) (self : t) : t :=
  {| uuid := uuid self; original_uuid := original_uuid self;
     template_id := template_id self; content_type := content_type self;
     integrity_ok := b |}.
End TemplateAsset.

Module TemplateFile.
(** Modelled from the spec: the class [TemplateFile] of
    dsw2to3.migration.entitites. Its identity is its uuid. *)
Record t := {
  uuid : string;
  template_id : string;
  integrity_ok : bool;
}.

Definition get_id (self : t) : string := uuid self.

Definition set_integrity_ok (b : bool) (self : t) : t :=
  {| uuid := uuid self; template_id := template_id self;
     integrity_ok := b |}.
End TemplateFile.

(** ** The classes as instances of the interface *)

#[export] Instance ActionKey_Entity : Entity ActionKey.t := {|
  __name__ := "ActionKey";
  get_id x e := (ActionKey.get_id x, e);
  integrity_ok := ActionKey.integrity_ok;
  set_integrity_ok := ActionKey.set_integrity_ok |}.

#[export] Instance AuditEntry_Entity : Entity AuditEntry.t := {|
  __name__ := "AuditEntry";
  get_id := AuditEntry.get_id;
  integrity_ok := AuditEntry.integrity_ok;
  set_integrity_ok := AuditEntry.set_integrity_ok |}.

#[export] Instance Organization_Entity : Entity Organization.t := {|
  __name__ := "Organization";
  get_id x e := (Organization.get_id x, e);
  integrity_ok := Organization.integrity_ok;
  set_integrity_ok := Organization.set_integrity_ok |}.

#[export] Instance Package_Entity : Entity Package.t := {|
  __name__ := "Package";
  get_id x e := (Package.get_id x, e);
  integrity_ok := Package.integrity_ok;
  set_integrity_ok := Package.set_integrity_ok |}.

#[export] Instance Template_Entity : Entity Template.t := {|
  __name__ := "Template";
  get_id x e := (Template.get_id x, e);
  integrity_ok := Template.integrity_ok;
  set_integrity_ok := Template.set_integrity_ok |}.

#[export] Instance TemplateAsset_Entity : Entity TemplateAsset.t := {|
  __name__ := "TemplateAsset";
  get_id x e := (TemplateAsset.get_id x, e);
  integrity_ok := TemplateAsset.integrity_ok;
  set_integrity_ok := TemplateAsset.set_integrity_ok |}.

#[export] Instance TemplateFile_Entity : Entity TemplateFile.t := {|
  __name__ := "TemplateFile";
  get_id x e := (TemplateFile.get_id x, e);
  integrity_ok := TemplateFile.integrity_ok;
  set_integrity_ok := TemplateFile.set_integrity_ok |}.

(** ** RegistryEntities *)

Record RegistryEntities := {
  action_keys : list ActionKey.t;
  audit_entries : list AuditEntry.t;
  organizations : list Organization.t;
  packages : list Package.t;
  templates : list Template.t;
  template_assets : list TemplateAsset.t;
  template_files : list TemplateFile.t;
  _result : list string;
}.

Definition set_result (r : list string) (self : RegistryEntities) : RegistryEntities :=
  {| action_keys := action_keys self; audit_entries := audit_entries self;
     organizations := organizations self; packages := packages self;
     templates := templates self; template_assets := template_assets self;
     template_files := template_files self; _result := r |}.

(** [ENTITY_LIST]: which attribute of [RegistryEntities] holds the records of
    an entity class. [list_by_entity] is the [getattr], [set_list] the
    [setattr]. *)
Class EntityList (A : Type) := {
  list_by_entity : RegistryEntities → list A;
  set_list : list A → RegistryEntities → RegistryEntities;
}.

#[export] Instance ActionKey_List : EntityList ActionKey.t := {|
  list_by_entity := action_keys;
  set_list l self :=
    {| action_keys := l; audit_entries := audit_entries self;
       organizations := organizations self; packages := packages self;
       templates := templates self; template_assets := template_assets self;
       template_files := template_files self; _result := _result self |} |}.

#[export] Instance AuditEntry_List : EntityList AuditEntry.t := {|
  list_by_entity := audit_entries;
  set_list l self :=
    {| action_keys := action_keys self; audit_entries := l;
       organizations := organizations self; packages := packages self;
       templates := templates self; template_assets := template_assets self;
       template_files := template_files self; _result := _result self |} |}.

#[export] Instance Organization_List : EntityList Organization.t := {|
  list_by_entity := organizations;
  set_list l self :=
    {| action_keys := action_keys self; audit_entries := audit_entries self;
       organizations := l; packages := packages self;
       templates := templates self; template_assets := template_assets self;
       template_files := template_files self; _result := _result self |} |}.

#[export] Instance Package_List : EntityList Package.t := {|
  list_by_entity := packages;
  set_list l self :=
    {| action_keys := action_keys self; audit_entries := audit_entries self;
       organizations := organizations self; packages := l;
       templates := templates self; template_assets := template_assets self;
       template_files := template_files self; _result := _result self |} |}.

#[export] Instance Template_List : EntityList Template.t := {|
  list_by_entity := templates;
  set_list l self :=
    {| action_keys := action_keys self; audit_entries := audit_entries self;
       organizations := organizations self; packages := packages self;
       templates := l; template_assets := template_assets self;
       template_files := template_files self; _result := _result self |} |}.

#[export] Instance TemplateAsset_List : EntityList TemplateAsset.t := {|
  list_by_entity := template_assets;
  set_list l self :=
    {| action_keys := action_keys self; audit_entries := audit_entries self;
       organizations := organizations self; packages := packages self;
       templates := templates self; template_assets := l;
       template_files := template_files self; _result := _result self |} |}.

#[export] Instance TemplateFile_List : EntityList TemplateFile.t := {|
  list_by_entity := template_files;
  set_list l self :=
    {| action_keys := action_keys self; audit_entries := audit_entries self;
       organizations := organizations self; packages := packages self;
       templates := templates self; template_assets := template_assets self;
       template_files := l; _result := _result self |} |}.

Section Checker.
Context {A : Type} `{Entity A}.

(** [x.integrity_ok is not False] *)
Definition is_valid (x : A) : Prop := integrity_ok x ≠ false.

#[export] Instance is_valid_dec (x : A) : Decision (is_valid x).
Proof. unfold is_valid. apply _. Defined.

(** [valid_entries]: the records of the entity whose marker is not False,
    in list order. *)
Definition valid_entries `{EntityList A} (self : RegistryEntities) : list A :=
  filter is_valid (list_by_entity self).

(** [item.get_id() for item in ...] *)
Fixpoint get_ids (items : list A) (e : Entropy) : list string * Entropy :=
  match items with
  | [] => ([], e)
  | item :: rest =>
      let '(item_id, e) := get_id item e in
      let '(ids, e) := get_ids rest e in
      (item_id :: ids, e)
  end.

(** [_make_ids_set] *)
Definition _make_ids_set `{EntityList A} (self : RegistryEntities) (e : Entropy)
  : gset string * Entropy :=
  let '(ids, e) := get_ids (valid_entries self) e in
  (list_to_set ids, e).

(** The loop of [_check_uniqueness]: [unique_set] is the set of identities
    met so far, [result] is [self._result]. The list returned holds the
    items after the in-place assignments. *)
Fixpoint _check_uniqueness_loop (items : list A) (unique_set : gset string)
    (result : list string) (e : Entropy) : list A * list string * Entropy :=
  match items with
  | [] => ([], result, e)
  | item :: rest =>
      let '(item_id, e) := get_id item e in
      let '(item, result) :=
        if bool_decide (item_id ∈ unique_set)
        then (set_integrity_ok false item,
              result ++ ["Duplicate ID for " +:+ __name__ +:+ ": " +:+ item_id])
        else (item, result) in
      let '(rest, result, e) :=
        _check_uniqueness_loop rest ({[item_id]} ∪ unique_set) result e in
      (item :: rest, result, e)
  end.

(** [_check_uniqueness(list_name, entity)] *)
Definition _check_uniqueness `{EntityList A} (self : RegistryEntities) (e : Entropy)
  : RegistryEntities * Entropy :=
  let '(items, result, e) :=
    _check_uniqueness_loop (list_by_entity self) ∅ (_result self) e in
  (set_result result (set_list items self), e).

(** The message of a reference violation. *)
Definition missing_message (target_name field_name ref_id item_id : string) : string :=
  "Missing " +:+ target_name +:+ " (" +:+ field_name +:+ "=" +:+ ref_id +:+ ") "
    +:+ "for " +:+ __name__ +:+ ": " +:+ item_id.

(** The loop of [_check_reference]. The generator [valid_entries] yields
    the items whose marker is not False; the body assigns to the item it
    was given. The embedding walks the list, tests the marker where the
    generator does and puts the item back. [field] is
    [getattr(item, field_name)]. *)
Fixpoint _check_reference_loop (target_name field_name : string) (field : A → string)
    (ids_set : gset string) (items : list A) (result : list string) (e : Entropy)
  : list A * list string * Entropy :=
  match items with
  | [] => ([], result, e)
  | item :: rest =>
      let '(item, result, e) :=
        if decide (is_valid item) then
          let ref_id := field item in
          if bool_decide (ref_id ∉ ids_set) then
            let item := set_integrity_ok false item in
            let '(item_id, e) := get_id item e in
            (item, result ++ [missing_message target_name field_name ref_id item_id], e)
          else (item, result, e)
        else (item, result, e) in
      let '(rest, result, e) :=
        _check_reference_loop target_name field_name field ids_set rest result e in
      (item :: rest, result, e)
  end.

(** [_check_reference(entity, target_entity, field_name, ids_set)] *)
Definition _check_reference `{EntityList A} (target_name field_name : string)
    (field : A → string) (ids_set : gset string)
    (self : RegistryEntities) (e : Entropy) : RegistryEntities * Entropy :=
  let '(items, result, e) :=
    _check_reference_loop target_name field_name field ids_set
      (list_by_entity self) (_result self) e in
  (set_result result (set_list items self), e).

(** The loop of [_check_optional_reference]: as above, with
    [ref_id is not None and ref_id not in ids_set]. *)
Fixpoint _check_optional_reference_loop (target_name field_name : string)
    (field : A → option string)
    (ids_set : gset string) (items : list A) (result : list string) (e : Entropy)
  : list A * list string * Entropy :=
  match items with
  | [] => ([], result, e)
  | item :: rest =>
      let '(item, result, e) :=
        if decide (is_valid item) then
          match field item with
          | Some ref_id =>
              if bool_decide (ref_id ∉ ids_set) then
                let item := set_integrity_ok false item in
                let '(item_id, e) := get_id item e in
                (item, result ++ [missing_message target_name field_name ref_id item_id], e)
              else (item, result, e)
          | None => (item, result, e)
          end
        else (item, result, e) in
      let '(rest, result, e) :=
        _check_optional_reference_loop target_name field_name field ids_set rest result e in
      (item :: rest, result, e)
  end.

(** [_check_optional_reference(entity, target_entity, field_name, ids_set)] *)
Definition _check_optional_reference `{EntityList A} (target_name field_name : string)
    (field : A → option string) (ids_set : gset string)
    (self : RegistryEntities) (e : Entropy) : RegistryEntities * Entropy :=
  let '(items, result, e) :=
    _check_optional_reference_loop target_name field_name field ids_set
      (list_by_entity self) (_result self) e in
  (set_result result (set_list items self), e).
End Checker.

Arguments _check_uniqueness A {_ _} self e.
Arguments _make_ids_set A {_ _} self e.
Arguments valid_entries A {_ _} self.

(** [_check_references]: one reference pass. The three sets of identities
    are built first; the six checks that follow use them as built. Returns
    whether [_result] grew. *)
Definition _check_references (self : RegistryEntities) (e : Entropy)
  : bool * RegistryEntities * Entropy :=
  let prev_len := length (_result self) in
  let '(user_ids, e) := _make_ids_set Organization.t self e in
  let '(package_ids, e) := _make_ids_set Package.t self e in
  let '(template_ids, e) := _make_ids_set Template.t self e in
  let '(self, e) :=
    _check_reference "Organization" "organization_id"
      ActionKey.organization_id user_ids self e in
  let '(self, e) :=
    _check_optional_reference "Package" "previous_package_id"
      Package.previous_package_id package_ids self e in
  let '(self, e) :=
    _check_optional_reference "Package" "fork_of_package_id"
      Package.fork_of_package_id package_ids self e in
  let '(self, e) :=
    _check_optional_reference "Package" "merge_checkpoint_package_id"
      Package.merge_checkpoint_package_id package_ids self e in
  let '(self, e) :=
    _check_reference "Template" "template_id"
      TemplateAsset.template_id template_ids self e in
  let '(self, e) :=
    _check_reference "Template" "template_id"
      TemplateFile.template_id template_ids self e in
  (negb (prev_len =? length (_result self)), self, e).

(** The [while check_again] loop of [check_integrity]. The source loop has no
    bound; [fuel] is the number of iterations the embedding is willing to
    run, and [None] means it was used up. [i] is the counter of the source:
    the number of reference passes run so far. *)
Fixpoint check_again_loop (fuel : nat) (check_again : bool) (i : nat)
    (self : RegistryEntities) (e : Entropy) {struct fuel}
  : option (nat * RegistryEntities * Entropy) :=
  if check_again then
    match fuel with
    | O => None
    | S fuel =>
        let '(check_again, self, e) := _check_references self e in
        check_again_loop fuel check_again (S i) self e
    end
  else Some (i, self, e).

(** The uniqueness passes, in the order of [LIST_ENTITY]. *)
Definition check_uniqueness_all (self : RegistryEntities) (e : Entropy)
  : RegistryEntities * Entropy :=
  let '(self, e) := _check_uniqueness ActionKey.t self e in
  let '(self, e) := _check_uniqueness AuditEntry.t self e in
  let '(self, e) := _check_uniqueness Organization.t self e in
  let '(self, e) := _check_uniqueness Package.t self e in
  let '(self, e) := _check_uniqueness Template.t self e in
  let '(self, e) := _check_uniqueness TemplateAsset.t self e in
  _check_uniqueness TemplateFile.t self e.

(** [check_integrity]. The value returned by the source is [self._result],
    the list object held by the [RegistryEntities] returned here; the number
    of reference passes is returned with it. *)
Definition check_integrity (fuel : nat) (self : RegistryEntities) (e : Entropy)
  : option (nat * RegistryEntities * Entropy) :=
  let self := set_result [] self in
  let '(self, e) := check_uniqueness_all self e in
  let '(check_again, self, e) := _check_references self e in
  check_again_loop fuel check_again 1 self e.

(** ** The migration pipeline: RegistryMigrator

    The store clients ([PostgresDB], [MongoDB], [S3Storage] of
    dsw2to3.connection), the options and the error handler are outside
    registry.py. A run is recorded as the sequence of calls it makes to
    them. *)

(** The entity classes as values: [_INSERT_ARGS], [_TABLES_CLEANUP] and the
    load lists hold the classes themselves. Where the source passes
    [entity.TABLE_NAME], the event carries the class whose table it is. *)
Inductive EntityClass :=
  | ActionKey | AuditEntry | Organization | Package
  | Template | TemplateAsset | TemplateFile.

#[export] Instance EntityClass_eq_dec : EqDecision EntityClass.
Proof. solve_decision. Defined.

(** A record of any of the seven classes, as handed to the target store. *)
Inductive Entry :=
  | ActionKeyEntry (x : ActionKey.t)
  | AuditEntryEntry (x : AuditEntry.t)
  | OrganizationEntry (x : Organization.t)
  | PackageEntry (x : Package.t)
  | TemplateEntry (x : Template.t)
  | TemplateAssetEntry (x : TemplateAsset.t)
  | TemplateFileEntry (x : TemplateFile.t).

Definition entry_integrity_ok (x : Entry) : bool :=
  match x with
  | ActionKeyEntry x => integrity_ok x
  | AuditEntryEntry x => integrity_ok x
  | OrganizationEntry x => integrity_ok x
  | PackageEntry x => integrity_ok x
  | TemplateEntry x => integrity_ok x
  | TemplateAssetEntry x => integrity_ok x
  | TemplateFileEntry x => integrity_ok x
  end.

(** [self.entities.list_by_entity(entity)] for a class given as a value. *)
Definition entries_by_entity (entity : EntityClass) (self : RegistryEntities) : list Entry :=
  match entity with
  | ActionKey => ActionKeyEntry <$> action_keys self
  | AuditEntry => AuditEntryEntry <$> audit_entries self
  | Organization => OrganizationEntry <$> organizations self
  | Package => PackageEntry <$> packages self
  | Template => TemplateEntry <$> templates self
  | TemplateAsset => TemplateAssetEntry <$> template_assets self
  | TemplateFile => TemplateFileEntry <$> template_files self
  end.

(** The three store clients. *)
Inductive Client := PostgresDB | MongoDB | S3Storage.

#[export] Instance Client_eq_dec : EqDecision Client.
Proof. solve_decision. Defined.

(** What a run does to the outside, in order. *)
Inductive Event :=
  (* construction and release of a client *)
  | Connect (client : Client)
  | Close (client : Client)
  (* self.postgres *)
  | PgNewCursor
  | PgExecuteDelete (table : EntityClass)
  | PgCommit
  | PgDisableTriggers (table : EntityClass)
  | PgEnableTriggers (table : EntityClass)
  | PgExecuteLoop (entity : EntityClass) (instances : list Entry)
  (* self.s3 *)
  | S3BucketExists
  | S3CountTemplates
  | S3DeleteTemplates
  | S3EnsureBucket
  | S3StoreTemplateAsset (template_id file_name content_type : string) (data : bytes)
  (* self.mongo *)
  | MongoUpdateNow
  | MongoLoadList (entity : EntityClass)
  | MongoLoadNested (source_entity target_entity : EntityClass) (field : string)
  | MongoFetchAsset (original_uuid : string)
  (* the log lines that report counts or violations *)
  | LogDeleted (table : EntityClass) (rows_deleted : nat)
  | LogViolation (issue : string)
  | LogInsert (entity : EntityClass) (ok_instances instances : nat)
  | LogAssets (assets : nat)
  | LogAssetSkipped (uuid original_uuid : string)
  | LogAssetsStored (counter skipped : nat).

(** Modelled from the spec: [MigrationOptions] of dsw2to3.migration.common,
    with the two options registry.py reads. *)
Record MigrationOptions := { dry_run : bool; fix_integrity : bool }.

(** What the outside answers. [raises n] says whether the call that would be
    the [n]-th entry of the trace raises an exception; the other fields are
    the values the clients return. *)
Record Env := {
  raises : nat → bool;
  rowcount : EntityClass → nat;
  bucket_exists : bool;
  count_templates : nat;
  mongo : RegistryEntities;
  fetch_asset : string → option bytes;
}.

(** The state of a run: the migrator's entities, the random generator and
    the calls made so far. *)
Record World := {
  entities : RegistryEntities;
  entropy : Entropy;
  trace : list Event;
}.

(** How a step ends: normally, with an exception that a [try] may catch,
    with the run ended by the error handler, or with the fuel of the
    reference loop used up. *)
Inductive Outcome (A : Type) :=
  | Done (a : A)
  | Raised
  | Exit (cause : string)
  | OutOfFuel.
Arguments Done {A} a.
Arguments Raised {A}.
Arguments Exit {A} cause.
Arguments OutOfFuel {A}.

Definition Run (A : Type) : Type := World → Outcome A * World.

#[export] Instance Run_ret : MRet Run := λ A a w, (Done a, w).

#[export] Instance Run_bind : MBind Run := λ A B k c w,
  match c w with
  | (Done a, w) => k a w
  | (Raised, w) => (Raised, w)
  | (Exit cause, w) => (Exit cause, w)
  | (OutOfFuel, w) => (OutOfFuel, w)
  end.

Definition emit (ev : Event) (w : World) : World :=
  {| entities := entities w; entropy := entropy w; trace := trace w ++ [ev] |}.

(** A log line. *)
Definition log (ev : Event) : Run unit := λ w, (Done (), emit ev w).

Definition get_entities : Run RegistryEntities := λ w, (Done (entities w), w).

(** Modelled from the spec: [ERROR_HANDLER.critical] and
    [ERROR_HANDLER.error] of dsw2to3.errors end the run. *)
Definition critical (cause : string) : Run unit := λ w, (Exit cause, w).
Definition error (cause : string) : Run unit := λ w, (Exit cause, w).

(** [try: body except Exception: handler] *)
Definition try_except (body handler : Run unit) : Run unit := λ w,
  match body w with
  | (Raised, w) => handler w
  | r => r
  end.

(** [for x in l: body(x)] *)
Fixpoint for_each {X : Type} (l : list X) (body : X → Run unit) : Run unit :=
  match l with
  | [] => mret ()
  | x :: rest => body x;; for_each rest body
  end.

Section Migrator.
Context (env : Env) (options : MigrationOptions).

(** A call to a store client: it is recorded, and it raises when the
    environment says so. *)
Definition call (ev : Event) : Run unit := λ w,
  if raises env (length (trace w)) then (Raised, emit ev w) else (Done (), emit ev w).

(** [if not self.options.dry_run: ...] *)
Definition unless_dry_run (c : Run unit) : Run unit :=
  if negb (dry_run options) then c else mret ().

Definition _TABLES_CLEANUP : list EntityClass :=
  [ActionKey; AuditEntry; Organization; TemplateAsset; TemplateFile; Template; Package].

Definition _LOAD_ENTITIES_SIMPLE : list EntityClass :=
  [ActionKey; AuditEntry; Organization; Package; Template].

Definition _LOAD_ENTITIES_NESTED : list (EntityClass * EntityClass * string) :=
  [(TemplateAsset, Template, "assets"); (TemplateFile, Template, "files")].

Definition _INSERT_ARGS : list (EntityClass * bool) :=
  [(Package, true); (Template, false); (AuditEntry, false); (Organization, false);
   (ActionKey, false); (TemplateAsset, false); (TemplateFile, false)].

(** [__init__]: empty entities and the three clients. *)
Definition __init__ (e : Entropy) : Outcome unit * World :=
  (call (Connect PostgresDB);; call (Connect MongoDB);; call (Connect S3Storage))
    {| entities :=
         {| action_keys := []; audit_entries := []; organizations := [];
            packages := []; templates := []; template_assets := [];
            template_files := []; _result := [] |};
       entropy := e; trace := [] |}.

Definition cleanup_postgres : Run unit :=
  try_except
    (call PgNewCursor;;
     for_each _TABLES_CLEANUP (λ table,
       call (PgExecuteDelete table);;
       log (LogDeleted table (rowcount env table)));;
     unless_dry_run (call PgCommit))
    (critical "PostgreSQL").

Definition cleanup_s3 : Run unit :=
  call S3BucketExists;;
  if bucket_exists env then
    call S3CountTemplates;;
    if decide (0 < count_templates env) then
      unless_dry_run (call S3DeleteTemplates)
    else mret ()
  else
    unless_dry_run (call S3EnsureBucket).

(** [self.entities.set_list(entity, lst)] with the list the source store
    returned for the class. *)
Definition set_loaded (entity : EntityClass) : Run unit := λ w,
  let self := entities w in
  let self :=
    match entity with
    | ActionKey => set_list (action_keys (mongo env)) self
    | AuditEntry => set_list (audit_entries (mongo env)) self
    | Organization => set_list (organizations (mongo env)) self
    | Package => set_list (packages (mongo env)) self
    | Template => set_list (templates (mongo env)) self
    | TemplateAsset => set_list (template_assets (mongo env)) self
    | TemplateFile => set_list (template_files (mongo env)) self
    end in
  (Done (), {| entities := self; entropy := entropy w; trace := trace w |}).

Definition load : Run unit :=
  call MongoUpdateNow;;
  for_each _LOAD_ENTITIES_SIMPLE (λ entity,
    call (MongoLoadList entity);; set_loaded entity);;
  for_each _LOAD_ENTITIES_NESTED (λ '(entity, parent_entity, field),
    call (MongoLoadNested parent_entity entity field);; set_loaded entity).

(** [self.entities.check_integrity()] inside a run. *)
Definition entities_check_integrity (fuel : nat) : Run (list string) := λ w,
  match check_integrity fuel (entities w) (entropy w) with
  | Some (_, self, e) =>
      (Done (_result self), {| entities := self; entropy := e; trace := trace w |})
  | None => (OutOfFuel, w)
  end.

(** [RegistryMigrator.check_integrity] *)
Definition migrator_check_integrity (fuel : nat) : Run unit :=
  issues ← entities_check_integrity fuel;
  for_each issues (λ issue, log (LogViolation issue));;
  if negb (fix_integrity options) && bool_decide (0 < length issues)
  then error "Integrity"
  else mret ().

Definition _run_insert (entity : EntityClass) (disable_triggers : bool) : Run unit :=
  self_entities ← get_entities;
  let instances := entries_by_entity entity self_entities in
  let ok_instances := filter (λ e, entry_integrity_ok e = true) instances in
  log (LogInsert entity (length ok_instances) (length instances));;
  (if disable_triggers then call (PgDisableTriggers entity) else mret ());;
  call (PgExecuteLoop entity ok_instances);;
  (if disable_triggers then call (PgEnableTriggers entity) else mret ()).

Definition insert : Run unit :=
  for_each _INSERT_ARGS (λ '(entity, disable_triggers),
    _run_insert entity disable_triggers);;
  try_except
    (unless_dry_run (call PgCommit))
    (critical "PostgreSQL").

(** The loop of [migrate_template_assets]. *)
Fixpoint migrate_template_assets_loop (assets : list TemplateAsset.t)
    (counter skipped : nat) : Run (nat * nat) :=
  match assets with
  | [] => mret (counter, skipped)
  | asset :: rest =>
      call (MongoFetchAsset (TemplateAsset.original_uuid asset));;
      match fetch_asset env (TemplateAsset.original_uuid asset) with
      | None =>
          log (LogAssetSkipped (TemplateAsset.uuid asset)
                 (TemplateAsset.original_uuid asset));;
          migrate_template_assets_loop rest counter (S skipped)
      | Some data =>
          unless_dry_run
            (call (S3StoreTemplateAsset (TemplateAsset.template_id asset)
                     (TemplateAsset.uuid asset)
                     (TemplateAsset.content_type asset) data));;
          migrate_template_assets_loop rest (S counter) skipped
      end
  end.

Definition migrate_template_assets : Run unit :=
  self_entities ← get_entities;
  let assets := valid_entries TemplateAsset.t self_entities in
  log (LogAssets (length assets));;
  '(counter, skipped) ← migrate_template_assets_loop assets 0 0;
  log (LogAssetsStored counter skipped).

Definition finish : Run unit :=
  call (Close PostgresDB).

Definition migrate (fuel : nat) : Run unit :=
  cleanup_postgres;;
  cleanup_s3;;
  load;;
  migrator_check_integrity fuel;;
  insert;;
  migrate_template_assets.
End Migrator.

(** * The vocabulary of the properties

    Nothing below is taken from the sources: these are the notions the
    properties are stated with. *)

(** ** Markers *)

Section Markers.
Context {A : Type} `{Entity A}.

(** The number of records of a list whose marker is False. *)
Definition count_invalid (l : list A) : nat :=
  length (filter (λ x, integrity_ok x = false) l).

(** What a pass may do to a record: nothing, or the assignment
    [integrity_ok = False]. *)
Definition flipped (x y : A) : Prop := y = x ∨ y = set_integrity_ok false x.
End Markers.

(** ** The loops as list functions, for classes with a stored identity *)

#[export] Instance ActionKey_StoredId : StoredId ActionKey.t :=
  {| id_of := ActionKey.get_id; get_id_stored _ _ := eq_refl |}.
#[export] Instance Organization_StoredId : StoredId Organization.t :=
  {| id_of := Organization.get_id; get_id_stored _ _ := eq_refl |}.
#[export] Instance Package_StoredId : StoredId Package.t :=
  {| id_of := Package.get_id; get_id_stored _ _ := eq_refl |}.
#[export] Instance Template_StoredId : StoredId Template.t :=
  {| id_of := Template.get_id; get_id_stored _ _ := eq_refl |}.
#[export] Instance TemplateAsset_StoredId : StoredId TemplateAsset.t :=
  {| id_of := TemplateAsset.get_id; get_id_stored _ _ := eq_refl |}.
#[export] Instance TemplateFile_StoredId : StoredId TemplateFile.t :=
  {| id_of := TemplateFile.get_id; get_id_stored _ _ := eq_refl |}.

Section StoredLists.
Context {A : Type} `{Entity A} `{!StoredId A}.

(** The set [_make_ids_set] builds from a list. *)
Definition ids_of (items : list A) : gset string :=
  list_to_set (id_of <$> filter is_valid items).

(** The items after a uniqueness scan that has met [unique_set] so far. *)
Fixpoint uniq_mark (unique_set : gset string) (items : list A) : list A :=
  match items with
  | [] => []
  | item :: rest =>
      (if bool_decide (id_of item ∈ unique_set)
       then set_integrity_ok false item else item)
      :: uniq_mark ({[id_of item]} ∪ unique_set) rest
  end.

(** The messages of that scan. *)
Fixpoint uniq_msgs (unique_set : gset string) (items : list A) : list string :=
  match items with
  | [] => []
  | item :: rest =>
      (if bool_decide (id_of item ∈ unique_set)
       then ["Duplicate ID for " +:+ __name__ +:+ ": " +:+ id_of item] else [])
      ++ uniq_msgs ({[id_of item]} ∪ unique_set) rest
  end.

(** A record a reference check flips: its marker is not False and the
    reference it holds is not in the set. *)
Definition broken (field : A → option string) (ids_set : gset string) (x : A) : Prop :=
  is_valid x ∧ match field x with Some ref_id => ref_id ∉ ids_set | None => False end.

#[export] Instance broken_dec field ids_set x : Decision (broken field ids_set x).
Proof. unfold broken. destruct (field x); apply _. Defined.

Definition ref_mark (field : A → option string) (ids_set : gset string)
    (items : list A) : list A :=
  (λ x, if decide (broken field ids_set x) then set_integrity_ok false x else x) <$> items.

Definition ref_msg (target_name field_name : string) (field : A → option string)
    (ids_set : gset string) (x : A) : option string :=
  if decide (is_valid x) then
    match field x with
    | Some ref_id =>
        if bool_decide (ref_id ∉ ids_set)
        then Some (missing_message target_name field_name ref_id (id_of x))
        else None
    | None => None
    end
  else None.

Definition ref_msgs (target_name field_name : string) (field : A → option string)
    (ids_set : gset string) (items : list A) : list string :=
  omap (ref_msg target_name field_name field ids_set) items.
End StoredLists.

(** ** One reference pass as a function of the lists *)

(** The three checks on the packages, against the set built before them. *)
Definition packages_pass (package_ids : gset string) (l : list Package.t) : list Package.t :=
  ref_mark Package.merge_checkpoint_package_id package_ids
    (ref_mark Package.fork_of_package_id package_ids
       (ref_mark Package.previous_package_id package_ids l)).

Definition packages_msgs (package_ids : gset string) (l : list Package.t) : list string :=
  ref_msgs "Package" "previous_package_id" Package.previous_package_id package_ids l
  ++ ref_msgs "Package" "fork_of_package_id" Package.fork_of_package_id package_ids
       (ref_mark Package.previous_package_id package_ids l)
  ++ ref_msgs "Package" "merge_checkpoint_package_id"
       Package.merge_checkpoint_package_id package_ids
       (ref_mark Package.fork_of_package_id package_ids
          (ref_mark Package.previous_package_id package_ids l)).

(** The messages one reference pass appends. *)
Definition new_violations (self : RegistryEntities) : list string :=
  ref_msgs "Organization" "organization_id" (Some ∘ ActionKey.organization_id)
    (ids_of (organizations self)) (action_keys self)
  ++ packages_msgs (ids_of (packages self)) (packages self)
  ++ ref_msgs "Template" "template_id" (Some ∘ TemplateAsset.template_id)
       (ids_of (templates self)) (template_assets self)
  ++ ref_msgs "Template" "template_id" (Some ∘ TemplateFile.template_id)
       (ids_of (templates self)) (template_files self).

(** The entities after one reference pass. *)
Definition references_pass (self : RegistryEntities) : RegistryEntities :=
  {| action_keys :=
       ref_mark (Some ∘ ActionKey.organization_id) (ids_of (organizations self))
         (action_keys self);
     audit_entries := audit_entries self;
     organizations := organizations self;
     packages := packages_pass (ids_of (packages self)) (packages self);
     templates := templates self;
     template_assets :=
       ref_mark (Some ∘ TemplateAsset.template_id) (ids_of (templates self))
         (template_assets self);
     template_files :=
       ref_mark (Some ∘ TemplateFile.template_id) (ids_of (templates self))
         (template_files self);
     _result := _result self ++ new_violations self |}.

(** ** Counting over the whole snapshot *)

(** The number of records in all seven collections. *)
Definition total_count (self : RegistryEntities) : nat :=
  length (action_keys self) + length (audit_entries self)
  + length (organizations self) + length (packages self)
  + length (templates self) + length (template_assets self)
  + length (template_files self).

(** The number of records whose marker is False. *)
Definition invalid_total (self : RegistryEntities) : nat :=
  count_invalid (action_keys self) + count_invalid (audit_entries self)
  + count_invalid (organizations self) + count_invalid (packages self)
  + count_invalid (templates self) + count_invalid (template_assets self)
  + count_invalid (template_files self).

(** The records a pass can still flip. *)
Definition room (self : RegistryEntities) : nat := total_count self - invalid_total self.

(** The two kinds of message. *)
Definition is_duplicate_message (m : string) : bool := String.prefix "Duplicate ID for " m.
Definition is_missing_message (m : string) : bool := String.prefix "Missing " m.

(** [grows self self']: from [self] to [self'] records were only flipped to
    False, and [_result] was extended by one reference message per flip. *)
Record grows (self self' : RegistryEntities) : Prop := {
  grows_action_keys : Forall2 flipped (action_keys self) (action_keys self');
  grows_audit_entries : audit_entries self' = audit_entries self;
  grows_organizations : organizations self' = organizations self;
  grows_packages : Forall2 flipped (packages self) (packages self');
  grows_templates : templates self' = templates self;
  grows_template_assets : Forall2 flipped (template_assets self) (template_assets self');
  grows_template_files : Forall2 flipped (template_files self) (template_files self');
  grows_result : ∃ msgs, _result self' = _result self ++ msgs ∧
                   Forall (λ m, is_missing_message m = true) msgs ∧
                   invalid_total self' = invalid_total self + length msgs;
}.

(** [scanned self u]: [u] is [self] after the uniqueness passes of a call
    that started with [_result] cleared. *)
Record scanned (self u : RegistryEntities) : Prop := {
  scanned_action_keys : Forall2 flipped (action_keys self) (action_keys u);
  scanned_audit_entries : Forall2 flipped (audit_entries self) (audit_entries u);
  scanned_organizations : Forall2 flipped (organizations self) (organizations u);
  scanned_packages : Forall2 flipped (packages self) (packages u);
  scanned_templates : Forall2 flipped (templates self) (templates u);
  scanned_template_assets : Forall2 flipped (template_assets self) (template_assets u);
  scanned_template_files : Forall2 flipped (template_files self) (template_files u);
  scanned_result : length (_result u) ≤ invalid_total u;
}.

(** [only_flipped self self']: record by record, [self'] holds what [self]
    holds, except that markers may have been assigned False. *)
Record only_flipped (self self' : RegistryEntities) : Prop := {
  only_flipped_action_keys : Forall2 flipped (action_keys self) (action_keys self');
  only_flipped_audit_entries : Forall2 flipped (audit_entries self) (audit_entries self');
  only_flipped_organizations : Forall2 flipped (organizations self) (organizations self');
  only_flipped_packages : Forall2 flipped (packages self) (packages self');
  only_flipped_templates : Forall2 flipped (templates self) (templates self');
  only_flipped_template_assets :
    Forall2 flipped (template_assets self) (template_assets self');
  only_flipped_template_files :
    Forall2 flipped (template_files self) (template_files self');
}.

(** ** Sample data *)

(** A generator whose tokens have the 36 characters of a UUID and differ in
    the first one (for the first two hundred draws). *)
Definition sample_entropy : Entropy :=
  {| tokens n := String (Ascii.ascii_of_nat (48 + n)) "0000000-0000-4000-8000-000000000000";
     drawn := 0 |}.

Definition no_entities : RegistryEntities :=
  {| action_keys := []; audit_entries := []; organizations := []; packages := [];
     templates := []; template_assets := []; template_files := []; _result := [] |}.

(** Package B refers to a package C that does not exist; package A is a
    fork of B. *)
Definition package_A : Package.t :=
  {| Package.id := "A"; Package.previous_package_id := None;
     Package.fork_of_package_id := Some "B";
     Package.merge_checkpoint_package_id := None; Package.integrity_ok := true |}.

Definition package_B : Package.t :=
  {| Package.id := "B"; Package.previous_package_id := Some "C";
     Package.fork_of_package_id := None;
     Package.merge_checkpoint_package_id := None; Package.integrity_ok := true |}.

Definition cascade : RegistryEntities := set_list [package_A; package_B] no_entities.

(** Two action keys with the same uuid. *)
Definition key_1 : ActionKey.t :=
  {| ActionKey.uuid := "u1"; ActionKey.organization_id := "org";
     ActionKey.type := "t"; ActionKey.hash := "h1"; ActionKey.created_at := 0%Z;
     ActionKey.integrity_ok := true |}.

Definition key_2 : ActionKey.t :=
  {| ActionKey.uuid := "u1"; ActionKey.organization_id := "org";
     ActionKey.type := "t"; ActionKey.hash := "h2"; ActionKey.created_at := 1%Z;
     ActionKey.integrity_ok := true |}.

Definition audit_1 : AuditEntry.t :=
  {| AuditEntry.type := "ListPackagesAuditEntry"; AuditEntry.organization_id := "org";
     AuditEntry.instance_statistics := None; AuditEntry.package_id := "";
     AuditEntry.created_at := 0%Z; AuditEntry.integrity_ok := true |}.

(** [fresh e n]: the next [n] tokens of the generator are pairwise
    different. *)
Definition fresh (e : Entropy) (n : nat) : Prop :=
  NoDup (tokens e <$> seq (drawn e) n).

(** The generator after [n] more draws. *)
Definition after_draws (n : nat) (e : Entropy) : Entropy :=
  {| tokens := tokens e; drawn := drawn e + n |}.

(** An action key of an organization that does not exist. *)
Definition orphan : RegistryEntities := set_list [key_1] no_entities.

(** The messages of the uniqueness passes over the six classes with a
    stored identity, in the order of the passes. *)
Definition duplicate_violations (self : RegistryEntities) : list string :=
  uniq_msgs ∅ (action_keys self) ++ uniq_msgs ∅ (organizations self)
  ++ uniq_msgs ∅ (packages self) ++ uniq_msgs ∅ (templates self)
  ++ uniq_msgs ∅ (template_assets self) ++ uniq_msgs ∅ (template_files self).

(** The two packages of the cascade, for any identities: [forked a b] is a
    fork of package [b] and holds no other reference, [dangling b c f m]
    names [c] as its previous package. *)
Definition forked (a b : string) : Package.t :=
  {| Package.id := a; Package.previous_package_id := None;
     Package.fork_of_package_id := Some b;
     Package.merge_checkpoint_package_id := None; Package.integrity_ok := true |}.

Definition dangling (b c : string) (fork_of merge_checkpoint : option string) : Package.t :=
  {| Package.id := b; Package.previous_package_id := Some c;
     Package.fork_of_package_id := fork_of;
     Package.merge_checkpoint_package_id := merge_checkpoint;
     Package.integrity_ok := true |}.

(** A snapshot for two calls in a row: two action keys with one uuid, of an
    organization that does not exist, and two audit entries. *)
Definition twice_sample : RegistryEntities :=
  set_list [audit_1; audit_1] (set_list [key_1; key_2] no_entities).

(** ** Runs of the pipeline *)

(** The calls that make a change to the destination last: the commit of the
    transaction, and the three calls that write to the object store. *)
Definition persists (ev : Event) : bool :=
  match ev with
  | PgCommit | S3DeleteTemplates | S3EnsureBucket | S3StoreTemplateAsset _ _ _ _ => true
  | _ => false
  end.

(** The calls [_run_insert] makes to the target store. *)
Definition is_insert_call (ev : Event) : bool :=
  match ev with
  | PgDisableTriggers _ | PgEnableTriggers _ | PgExecuteLoop _ _ => true
  | _ => false
  end.

(** Modelled from the spec: what the calls do to the two destination stores
    (the clients are not in registry.py). Statements run inside a
    transaction whose effect lasts only once it is committed; the object
    store changes at once. *)
Record Destination := {
  committed : EntityClass → list Entry;
  pending : EntityClass → list Entry;
  bucket : option (list (string * string * string * bytes));
}.

Definition apply_event (d : Destination) (ev : Event) : Destination :=
  match ev with
  | PgExecuteDelete table =>
      {| committed := committed d;
         pending t := if decide (t = table) then [] else pending d t;
         bucket := bucket d |}
  | PgExecuteLoop entity instances =>
      {| committed := committed d;
         pending t := if decide (t = entity) then pending d t ++ instances else pending d t;
         bucket := bucket d |}
  | PgCommit => {| committed := pending d; pending := pending d; bucket := bucket d |}
  | S3EnsureBucket =>
      {| committed := committed d; pending := pending d;
         bucket := Some (default [] (bucket d)) |}
  | S3DeleteTemplates =>
      {| committed := committed d; pending := pending d;
         bucket := (λ _, []) <$> bucket d |}
  | S3StoreTemplateAsset template_id file_name content_type data =>
      {| committed := committed d; pending := pending d;
         bucket := cons (template_id, file_name, content_type, data) <$> bucket d |}
  | _ => d
  end.

Definition apply_events (d : Destination) (evs : list Event) : Destination :=
  foldl apply_event d evs.

Section Phases.
Context (env : Env) (options : MigrationOptions).

(** The events the phases before the insertion can emit. *)
Definition before_insert_event (ev : Event) : Prop :=
  match ev with
  | PgNewCursor | PgExecuteDelete _ | LogDeleted _ _ | S3BucketExists
  | S3CountTemplates | MongoUpdateNow | MongoLoadList _ | MongoLoadNested _ _ _
  | LogViolation _ => True
  | PgCommit | S3DeleteTemplates | S3EnsureBucket => dry_run options = false
  | _ => False
  end.

(** The events the insertion and the asset transfer can emit when the
    entities are [E]. *)
Definition insert_event (E : RegistryEntities) (ev : Event) : Prop :=
  match ev with
  | LogInsert _ _ _ | PgDisableTriggers _ | PgEnableTriggers _ | LogAssets _
  | MongoFetchAsset _ | LogAssetSkipped _ _ | LogAssetsStored _ _ => True
  | PgExecuteLoop entity instances =>
      instances = filter (λ x, entry_integrity_ok x = true) (entries_by_entity entity E)
  | PgCommit => dry_run options = false
  | S3StoreTemplateAsset template_id file_name content_type data =>
      dry_run options = false ∧
      ∃ asset, asset ∈ template_assets E ∧ integrity_ok asset ≠ false ∧
               template_id = TemplateAsset.template_id asset ∧
               file_name = TemplateAsset.uuid asset ∧
               content_type = TemplateAsset.content_type asset ∧
               fetch_asset env (TemplateAsset.original_uuid asset) = Some data
  | _ => False
  end.

(** What [_run_insert] does for one class when no call fails. *)
Definition run_insert_plan (E : RegistryEntities) (entity : EntityClass)
    (disable_triggers : bool) : list Event :=
  let instances := entries_by_entity entity E in
  let ok_instances := filter (λ x, entry_integrity_ok x = true) instances in
  [LogInsert entity (length ok_instances) (length instances)]
  ++ (if disable_triggers then [PgDisableTriggers entity] else [])
  ++ [PgExecuteLoop entity ok_instances]
  ++ (if disable_triggers then [PgEnableTriggers entity] else []).

(** What [insert] does when no call fails, in the words of the
    specification: packages first, with the triggers of their table
    suspended around the batch, then templates, audit entries,
    organizations, action keys, template assets, template files, and the
    commit unless the run is a dry run. *)
Definition insert_plan (E : RegistryEntities) : list Event :=
  run_insert_plan E Package true
  ++ run_insert_plan E Template false
  ++ run_insert_plan E AuditEntry false
  ++ run_insert_plan E Organization false
  ++ run_insert_plan E ActionKey false
  ++ run_insert_plan E TemplateAsset false
  ++ run_insert_plan E TemplateFile false
  ++ (if dry_run options then [] else [PgCommit]).

(** What [cleanup_postgres] does when no call fails. *)
Definition cleanup_postgres_plan : list Event :=
  [PgNewCursor;
   PgExecuteDelete ActionKey; LogDeleted ActionKey (rowcount env ActionKey);
   PgExecuteDelete AuditEntry; LogDeleted AuditEntry (rowcount env AuditEntry);
   PgExecuteDelete Organization; LogDeleted Organization (rowcount env Organization);
   PgExecuteDelete TemplateAsset; LogDeleted TemplateAsset (rowcount env TemplateAsset);
   PgExecuteDelete TemplateFile; LogDeleted TemplateFile (rowcount env TemplateFile);
   PgExecuteDelete Template; LogDeleted Template (rowcount env Template);
   PgExecuteDelete Package; LogDeleted Package (rowcount env Package)]
  ++ (if dry_run options then [] else [PgCommit]).
End Phases.

(** [keeps I c]: whatever way [c] ends, it takes a world where [I] holds to
    one where [I] holds. *)
Definition keeps {A : Type} (I : World → Prop) (c : Run A) : Prop :=
  ∀ w, I w → I (c w).2.

(** [admits I ev]: recording [ev] keeps [I]. *)
Definition admits (I : World → Prop) (ev : Event) : Prop :=
  ∀ w, I w → I (emit ev w).

(** [I] reads the trace only. *)
Definition trace_only (I : World → Prop) : Prop :=
  ∀ w E en, I w → I {| entities := E; entropy := en; trace := trace w |}.

(** Since the trace was [t0], only events that satisfy [Q] were recorded. *)
Definition since (t0 : list Event) (Q : Event → Prop) (w : World) : Prop :=
  ∃ evs, trace w = t0 ++ evs ∧ Forall Q evs.

(** [follows E c plan a]: started with entities [E], [c] leaves them as they
    are and emits [plan], cut after the first call that fails; when it ends
    normally it has emitted all of [plan] and returns [a]. *)
Definition follows {A : Type} (E : RegistryEntities) (c : Run A) (plan : list Event)
    (a : A) : Prop :=
  ∀ w, entities w = E →
    entities (c w).2 = E ∧
    ∃ evs, trace (c w).2 = trace w ++ evs ∧ evs `prefix_of` plan ∧
           ((∃ b, (c w).1 = Done b) → evs = plan ∧ (c w).1 = Done a).

Section AssetPlan.
Context (env : Env) (options : MigrationOptions).

(** What the asset transfer does for one asset when no call fails. *)
Definition asset_plan (asset : TemplateAsset.t) : list Event :=
  MongoFetchAsset (TemplateAsset.original_uuid asset)
  :: match fetch_asset env (TemplateAsset.original_uuid asset) with
     | None =>
         [LogAssetSkipped (TemplateAsset.uuid asset) (TemplateAsset.original_uuid asset)]
     | Some data =>
         if dry_run options then []
         else [S3StoreTemplateAsset (TemplateAsset.template_id asset)
                 (TemplateAsset.uuid asset) (TemplateAsset.content_type asset) data]
     end.

(** The assets whose payload the source store holds. *)
Definition has_payload (asset : TemplateAsset.t) : Prop :=
  is_Some (fetch_asset env (TemplateAsset.original_uuid asset)).

(** What [migrate_template_assets] does when no call fails. *)
Definition migrate_template_assets_plan (E : RegistryEntities) : list Event :=
  let assets := valid_entries TemplateAsset.t E in
  [LogAssets (length assets)]
  ++ concat (asset_plan <$> assets)
  ++ [LogAssetsStored (length (filter has_payload assets))
        (length (filter (λ asset, ¬ has_payload asset) assets))].
End AssetPlan.

(** An environment in which no call fails: the bucket exists and holds two
    templates, and the source store holds the cascade of packages. *)
Definition sample_env : Env :=
  {| raises _ := false; rowcount _ := 3; bucket_exists := true; count_templates := 2;
     mongo := cascade; fetch_asset _ := None |}.

Definition sample_world : World :=
  {| entities := no_entities; entropy := sample_entropy; trace := [] |}.

Definition dry_run_options : MigrationOptions :=
  {| dry_run := true; fix_integrity := true |}.

Definition empty_destination : Destination :=
  {| committed _ := []; pending _ := []; bucket := None |}.

(** ** What a verified snapshot satisfies *)

(** [resolves field items targets]: every reference that a record of [items]
    whose marker is not False holds in [field] is the identity of a record
    of [targets] whose marker is not False. *)
Definition resolves {A B : Type} `{Entity A} `{Entity B} `{!StoredId B}
    (field : A → option string) (items : list A) (targets : list B) : Prop :=
  ∀ x ref_id, x ∈ items → is_valid x → field x = Some ref_id →
    ∃ y, y ∈ targets ∧ is_valid y ∧ id_of y = ref_id.

(** The references [_check_references] checks all resolve. *)
Record consistent (self : RegistryEntities) : Prop := {
  consistent_action_keys :
    resolves (Some ∘ ActionKey.organization_id) (action_keys self) (organizations self);
  consistent_previous :
    resolves Package.previous_package_id (packages self) (packages self);
  consistent_fork_of :
    resolves Package.fork_of_package_id (packages self) (packages self);
  consistent_merge_checkpoint :
    resolves Package.merge_checkpoint_package_id (packages self) (packages self);
  consistent_template_assets :
    resolves (Some ∘ TemplateAsset.template_id) (template_assets self) (templates self);
  consistent_template_files :
    resolves (Some ∘ TemplateFile.template_id) (template_files self) (templates self);
}.

(** The records of a list whose marker is not False have pairwise different
    identities. *)
Definition unique_ids {A : Type} `{Entity A} `{!StoredId A} (items : list A) : Prop :=
  NoDup (id_of <$> filter is_valid items).

(** The same, for the six classes with a stored identity. *)
Record unique (self : RegistryEntities) : Prop := {
  unique_action_keys : unique_ids (action_keys self);
  unique_organizations : unique_ids (organizations self);
  unique_packages : unique_ids (packages self);
  unique_templates : unique_ids (templates self);
  unique_template_assets : unique_ids (template_assets self);
  unique_template_files : unique_ids (template_files self);
}.

(** The snapshot [cascade] after [check_integrity]: both packages flipped,
    both messages recorded. *)
Definition cascade_verified : RegistryEntities :=
  set_list [set_integrity_ok false package_A; set_integrity_ok false package_B]
    (set_result ["Missing Package (previous_package_id=C) for Package: B";
                 "Missing Package (fork_of_package_id=B) for Package: A"] no_entities).

(** A snapshot with nothing to report: an organization, an action key of
    that organization, and two audit entries. *)
Definition organization_1 : Organization.t :=
  {| Organization.organization_id := "org"; Organization.name := "Org";
     Organization.description := ""; Organization.email := "org@example.com";
     Organization.role := "UserRole"; Organization.token := "t";
     Organization.active := true; Organization.logo := "";
     Organization.created_at := 0%Z; Organization.updated_at := 0%Z;
     Organization.integrity_ok := true |}.

Definition clean_sample : RegistryEntities :=
  set_list [organization_1] (set_list [audit_1; audit_1] (set_list [key_1] no_entities)).

(** Every record of a list has an identity of its own (whatever its
    marker). *)
Definition all_ids_differ {A : Type} `{Entity A} `{!StoredId A} (items : list A) : Prop :=
  NoDup (id_of <$> items).

(** ** The rest of registry.py: lookup of a list by class, [clear], loading *)

(** [entity.__name__] for a class given as a value. *)
Definition class_name (entity : EntityClass) : string :=
  match entity with
  | ActionKey => "ActionKey"
  | AuditEntry => "AuditEntry"
  | Organization => "Organization"
  | Package => "Package"
  | Template => "Template"
  | TemplateAsset => "TemplateAsset"
  | TemplateFile => "TemplateFile"
  end.

(** [LIST_ENTITY], a dict in the order it is written. *)
Definition LIST_ENTITY : list (string * EntityClass) :=
  [("action_keys", ActionKey); ("audit_entries", AuditEntry);
   ("organizations", Organization); ("packages", Package); ("templates", Template);
   ("template_assets", TemplateAsset); ("template_files", TemplateFile)].

(** [ENTITIES = [e for e in LIST_ENTITY.values()]] *)
Definition ENTITIES : list EntityClass := LIST_ENTITY.*2.

(** [ENTITY_LIST = {e.__name__: lst for lst, e in LIST_ENTITY.items()}]: the
    comprehension stores the pairs one after the other, a later pair
    replacing an earlier one with the same key. *)
Definition ENTITY_LIST : gmap string string :=
  foldl (λ d '(lst, e), <[class_name e := lst]> d) ∅ LIST_ENTITY.

(** [getattr(self, name)] for the seven attributes that hold records; [None]
    stands for the exception raised for any other name. *)
Definition getattr_entries (self : RegistryEntities) (name : string) : option (list Entry) :=
  if decide (name = "action_keys") then Some (ActionKeyEntry <$> action_keys self)
  else if decide (name = "audit_entries") then Some (AuditEntryEntry <$> audit_entries self)
  else if decide (name = "organizations") then Some (OrganizationEntry <$> organizations self)
  else if decide (name = "packages") then Some (PackageEntry <$> packages self)
  else if decide (name = "templates") then Some (TemplateEntry <$> templates self)
  else if decide (name = "template_assets")
       then Some (TemplateAssetEntry <$> template_assets self)
  else if decide (name = "template_files")
       then Some (TemplateFileEntry <$> template_files self)
  else None.

(** [list_by_entity] as the source writes it:
    [getattr(self, self.ENTITY_LIST.get(entity.__name__))]. *)
Definition list_by_entity_by_name (entity : EntityClass) (self : RegistryEntities)
  : option (list Entry) :=
  name ← ENTITY_LIST !! class_name entity; getattr_entries self name.

(** [clear]: [for entity in self.ENTITIES: self.list_by_entity(entity).clear()];
    each list is emptied, [_result] is not among them. *)
Definition clear_entity (entity : EntityClass) (self : RegistryEntities) : RegistryEntities :=
  match entity with
  | ActionKey => set_list (A:=ActionKey.t) [] self
  | AuditEntry => set_list (A:=AuditEntry.t) [] self
  | Organization => set_list (A:=Organization.t) [] self
  | Package => set_list (A:=Package.t) [] self
  | Template => set_list (A:=Template.t) [] self
  | TemplateAsset => set_list (A:=TemplateAsset.t) [] self
  | TemplateFile => set_list (A:=TemplateFile.t) [] self
  end.

Definition clear (self : RegistryEntities) : RegistryEntities :=
  foldl (λ self entity, clear_entity entity self) self ENTITIES.

(** *** Loading records from documents of the source store *)

(** The values a document of the source store holds. *)
Inductive PyValue :=
  | PyNone
  | PyStr (s : string)
  | PyBool (b : bool)
  | PyInt (n : Z)
  | PyDatetime (t : datetime)
  | PyDict (items : list (string * PyValue)).

(** What building a record ends with: the record, or the [KeyError] of
    [doc[key]] for a key the document does not hold. *)
Inductive Loaded (A : Type) :=
  | Built (x : A)
  | KeyError (key : string).
Arguments Built {A} x.
Arguments KeyError {A} key.

(** [doc[key]], then the rest. *)
Definition subscript {A : Type} (doc : gmap string PyValue) (key : string)
    (k : PyValue → Loaded A) : Loaded A :=
  match doc !! key with
  | Some v => k v
  | None => KeyError key
  end.

(** [doc.get(key)] and [doc.get(key, default)]: the value stored under the
    key, whatever it is, and the default only when the key is absent. *)
Definition dict_get (doc : gmap string PyValue) (key : string) (default_ : PyValue)
  : PyValue :=
  default default_ (doc !! key).

(** The objects [from_mongo] builds. Python does not check the annotations
    of a dataclass: an attribute holds whatever value the document held. *)
Record ActionKeyObject := {
  ak_uuid : PyValue; ak_organization_id : PyValue; ak_type : PyValue;
  ak_hash : PyValue; ak_created_at : PyValue; ak_integrity_ok : bool;
}.

Record AuditEntryObject := {
  ae_type : PyValue; ae_organization_id : PyValue; ae_instance_statistics : PyValue;
  ae_package_id : PyValue; ae_created_at : PyValue; ae_integrity_ok : bool;
}.

Record OrganizationObject := {
  org_organization_id : PyValue; org_name : PyValue; org_description : PyValue;
  org_email : PyValue; org_role : PyValue; org_token : PyValue; org_active : PyValue;
  org_logo : PyValue; org_created_at : PyValue; org_updated_at : PyValue;
  org_integrity_ok : bool;
}.

(** [ActionKey.from_mongo] *)
Definition ActionKey_from_mongo (doc : gmap string PyValue) (now : datetime)
  : Loaded ActionKeyObject :=
  Built {| ak_uuid := dict_get doc "uuid" PyNone;
           ak_type := dict_get doc "type" PyNone;
           ak_hash := dict_get doc "hash" PyNone;
           ak_organization_id := dict_get doc "organizationId" PyNone;
           ak_created_at := dict_get doc "createdAt" (PyDatetime now);
           ak_integrity_ok := true |}.

(** [AuditEntry.from_mongo] *)
Definition AuditEntry_from_mongo (doc : gmap string PyValue) (now : datetime)
  : Loaded AuditEntryObject :=
  let type := dict_get doc "type" (PyStr "ListPackagesAuditEntry") in
  subscript doc "organizationId" (λ organization_id,
  Built {| ae_type := type;
           ae_organization_id := organization_id;
           ae_instance_statistics := dict_get doc "instanceStatistics" PyNone;
           ae_package_id := dict_get doc "packageId" (PyStr "");
           ae_created_at := dict_get doc "createdAt" (PyDatetime now);
           ae_integrity_ok := true |}).

(** [Organization.from_mongo] *)
Definition Organization_from_mongo (doc : gmap string PyValue) (now : datetime)
  : Loaded OrganizationObject :=
  subscript doc "organizationId" (λ organization_id,
  subscript doc "name" (λ name,
  subscript doc "description" (λ description,
  subscript doc "email" (λ email,
  subscript doc "role" (λ role,
  subscript doc "token" (λ token,
  subscript doc "active" (λ active,
  subscript doc "logo" (λ logo,
  Built {| org_organization_id := organization_id; org_name := name;
           org_description := description; org_email := email; org_role := role;
           org_token := token; org_active := active; org_logo := logo;
           org_created_at := dict_get doc "createdAt" (PyDatetime now);
           org_updated_at := dict_get doc "updatedAt" (PyDatetime now);
           org_integrity_ok := true |})))))))).

(** The [fields] handed to [insert_query], per class. *)
Definition ActionKey_fields : list string :=
  ["uuid"; "organization_id"; "type"; "hash"; "created_at"].
Definition AuditEntry_fields : list string :=
  ["type"; "organization_id"; "instance_statistics"; "package_id"; "created_at"].
Definition Organization_fields : list string :=
  ["organization_id"; "name"; "description"; "email"; "role"; "token"; "active";
   "logo"; "created_at"; "updated_at"].

(** [getattr(self, name)] on the three objects. *)
Definition ActionKey_getattr (self : ActionKeyObject) (name : string) : option PyValue :=
  if decide (name = "uuid") then Some (ak_uuid self)
  else if decide (name = "organization_id") then Some (ak_organization_id self)
  else if decide (name = "type") then Some (ak_type self)
  else if decide (name = "hash") then Some (ak_hash self)
  else if decide (name = "created_at") then Some (ak_created_at self)
  else if decide (name = "integrity_ok") then Some (PyBool (ak_integrity_ok self))
  else None.

Definition AuditEntry_getattr (self : AuditEntryObject) (name : string) : option PyValue :=
  if decide (name = "type") then Some (ae_type self)
  else if decide (name = "organization_id") then Some (ae_organization_id self)
  else if decide (name = "instance_statistics") then Some (ae_instance_statistics self)
  else if decide (name = "package_id") then Some (ae_package_id self)
  else if decide (name = "created_at") then Some (ae_created_at self)
  else if decide (name = "integrity_ok") then Some (PyBool (ae_integrity_ok self))
  else None.

Definition Organization_getattr (self : OrganizationObject) (name : string)
  : option PyValue :=
  if decide (name = "organization_id") then Some (org_organization_id self)
  else if decide (name = "name") then Some (org_name self)
  else if decide (name = "description") then Some (org_description self)
  else if decide (name = "email") then Some (org_email self)
  else if decide (name = "role") then Some (org_role self)
  else if decide (name = "token") then Some (org_token self)
  else if decide (name = "active") then Some (org_active self)
  else if decide (name = "logo") then Some (org_logo self)
  else if decide (name = "created_at") then Some (org_created_at self)
  else if decide (name = "updated_at") then Some (org_updated_at self)
  else if decide (name = "integrity_ok") then Some (PyBool (org_integrity_ok self))
  else None.

(** [query_vars]; [_wrap_json] is [json.dumps] with the encoder of the
    module, a library function taken as given. *)
Definition ActionKey_query_vars (self : ActionKeyObject) : list PyValue :=
  [ak_uuid self; ak_organization_id self; ak_type self; ak_hash self; ak_created_at self].

Definition AuditEntry_query_vars (_wrap_json : PyValue → string) (self : AuditEntryObject)
  : list PyValue :=
  [ae_type self; ae_organization_id self;
   PyStr (_wrap_json (ae_instance_statistics self));
   ae_package_id self; ae_created_at self].

Definition Organization_query_vars (self : OrganizationObject) : list PyValue :=
  [org_organization_id self; org_name self; org_description self; org_email self;
   org_role self; org_token self; org_active self; org_logo self;
   org_created_at self; org_updated_at self].

(** The keys [Organization.from_mongo] reads with [doc[...]], in the order
    it reads them. *)
Definition Organization_required : list string :=
  ["organizationId"; "name"; "description"; "email"; "role"; "token"; "active"; "logo"].

(** A document of an organization with every key but the timestamps. *)
Definition organization_doc : gmap string PyValue :=
  list_to_map
    [("organizationId", PyStr "org"); ("name", PyStr "Org"); ("description", PyStr "");
     ("email", PyStr "org@example.com"); ("role", PyStr "UserRole");
     ("token", PyStr "t"); ("active", PyBool true); ("logo", PyNone)].

(** ** How a sequence of calls ends *)

(** The log lines among the events: they cannot fail. *)
Definition is_log (ev : Event) : bool :=
  match ev with
  | LogDeleted _ _ | LogViolation _ | LogInsert _ _ _ | LogAssets _
  | LogAssetSkipped _ _ | LogAssetsStored _ _ => true
  | _ => false
  end.

(** [perform env n plan]: the events of [plan] recorded one after another,
    the first at position [n] of the trace, up to and including the first
    call that raises. The result says whether every call went through and
    gives the events recorded. *)
Fixpoint perform (env : Env) (n : nat) (plan : list Event) : bool * list Event :=
  match plan with
  | [] => (true, [])
  | ev :: rest =>
      if negb (is_log ev) && raises env n then (false, [ev])
      else let r := perform env (S n) rest in (r.1, ev :: r.2)
  end.

(** [performs env E c plan a]: started with entities [E], [c] leaves them as
    they are and does what [perform] says of [plan]: it returns [a] when
    every call went through and lets the exception of the first failing call
    escape otherwise. *)
Definition performs {A : Type} (env : Env) (E : RegistryEntities) (c : Run A)
    (plan : list Event) (a : A) : Prop :=
  ∀ w, entities w = E →
    c w = (if (perform env (length (trace w)) plan).1 then Done a else Raised,
           {| entities := E; entropy := entropy w;
              trace := trace w ++ (perform env (length (trace w)) plan).2 |}).

(** [plan] was cut at a call that raised as the [n + length before]-th
    entry of the trace: [evs] is [plan] up to and including that call. *)
Definition cut_at (env : Env) (n : nat) (plan evs : list Event) : Prop :=
  ∃ before ev after,
    plan = before ++ ev :: after ∧ evs = before ++ [ev] ∧
    is_log ev = false ∧ raises env (n + length before) = true.

Section MorePlans.
Context (env : Env) (options : MigrationOptions).

(** The batches of [insert], without the commit. *)
Definition insert_batches (E : RegistryEntities) : list Event :=
  run_insert_plan E Package true
  ++ run_insert_plan E Template false
  ++ run_insert_plan E AuditEntry false
  ++ run_insert_plan E Organization false
  ++ run_insert_plan E ActionKey false
  ++ run_insert_plan E TemplateAsset false
  ++ run_insert_plan E TemplateFile false.

(** What [cleanup_s3] does when no call fails. *)
Definition cleanup_s3_plan : list Event :=
  S3BucketExists
  :: if bucket_exists env then
       S3CountTemplates
       :: (if decide (0 < count_templates env)
           then (if dry_run options then [] else [S3DeleteTemplates])
           else [])
     else (if dry_run options then [] else [S3EnsureBucket]).

(** What [load] does when no call fails. *)
Definition load_plan : list Event :=
  [MongoUpdateNow;
   MongoLoadList ActionKey; MongoLoadList AuditEntry; MongoLoadList Organization;
   MongoLoadList Package; MongoLoadList Template;
   MongoLoadNested Template TemplateAsset "assets";
   MongoLoadNested Template TemplateFile "files"].
End MorePlans.

(** ** References between the rows of a batch *)



(** An environment in which the batch of the packages fails. *)
Definition failing_batch_env : Env :=
  {| raises n := bool_decide (n = 2); rowcount _ := 0; bucket_exists := true;
     count_templates := 0; mongo := cascade; fetch_asset _ := None |}.

Definition real_run_options : MigrationOptions :=
  {| dry_run := false; fix_integrity := false |}.

Definition fix_options : MigrationOptions :=
  {| dry_run := false; fix_integrity := true |}.

(** [proceeds env E E' c plan a]: as [performs], for a step that changes the
    entities: when every call of [plan] went through, they are [E'] in the
    end. *)
Definition proceeds {A : Type} (env : Env) (E E' : RegistryEntities) (c : Run A)
    (plan : list Event) (a : A) : Prop :=
  ∀ w, entities w = E →
    (c w).1 = (if (perform env (length (trace w)) plan).1 then Done a else Raised) ∧
    trace (c w).2 = trace w ++ (perform env (length (trace w)) plan).2 ∧
    entropy (c w).2 = entropy w ∧
    _result (entities (c w).2) = _result E ∧
    ((perform env (length (trace w)) plan).1 = true → entities (c w).2 = E').

(** The entities after [set_list] with the list of the source store. *)
Definition loaded (env : Env) (entity : EntityClass) (self : RegistryEntities) : RegistryEntities :=
  match entity with
  | ActionKey => set_list (action_keys (mongo env)) self
  | AuditEntry => set_list (audit_entries (mongo env)) self
  | Organization => set_list (organizations (mongo env)) self
  | Package => set_list (packages (mongo env)) self
  | Template => set_list (templates (mongo env)) self
  | TemplateAsset => set_list (template_assets (mongo env)) self
  | TemplateFile => set_list (template_files (mongo env)) self
  end.


Section Stores.
Context (env : Env).

(** The call that stores an asset, when the source store holds its
    payload. *)
Definition store_call (asset : TemplateAsset.t) : option Event :=
  S3StoreTemplateAsset (TemplateAsset.template_id asset) (TemplateAsset.uuid asset)
    (TemplateAsset.content_type asset)
  <$> fetch_asset env (TemplateAsset.original_uuid asset).
End Stores.

(** Whether [RegistryMigrator.check_integrity] ends the run for the issues
    found. *)
Definition aborts (options : MigrationOptions) (issues : list string) : bool :=
  negb (fix_integrity options) && bool_decide (0 < length issues).

(** What a run of [migrate] emits when no call fails and the verification
    leaves the entities [E]. *)
Definition migrate_plan (env : Env) (options : MigrationOptions) (E : RegistryEntities)
    : list Event :=
  cleanup_postgres_plan env options ++ cleanup_s3_plan env options ++ load_plan
  ++ (LogViolation <$> _result E)
  ++ (if aborts options (_result E) then []
      else insert_plan options E ++ migrate_template_assets_plan env options E).

(** ** Records that support each other *)

(** The references a package holds. *)
Definition package_references (p : Package.t) : list string :=
  omap id [Package.previous_package_id p; Package.fork_of_package_id p;
           Package.merge_checkpoint_package_id p].

(** [self_supporting K l]: the packages that satisfy [K] are records of [l]
    whose marker is not False and whose references are identities of packages
    that satisfy [K]. *)
Definition self_supporting (K : Package.t → Prop) (l : list Package.t) : Prop :=
  ∀ p, K p →
    p ∈ l ∧ is_valid p ∧
    ∀ ref_id, ref_id ∈ package_references p → ∃ q, K q ∧ id_of q = ref_id.

(** A package without references and a package that follows it. *)
Definition package_root : Package.t :=
  {| Package.id := "R"; Package.previous_package_id := None;
     Package.fork_of_package_id := None;
     Package.merge_checkpoint_package_id := None; Package.integrity_ok := true |}.

Definition package_child : Package.t :=
  {| Package.id := "S"; Package.previous_package_id := Some "R";
     Package.fork_of_package_id := None;
     Package.merge_checkpoint_package_id := None; Package.integrity_ok := true |}.

(** The cascade, with the two packages that support each other before it. *)
Definition mixed_sample : RegistryEntities :=
  set_list [package_child; package_root; package_A; package_B] no_entities.

(** What the verification leaves of it. *)
Definition mixed_verified : RegistryEntities :=
  set_list [package_child; package_root; set_integrity_ok false package_A;
            set_integrity_ok false package_B]
    (set_result ["Missing Package (previous_package_id=C) for Package: B";
                 "Missing Package (fork_of_package_id=B) for Package: A"] no_entities).

(** The calls that read or change the tables of the target store. *)
Definition touches_tables (ev : Event) : bool :=
  match ev with
  | PgExecuteDelete _ | PgExecuteLoop _ _ | PgCommit => true
  | _ => false
  end.

(** A destination whose tables hold rows from an earlier run. *)
Definition used_destination : Destination :=
  {| committed _ := [PackageEntry package_A]; pending _ := [PackageEntry package_A];
     bucket := Some [] |}.

(** The options of the same run without --dry-run. *)
Definition not_dry (options : MigrationOptions) : MigrationOptions :=
  {| dry_run := false; fix_integrity := fix_integrity options |}.

(** * Properties *)

(** ** The entity classes satisfy the laws of the interface *)

#[export] Instance ActionKey_Laws : EntityLaws ActionKey.t.
Proof. split; try (intros b c x || intros b x e || intros b x || intros x); by destruct x. Qed.

#[export] Instance AuditEntry_Laws : EntityLaws AuditEntry.t.
Proof. split; try (intros b c x || intros b x e || intros b x || intros x); by destruct x. Qed.

#[export] Instance Organization_Laws : EntityLaws Organization.t.
Proof. split; try (intros b c x || intros b x e || intros b x || intros x); by destruct x. Qed.

#[export] Instance Package_Laws : EntityLaws Package.t.
Proof. split; try (intros b c x || intros b x e || intros b x || intros x); by destruct x. Qed.

#[export] Instance Template_Laws : EntityLaws Template.t.
Proof. split; try (intros b c x || intros b x e || intros b x || intros x); by destruct x. Qed.

#[export] Instance TemplateAsset_Laws : EntityLaws TemplateAsset.t.
Proof. split; try (intros b c x || intros b x e || intros b x || intros x); by destruct x. Qed.

#[export] Instance TemplateFile_Laws : EntityLaws TemplateFile.t.
Proof. split; try (intros b c x || intros b x e || intros b x || intros x); by destruct x. Qed.

(** ** Counting markers *)

Section Counting.
Context {A : Type} `{EntityLaws A}.

Lemma count_invalid_cons (x : A) (l : list A) :
  count_invalid (x :: l) =
    (if decide (integrity_ok x = false) then 1 else 0) + count_invalid l.
Proof. unfold count_invalid. rewrite filter_cons. by case_decide. Qed.

Lemma count_invalid_le (l : list A) : count_invalid l ≤ length l.
Proof. apply length_filter. Qed.

Lemma flipped_refl (l : list A) : Forall2 flipped l l.
Proof. induction l; constructor; [by left | done]. Qed.

Lemma flipped_trans (l1 l2 l3 : list A) :
  Forall2 flipped l1 l2 → Forall2 flipped l2 l3 → Forall2 flipped l1 l3.
Proof.
  intros H12. revert l3. induction H12 as [|x y l1 l2 Hxy _ IH]; intros l3 H23.
  - by inversion H23.
  - inversion H23 as [|? z ? l3' Hyz Hrest]; subst. constructor; [|by apply IH].
    destruct Hxy as [->| ->]; [done|].
    destruct Hyz as [->| ->]; [by right|].
    right. apply set_integrity_ok_twice.
Qed.

Lemma flipped_length (l1 l2 : list A) : Forall2 flipped l1 l2 → length l1 = length l2.
Proof. apply Forall2_length. Qed.

(** A marker that is False stays False. *)
Lemma flipped_invalid (x y : A) :
  flipped x y → integrity_ok x = false → y = x.
Proof.
  intros [->| ->] Hx; [done|]. rewrite <- Hx. apply set_integrity_ok_same.
Qed.

Lemma flipped_count_invalid (l1 l2 : list A) :
  Forall2 flipped l1 l2 → count_invalid l1 ≤ count_invalid l2.
Proof.
  induction 1 as [|x y l1 l2 Hxy _ IH]; [done|].
  rewrite !count_invalid_cons.
  destruct Hxy as [->| ->]; [lia|].
  rewrite integrity_ok_set. repeat case_decide; try done; lia.
Qed.
End Counting.

(** ** What the three loops do to a list, for any entity class *)

Section Loops.
Context {A : Type} `{EntityLaws A}.

(** A uniqueness scan appends its messages, only assigns False, and every
    message stands for a record that is False afterwards. *)
Lemma _check_uniqueness_loop_spec (items : list A) (unique_set : gset string)
    (result : list string) (e : Entropy) items' result' e' :
  _check_uniqueness_loop items unique_set result e = (items', result', e') →
  ∃ msgs, result' = result ++ msgs ∧ Forall2 flipped items items' ∧
          length msgs ≤ count_invalid items'.
Proof.
  revert unique_set result e items' result' e'.
  induction items as [|item rest IH]; intros unique_set result e items' result' e' Hloop.
  - simplify_eq/=. exists []. rewrite app_nil_r. by repeat split.
  - simpl in Hloop.
    destruct (get_id item e) as [item_id e1].
    destruct (bool_decide (item_id ∈ unique_set));
      destruct (_check_uniqueness_loop rest _ _ e1) as [[rest' result1] e2] eqn:Hrest;
      apply IH in Hrest as (msgs & -> & Hflip & Hlen); simplify_eq.
    + eexists (_ :: msgs). rewrite <- app_assoc. split; [done|]. split.
      * constructor; [by right | done].
      * rewrite count_invalid_cons, integrity_ok_set. rewrite decide_True by done.
        simpl. lia.
    + exists msgs. split; [done|]. split.
      * constructor; [by left | done].
      * rewrite count_invalid_cons. lia.
Qed.

(** A reference check appends its messages, only assigns False, and every
    message stands for one record that was not False and is False
    afterwards. *)
Lemma _check_reference_loop_spec (target_name field_name : string) (field : A → string)
    (ids_set : gset string) (items : list A) (result : list string) (e : Entropy)
    items' result' e' :
  _check_reference_loop target_name field_name field ids_set items result e
    = (items', result', e') →
  ∃ msgs, result' = result ++ msgs ∧ Forall2 flipped items items' ∧
          count_invalid items' = count_invalid items + length msgs.
Proof.
  revert result e items' result' e'.
  induction items as [|item rest IH]; intros result e items' result' e' Hloop.
  - simplify_eq/=. exists []. rewrite app_nil_r. by repeat split.
  - simpl in Hloop.
    destruct (decide (is_valid item)) as [Hvalid|Hinvalid];
      [destruct (bool_decide (field item ∉ ids_set));
         [destruct (get_id (set_integrity_ok false item) e) as [item_id e1]|]|];
      destruct (_check_reference_loop _ _ _ _ rest _ _) as [[rest' result1] e2] eqn:Hrest;
      apply IH in Hrest as (msgs & -> & Hflip & Hcount); simplify_eq.
    + eexists (_ :: msgs). rewrite <- app_assoc. split; [done|]. split.
      * constructor; [by right | done].
      * rewrite !count_invalid_cons, integrity_ok_set, Hcount.
        rewrite decide_True by done. rewrite decide_False by done. simpl. lia.
    + exists msgs. split; [done|]. split.
      * constructor; [by left | done].
      * rewrite !count_invalid_cons, Hcount. lia.
    + exists msgs. split; [done|]. split.
      * constructor; [by left | done].
      * rewrite !count_invalid_cons, Hcount. lia.
Qed.

Lemma _check_optional_reference_loop_spec (target_name field_name : string)
    (field : A → option string)
    (ids_set : gset string) (items : list A) (result : list string) (e : Entropy)
    items' result' e' :
  _check_optional_reference_loop target_name field_name field ids_set items result e
    = (items', result', e') →
  ∃ msgs, result' = result ++ msgs ∧ Forall2 flipped items items' ∧
          count_invalid items' = count_invalid items + length msgs.
Proof.
  revert result e items' result' e'.
  induction items as [|item rest IH]; intros result e items' result' e' Hloop.
  - simplify_eq/=. exists []. rewrite app_nil_r. by repeat split.
  - simpl in Hloop.
    destruct (decide (is_valid item)) as [Hvalid|Hinvalid];
      [destruct (field item) as [ref_id|];
         [destruct (bool_decide (ref_id ∉ ids_set));
            [destruct (get_id (set_integrity_ok false item) e) as [item_id e1]|]|]|];
      destruct (_check_optional_reference_loop _ _ _ _ rest _ _)
        as [[rest' result1] e2] eqn:Hrest;
      apply IH in Hrest as (msgs & -> & Hflip & Hcount); simplify_eq.
    + eexists (_ :: msgs). rewrite <- app_assoc. split; [done|]. split.
      * constructor; [by right | done].
      * rewrite !count_invalid_cons, integrity_ok_set, Hcount.
        rewrite decide_True by done. rewrite decide_False by done. simpl. lia.
    + exists msgs. split; [done|]. split.
      * constructor; [by left | done].
      * rewrite !count_invalid_cons, Hcount. lia.
    + exists msgs. split; [done|]. split.
      * constructor; [by left | done].
      * rewrite !count_invalid_cons, Hcount. lia.
    + exists msgs. split; [done|]. split.
      * constructor; [by left | done].
      * rewrite !count_invalid_cons, Hcount. lia.
Qed.
End Loops.

Lemma omap_cons_eq {X Y : Type} (f : X → option Y) (x : X) (l : list X) :
  omap f (x :: l) = match f x with Some y => y :: omap f l | None => omap f l end.
Proof. done. Qed.

(** ** The loops of the checker and the list functions agree *)

Section Stored.
Context {A : Type} `{EntityLaws A} `{!StoredId A}.

Lemma id_of_set (b : bool) (x : A) : id_of (set_integrity_ok b x) = id_of x.
Proof.
  pose proof (get_id_set b x {| tokens := λ _, ""; drawn := 0 |}) as Hset.
  rewrite !get_id_stored in Hset. by simplify_eq.
Qed.

Lemma flipped_id_of (x y : A) : flipped x y → id_of y = id_of x.
Proof. intros [->| ->]; [done | apply id_of_set]. Qed.

Lemma get_ids_stored (items : list A) (e : Entropy) :
  get_ids items e = (id_of <$> items, e).
Proof.
  induction items as [|item rest IH]; [done|].
  simpl. by rewrite get_id_stored, IH.
Qed.

Lemma _check_uniqueness_loop_stored (items : list A) (unique_set : gset string)
    (result : list string) (e : Entropy) :
  _check_uniqueness_loop items unique_set result e
    = (uniq_mark unique_set items, result ++ uniq_msgs unique_set items, e).
Proof.
  revert unique_set result.
  induction items as [|item rest IH]; intros unique_set result; simpl.
  - by rewrite app_nil_r.
  - rewrite get_id_stored. destruct (bool_decide (id_of item ∈ unique_set)).
    + rewrite IH. by rewrite <- app_assoc.
    + by rewrite IH.
Qed.

Lemma _check_optional_reference_loop_stored target_name field_name field ids_set
    (items : list A) (result : list string) (e : Entropy) :
  _check_optional_reference_loop target_name field_name field ids_set items result e
    = (ref_mark field ids_set items,
       result ++ ref_msgs target_name field_name field ids_set items, e).
Proof.
  revert result.
  induction items as [|item rest IH]; intros result; simpl.
  - by rewrite app_nil_r.
  - unfold ref_msgs. simpl. unfold ref_msg at 1.
    destruct (decide (is_valid item)) as [Hvalid|Hinvalid].
    + destruct (field item) as [ref_id|] eqn:Hfield.
      * destruct (bool_decide (ref_id ∉ ids_set)) eqn:Hin.
        -- apply bool_decide_eq_true in Hin.
           rewrite get_id_stored, id_of_set, IH.
           rewrite decide_True by (split; [done | by rewrite Hfield]).
           by rewrite <- app_assoc.
        -- apply bool_decide_eq_false in Hin.
           rewrite IH.
           rewrite decide_False by (intros [_ ?]; by rewrite Hfield in *). done.
      * rewrite IH.
        rewrite decide_False by (intros [_ ?]; by rewrite Hfield in *). done.
    + rewrite IH. rewrite decide_False by (intros [? _]; done). done.
Qed.

(** A required reference is an optional one that is never [None]. *)
Lemma _check_reference_loop_stored target_name field_name (field : A → string) ids_set
    (items : list A) (result : list string) (e : Entropy) :
  _check_reference_loop target_name field_name field ids_set items result e
    = (ref_mark (Some ∘ field) ids_set items,
       result ++ ref_msgs target_name field_name (Some ∘ field) ids_set items, e).
Proof.
  rewrite <- _check_optional_reference_loop_stored. revert result e.
  induction items as [|item rest IH]; intros result e; [done|].
  simpl. destruct (decide (is_valid item)); [|by rewrite IH].
  destruct (bool_decide (field item ∉ ids_set)); [|by rewrite IH].
  destruct (get_id _ e). by rewrite IH.
Qed.

(** The messages of a check stand for the records it flips. *)
Lemma ref_msgs_length target_name field_name field ids_set (items : list A) :
  length (ref_msgs target_name field_name field ids_set items)
    = length (filter (broken field ids_set) items).
Proof.
  induction items as [|item rest IH]; [done|].
  unfold ref_msgs in *. simpl. rewrite filter_cons. unfold ref_msg at 1.
  destruct (decide (is_valid item)) as [Hvalid|Hinvalid].
  - destruct (field item) as [ref_id|] eqn:Hfield.
    + destruct (bool_decide (ref_id ∉ ids_set)) eqn:Hin.
      * apply bool_decide_eq_true in Hin.
        rewrite decide_True by (split; [done | by rewrite Hfield]).
        simpl. f_equal. apply IH.
      * apply bool_decide_eq_false in Hin.
        rewrite decide_False by (intros [_ ?]; by rewrite Hfield in *). apply IH.
    + rewrite decide_False by (intros [_ ?]; by rewrite Hfield in *). apply IH.
  - rewrite decide_False by (intros [? _]; done). apply IH.
Qed.

(** A check that reports nothing changes nothing. *)
Lemma ref_mark_quiet target_name field_name field ids_set (items : list A) :
  ref_msgs target_name field_name field ids_set items = [] →
  ref_mark field ids_set items = items.
Proof.
  intros Hquiet.
  assert (Hnone : filter (broken field ids_set) items = []).
  { apply length_zero_iff_nil. rewrite <- (ref_msgs_length target_name field_name). by rewrite Hquiet. }
  clear Hquiet. unfold ref_mark. induction items as [|item rest IH]; [done|].
  rewrite filter_cons in Hnone. rewrite fmap_cons.
  destruct (decide (broken field ids_set item)); [done|].
  f_equal. by apply IH.
Qed.

(** Right after a check, the same check finds nothing. *)
Lemma ref_msgs_after_mark target_name field_name field ids_set (items : list A) :
  ref_msgs target_name field_name field ids_set (ref_mark field ids_set items) = [].
Proof.
  unfold ref_msgs, ref_mark. induction items as [|item rest IH]; [done|].
  rewrite fmap_cons, omap_cons_eq, IH. unfold ref_msg at 1.
  destruct (decide (broken field ids_set item)) as [Hb|Hb].
  - rewrite decide_False; [done|]. unfold is_valid. rewrite integrity_ok_set. by intros ?.
  - destruct (decide (is_valid item)) as [Hvalid|]; [|done].
    destruct (field item) as [ref_id|] eqn:Hfield; [|done].
    rewrite bool_decide_eq_false_2; [done|].
    intros Hin. apply Hb. split; [done|]. by rewrite Hfield.
Qed.

Lemma ref_mark_flipped field ids_set (items : list A) :
  Forall2 flipped items (ref_mark field ids_set items).
Proof.
  unfold ref_mark. induction items as [|item rest IH]; [constructor|].
  rewrite fmap_cons. constructor; [|done].
  case_decide; [by right | by left].
Qed.
End Stored.

(** ** One reference pass, computed on the lists *)

Lemma grew_iff (r n : list string) :
  negb (length r =? length (r ++ n)) = bool_decide (n ≠ []).
Proof.
  rewrite length_app. destruct n as [|m n]; simpl.
  - rewrite Nat.add_0_r, Nat.eqb_refl. done.
  - destruct (Nat.eqb_spec (length r) (length r + S (length n))); [lia | done].
Qed.

Lemma _check_references_stored (self : RegistryEntities) (e : Entropy) :
  _check_references self e
    = (bool_decide (new_violations self ≠ []), references_pass self, e).
Proof.
  unfold _check_references, _make_ids_set, valid_entries.
  rewrite !get_ids_stored.
  unfold _check_reference, _check_optional_reference. cbn [list_by_entity
    ActionKey_List Package_List TemplateAsset_List TemplateFile_List
    Organization_List Template_List].
  rewrite _check_reference_loop_stored. cbn.
  rewrite !_check_optional_reference_loop_stored. cbn.
  rewrite !_check_reference_loop_stored. cbn.
  rewrite <- (grew_iff (_result self)).
  unfold references_pass, new_violations, packages_msgs, packages_pass, ids_of.
  by rewrite <- !app_assoc.
Qed.

(** ** Counting over the whole snapshot: lemmas *)

Lemma invalid_total_le (self : RegistryEntities) : invalid_total self ≤ total_count self.
Proof.
  unfold invalid_total, total_count.
  pose proof (count_invalid_le (action_keys self)).
  pose proof (count_invalid_le (audit_entries self)).
  pose proof (count_invalid_le (organizations self)).
  pose proof (count_invalid_le (packages self)).
  pose proof (count_invalid_le (templates self)).
  pose proof (count_invalid_le (template_assets self)).
  pose proof (count_invalid_le (template_files self)).
  lia.
Qed.

Section StoredCount.
Context {A : Type} `{EntityLaws A} `{!StoredId A}.

Lemma ref_mark_count target_name field_name field ids_set (items : list A) :
  count_invalid (ref_mark field ids_set items)
    = count_invalid items
      + length (ref_msgs target_name field_name field ids_set items).
Proof.
  pose proof (_check_optional_reference_loop_stored target_name field_name field
                ids_set items [] {| tokens := λ _, ""; drawn := 0 |}) as Hloop.
  apply _check_optional_reference_loop_spec in Hloop as (msgs & Hmsgs & _ & Hcount).
  simpl in Hmsgs. by subst msgs.
Qed.

Lemma ref_mark_length field ids_set (items : list A) :
  length (ref_mark field ids_set items) = length items.
Proof. apply length_fmap. Qed.

Lemma ref_msgs_missing target_name field_name field ids_set (items : list A) :
  Forall (λ m, is_missing_message m = true)
    (ref_msgs target_name field_name field ids_set items).
Proof.
  unfold ref_msgs. induction items as [|item rest IH]; [constructor|].
  rewrite omap_cons_eq. unfold ref_msg at 1.
  destruct (decide (is_valid item)); [|done].
  destruct (field item); [|done].
  destruct (bool_decide _); [|done].
  constructor; [|done].
  unfold is_missing_message, missing_message. simpl. by destruct (_ +:+ _).
Qed.

Lemma uniq_msgs_duplicate unique_set (items : list A) :
  Forall (λ m, is_duplicate_message m = true) (uniq_msgs unique_set items).
Proof.
  revert unique_set. induction items as [|item rest IH]; intros unique_set; [constructor|].
  simpl. destruct (bool_decide _); [|apply IH].
  constructor; [|apply IH].
  unfold is_duplicate_message. simpl. by destruct (_ +:+ _).
Qed.
End StoredCount.

Lemma grows_refl (self : RegistryEntities) : grows self self.
Proof.
  split; try done; try apply flipped_refl.
  exists []. rewrite app_nil_r. simpl. repeat split; [constructor | lia].
Qed.

Lemma grows_trans (s1 s2 s3 : RegistryEntities) : grows s1 s2 → grows s2 s3 → grows s1 s3.
Proof.
  intros [? Ha1 Ho1 ? Ht1 ? ? (m1 & Hr1 & Hm1 & Hc1)] [? Ha2 Ho2 ? Ht2 ? ? (m2 & Hr2 & Hm2 & Hc2)].
  split; try (by eapply flipped_trans); try congruence.
  exists (m1 ++ m2). rewrite Hr2, Hr1, <- app_assoc, length_app.
  repeat split; [by apply Forall_app | lia].
Qed.

Lemma grows_total_count (s1 s2 : RegistryEntities) :
  grows s1 s2 → total_count s2 = total_count s1.
Proof.
  intros [Hk Ha Ho Hp Ht Hta Htf _]. unfold total_count.
  rewrite Ha, Ho, Ht.
  apply flipped_length in Hk, Hp, Hta, Htf. lia.
Qed.

Lemma references_pass_grows (self : RegistryEntities) : grows self (references_pass self).
Proof.
  split; try done; unfold references_pass;
    cbn [action_keys audit_entries organizations packages templates
         template_assets template_files _result];
    try apply ref_mark_flipped.
  - unfold packages_pass.
    eapply flipped_trans; [|apply ref_mark_flipped].
    eapply flipped_trans; [|apply ref_mark_flipped].
    apply ref_mark_flipped.
  - exists (new_violations self). split; [done|]. split.
    + unfold new_violations, packages_msgs.
      repeat (apply Forall_app; split); apply ref_msgs_missing.
    + unfold invalid_total, new_violations, packages_msgs, references_pass, packages_pass.
      cbn [action_keys audit_entries organizations packages templates
           template_assets template_files].
      rewrite !length_app.
      rewrite (ref_mark_count "Organization" "organization_id").
      rewrite (ref_mark_count "Package" "merge_checkpoint_package_id").
      rewrite (ref_mark_count "Package" "fork_of_package_id").
      rewrite (ref_mark_count "Package" "previous_package_id").
      rewrite !(ref_mark_count "Template" "template_id").
      lia.
Qed.

(** A pass that reports nothing leaves the entities as they are. *)
Lemma references_pass_quiet (self : RegistryEntities) :
  new_violations self = [] → references_pass self = self.
Proof.
  unfold new_violations, packages_msgs. intros Hquiet.
  apply app_eq_nil in Hquiet as [Hk Hquiet].
  apply app_eq_nil in Hquiet as [Hp Hquiet].
  apply app_eq_nil in Hquiet as [Hta Htf].
  apply app_eq_nil in Hp as [Hp1 Hp].
  apply app_eq_nil in Hp as [Hp2 Hp3].
  destruct self. unfold references_pass, packages_pass, new_violations, packages_msgs.
  simpl in *.
  repeat match goal with
  | Hq : ref_msgs _ _ ?f ?ids ?l = [] |- _ =>
      rewrite (ref_mark_quiet _ _ f ids l Hq) in *; rewrite Hq; clear Hq
  end.
  by rewrite app_nil_r.
Qed.

(** The messages of a pass do not depend on the messages so far. *)
Lemma new_violations_set_result (r : list string) (self : RegistryEntities) :
  new_violations (set_result r self) = new_violations self.
Proof. done. Qed.

(** ** The uniqueness passes on the whole snapshot *)

Section StoredUniq.
Context {A : Type} `{EntityLaws A} `{!StoredId A}.

Lemma uniq_mark_flipped unique_set (items : list A) :
  Forall2 flipped items (uniq_mark unique_set items).
Proof.
  revert unique_set. induction items as [|item rest IH]; intros unique_set; simpl;
    constructor; [|apply IH].
  destruct (bool_decide _); [by right | by left].
Qed.

Lemma uniq_msgs_count unique_set (items : list A) :
  length (uniq_msgs unique_set items) ≤ count_invalid (uniq_mark unique_set items).
Proof.
  pose proof (_check_uniqueness_loop_stored items unique_set []
                {| tokens := λ _, ""; drawn := 0 |}) as Hloop.
  apply _check_uniqueness_loop_spec in Hloop as (msgs & Hmsgs & _ & Hcount).
  simpl in Hmsgs. by subst msgs.
Qed.
End StoredUniq.

(** The seven scans, with the scan of the audit entries (the one class whose
    identities are drawn at random) left as it is. *)
Lemma check_uniqueness_all_stored (self : RegistryEntities) (e : Entropy) :
  check_uniqueness_all self e =
    let '(audit, result, e) :=
      _check_uniqueness_loop (audit_entries self) ∅
        (_result self ++ uniq_msgs ∅ (action_keys self)) e in
    ({| action_keys := uniq_mark ∅ (action_keys self);
        audit_entries := audit;
        organizations := uniq_mark ∅ (organizations self);
        packages := uniq_mark ∅ (packages self);
        templates := uniq_mark ∅ (templates self);
        template_assets := uniq_mark ∅ (template_assets self);
        template_files := uniq_mark ∅ (template_files self);
        _result :=
          result ++ uniq_msgs ∅ (organizations self) ++ uniq_msgs ∅ (packages self)
          ++ uniq_msgs ∅ (templates self) ++ uniq_msgs ∅ (template_assets self)
          ++ uniq_msgs ∅ (template_files self) |}, e).
Proof.
  unfold check_uniqueness_all, _check_uniqueness.
  rewrite _check_uniqueness_loop_stored.
  cbn [list_by_entity set_list set_result AuditEntry_List ActionKey_List _result
       action_keys audit_entries organizations packages templates template_assets
       template_files].
  destruct (_check_uniqueness_loop (audit_entries self) _ _ e) as [[audit result] e1].
  cbn [list_by_entity set_list set_result Organization_List _result
       action_keys audit_entries organizations packages templates template_assets
       template_files].
  rewrite _check_uniqueness_loop_stored.
  cbn [list_by_entity set_list set_result Package_List _result
       action_keys audit_entries organizations packages templates template_assets
       template_files].
  rewrite _check_uniqueness_loop_stored.
  cbn [list_by_entity set_list set_result Template_List _result
       action_keys audit_entries organizations packages templates template_assets
       template_files].
  rewrite _check_uniqueness_loop_stored.
  cbn [list_by_entity set_list set_result TemplateAsset_List _result
       action_keys audit_entries organizations packages templates template_assets
       template_files].
  rewrite _check_uniqueness_loop_stored.
  cbn [list_by_entity set_list set_result TemplateFile_List _result
       action_keys audit_entries organizations packages templates template_assets
       template_files].
  rewrite _check_uniqueness_loop_stored.
  cbn [list_by_entity set_list set_result _result
       action_keys audit_entries organizations packages templates template_assets
       template_files].
  by rewrite <- !app_assoc.
Qed.

Lemma check_uniqueness_all_scanned (self u : RegistryEntities) (e e' : Entropy) :
  check_uniqueness_all (set_result [] self) e = (u, e') → scanned self u.
Proof.
  rewrite check_uniqueness_all_stored.
  cbn [set_result _result action_keys audit_entries organizations packages
       templates template_assets template_files].
  destruct (_check_uniqueness_loop (audit_entries self) _ _ e)
    as [[audit result] e1] eqn:Haudit.
  intros [= <- <-].
  apply _check_uniqueness_loop_spec in Haudit as (msgs & -> & Hflip & Hcount).
  split; cbn [_result action_keys audit_entries organizations packages
              templates template_assets template_files];
    try apply uniq_mark_flipped; [done|].
  unfold invalid_total.
  cbn [_result action_keys audit_entries organizations packages
       templates template_assets template_files].
  rewrite !length_app. simpl.
  pose proof (uniq_msgs_count ∅ (action_keys self)).
  pose proof (uniq_msgs_count ∅ (organizations self)).
  pose proof (uniq_msgs_count ∅ (packages self)).
  pose proof (uniq_msgs_count ∅ (templates self)).
  pose proof (uniq_msgs_count ∅ (template_assets self)).
  pose proof (uniq_msgs_count ∅ (template_files self)).
  lia.
Qed.

Lemma scanned_total_count (self u : RegistryEntities) :
  scanned self u → total_count u = total_count self.
Proof.
  intros [Hk Ha Ho Hp Ht Hta Htf _]. unfold total_count.
  apply flipped_length in Hk, Ha, Ho, Hp, Ht, Hta, Htf. lia.
Qed.

(** ** The reference loop ends *)

Lemma grows_room (s1 s2 : RegistryEntities) :
  grows s1 s2 →
  ∃ msgs, _result s2 = _result s1 ++ msgs ∧ room s2 + length msgs = room s1.
Proof.
  intros Hgrows. pose proof (grows_total_count _ _ Hgrows) as Htotal.
  destruct Hgrows as [_ _ _ _ _ _ _ (msgs & Hr & _ & Hc)].
  exists msgs. split; [done|]. unfold room.
  pose proof (invalid_total_le s2). lia.
Qed.

Lemma check_again_loop_spec (fuel : nat) (check_again : bool) (i : nat)
    (self : RegistryEntities) (e : Entropy) :
  (check_again = true → room self < fuel) →
  ∃ n self',
    check_again_loop fuel check_again i self e = Some (n, self', e) ∧
    grows self self' ∧
    (check_again = true → new_violations self' = []) ∧
    (check_again = false → self' = self ∧ n = i) ∧
    i ≤ n ∧ n ≤ i + (if check_again then S (room self) else 0).
Proof.
  revert check_again i self.
  induction fuel as [|fuel IH]; intros check_again i self Hfuel.
  - destruct check_again; [specialize (Hfuel eq_refl); lia|].
    exists i, self. simpl. split_and!; try done; [apply grows_refl | lia].
  - destruct check_again.
    + specialize (Hfuel eq_refl). simpl. rewrite _check_references_stored.
      pose proof (references_pass_grows self) as Hpass.
      destruct (grows_room _ _ Hpass) as (msgs & Hresult & Hroom).
      simpl in Hresult. apply app_inv_head in Hresult. subst msgs.
      destruct (IH (bool_decide (new_violations self ≠ [])) (S i) (references_pass self))
        as (n & self' & Hloop & Hgrows & Hquiet & Hstop & Hlow & Hhigh).
      { intros Hagain%bool_decide_eq_true.
        destruct (new_violations self); [done|]. simpl in Hroom. lia. }
      exists n, self'. split; [done|]. split; [by eapply grows_trans|].
      split; [|split; [done|split; [lia|]]].
      * intros _. case_bool_decide as Hagain; [by apply Hquiet|].
        destruct (Hstop eq_refl) as [-> _].
        by rewrite (references_pass_quiet _ Hagain).
      * case_bool_decide as Hagain; [|lia].
        destruct (new_violations self); [done|]. simpl in Hroom. lia.
    + exists i, self. simpl. split_and!; try done; [apply grows_refl | lia].
Qed.

(** ** check_integrity returns *)

(** With fuel for as many iterations as there are records, [check_integrity]
    returns: after the uniqueness passes ([u]) the reference passes only
    flip records, the last pass reports nothing, and there are at most one
    more passes than records. *)
Lemma check_integrity_spec (self : RegistryEntities) (e : Entropy) (k : nat) :
  ∃ n u self' e',
    check_uniqueness_all (set_result [] self) e = (u, e') ∧
    check_integrity (total_count self + k) self e = Some (n, self', e') ∧
    scanned self u ∧ grows u self' ∧ new_violations self' = [] ∧
    1 ≤ n ∧ n ≤ S (total_count self).
Proof.
  unfold check_integrity.
  destruct (check_uniqueness_all (set_result [] self) e) as [u e'] eqn:Huniq.
  pose proof (check_uniqueness_all_scanned _ _ _ _ Huniq) as Hscanned.
  pose proof (scanned_total_count _ _ Hscanned) as Htotal.
  rewrite _check_references_stored.
  pose proof (references_pass_grows u) as Hpass.
  destruct (grows_room _ _ Hpass) as (msgs & Hresult & Hroom).
  simpl in Hresult. apply app_inv_head in Hresult. subst msgs.
  assert (Hle : room u ≤ total_count self) by (unfold room; lia).
  destruct (check_again_loop_spec (total_count self + k)
              (bool_decide (new_violations u ≠ [])) 1 (references_pass u) e')
    as (n & self' & Hloop & Hgrows & Hquiet & Hstop & Hlow & Hhigh).
  { intros Hagain%bool_decide_eq_true.
    destruct (new_violations u); [done|]. simpl in Hroom. lia. }
  exists n, u, self', e'. split_and!; try done.
  - by eapply grows_trans.
  - case_bool_decide as Hagain; [by apply Hquiet|].
    destruct (Hstop eq_refl) as [-> _].
    by rewrite (references_pass_quiet _ Hagain).
  - case_bool_decide as Hagain; [|lia].
    destruct (new_violations u); [done|]. simpl in Hroom. lia.
Qed.

(** More fuel does not change what the loop returns. *)
Lemma check_again_loop_more_fuel (fuel k : nat) (check_again : bool) (i : nat)
    (self : RegistryEntities) (e : Entropy) r :
  check_again_loop fuel check_again i self e = Some r →
  check_again_loop (fuel + k) check_again i self e = Some r.
Proof.
  revert check_again i self e.
  induction fuel as [|fuel IH]; intros check_again i self e; simpl.
  - destruct check_again; [done|]. by destruct k.
  - destruct check_again; [|done].
    destruct (_check_references self e) as [[again self1] e1]. apply IH.
Qed.

Lemma check_integrity_more_fuel (fuel k : nat) (self : RegistryEntities) (e : Entropy) r :
  check_integrity fuel self e = Some r → check_integrity (fuel + k) self e = Some r.
Proof.
  unfold check_integrity.
  destruct (check_uniqueness_all _ e) as [u e1].
  destruct (_check_references u e1) as [[again self1] e2].
  apply check_again_loop_more_fuel.
Qed.

Lemma only_flipped_of_scanned_grows (self u self' : RegistryEntities) :
  scanned self u → grows u self' → only_flipped self self'.
Proof.
  intros [Hk Ha Ho Hp Ht Hta Htf _] [Hk' Ha' Ho' Hp' Ht' Hta' Htf' _].
  split; try (by eapply flipped_trans); congruence.
Qed.

(** C4, as the code has it: the loop of [check_integrity] carries no cap of
    its own. It ends because a pass that reports a violation flips a record,
    so that the number of reference passes is at most the number of records
    plus one; the result is the same whatever fuel beyond the record count
    the embedding is given. *)
Theorem check_integrity_passes_bounded (self : RegistryEntities) (e : Entropy) :
  ∃ n self' e',
    (∀ k, check_integrity (total_count self + k) self e = Some (n, self', e')) ∧
    1 ≤ n ∧ n ≤ total_count self + 1.
Proof.
  destruct (check_integrity_spec self e 0)
    as (n & u & self' & e' & _ & Hrun & _ & _ & _ & Hlow & Hhigh).
  exists n, self', e'. split; [|lia].
  intros k. rewrite Nat.add_0_r in Hrun. by apply check_integrity_more_fuel.
Qed.

(** C4, as stated, fails: on the two packages of [cascade] the loop runs
    three reference passes, one more than there are records. *)
Lemma check_integrity_not_capped :
  ¬ (∀ fuel self e n self' e',
       check_integrity fuel self e = Some (n, self', e') → n ≤ total_count self).
Proof.
  intros Hcap.
  assert (Hrun : ∃ self' e',
    check_integrity 2 cascade sample_entropy = Some (3, self', e')).
  { eexists _, _. vm_compute. reflexivity. }
  destruct Hrun as (self' & e' & Hrun).
  apply Hcap in Hrun. vm_compute in Hrun. lia.
Qed.

(** C9: in one call of [check_integrity] a record is only ever assigned
    False, and the list returned has at most one message per record that is
    False at the end, hence at most as many messages as there are records. *)
Theorem check_integrity_one_message_per_record (self : RegistryEntities) (e : Entropy)
    (k : nat) :
  ∃ n self' e',
    check_integrity (total_count self + k) self e = Some (n, self', e') ∧
    only_flipped self self' ∧
    length (_result self') ≤ invalid_total self' ∧
    invalid_total self' ≤ total_count self.
Proof.
  destruct (check_integrity_spec self e k)
    as (n & u & self' & e' & _ & Hrun & Hscanned & Hgrows & _).
  exists n, self', e'. split; [done|]. split; [by eapply only_flipped_of_scanned_grows|].
  pose proof (scanned_total_count _ _ Hscanned).
  pose proof (grows_total_count _ _ Hgrows).
  pose proof (invalid_total_le self').
  destruct Hscanned as [_ _ _ _ _ _ _ Hlen].
  destruct Hgrows as [_ _ _ _ _ _ _ (msgs & Hresult & _ & Hcount)].
  rewrite Hresult, length_app. lia.
Qed.

(** ** The uniqueness scan in detail *)

Lemma filter_eq_not_elem (m : string) (l : list string) :
  m ∉ l → filter (λ x, x = m) l = [].
Proof.
  induction l as [|x l IH]; [done|].
  intros Hnot. rewrite filter_cons_False by set_solver. apply IH. set_solver.
Qed.

Section UniqDetail.
Context {A : Type} `{EntityLaws A} `{!StoredId A}.

Lemma uniq_mark_app unique_set (l1 l2 : list A) :
  uniq_mark unique_set (l1 ++ l2)
    = uniq_mark unique_set l1
      ++ uniq_mark (list_to_set (id_of <$> l1) ∪ unique_set) l2.
Proof.
  revert unique_set. induction l1 as [|x l1 IH]; intros unique_set; simpl.
  - f_equal. set_solver.
  - f_equal. rewrite IH. do 2 f_equal. set_solver.
Qed.

Lemma uniq_msgs_app unique_set (l1 l2 : list A) :
  uniq_msgs unique_set (l1 ++ l2)
    = uniq_msgs unique_set l1
      ++ uniq_msgs (list_to_set (id_of <$> l1) ∪ unique_set) l2.
Proof.
  revert unique_set. induction l1 as [|x l1 IH]; intros unique_set; simpl.
  - f_equal. set_solver.
  - rewrite <- app_assoc. f_equal. rewrite IH. do 2 f_equal. set_solver.
Qed.

(** A scan only reports identities it has met. *)
Lemma uniq_msgs_other unique_set (l : list A) (u : string) :
  (∀ x, x ∈ l → id_of x ≠ u) →
  ("Duplicate ID for " +:+ __name__ +:+ ": " +:+ u) ∉ uniq_msgs unique_set l.
Proof.
  revert unique_set. induction l as [|x l IH]; intros unique_set Hother; simpl.
  - set_solver.
  - rewrite elem_of_app. intros [Hin|Hin].
    + destruct (bool_decide _); [|set_solver].
      apply list_elem_of_singleton in Hin.
      do 3 apply (inj (String.app _)) in Hin.
      apply (Hother x); [set_solver | done].
    + revert Hin. apply IH. intros y Hy. apply Hother. set_solver.
Qed.
End UniqDetail.

(** C6: in the uniqueness scan of the action keys, when two records share a
    uuid that no other record has, the one met first is left as it is, the
    one met second is assigned False, and the message
    "Duplicate ID for ActionKey: <uuid>" is appended exactly once. *)
Theorem duplicate_action_key_tie_break
    (pre mid post : list ActionKey.t) (k1 k2 : ActionKey.t)
    (self : RegistryEntities) (e : Entropy) :
  action_keys self = pre ++ k1 :: mid ++ k2 :: post →
  ActionKey.uuid k1 = ActionKey.uuid k2 →
  (∀ k, k ∈ pre ++ mid ++ post → ActionKey.uuid k ≠ ActionKey.uuid k1) →
  ∃ pre' mid' post' msgs,
    _check_uniqueness ActionKey.t self e
      = (set_result (_result self ++ msgs)
           (set_list (pre' ++ k1 :: mid' ++ ActionKey.set_integrity_ok false k2 :: post')
              self), e) ∧
    Forall2 flipped pre pre' ∧ Forall2 flipped mid mid' ∧ Forall2 flipped post post' ∧
    length (filter (λ m, m = "Duplicate ID for ActionKey: " +:+ ActionKey.uuid k1) msgs) = 1.
Proof.
  intros Hlist Hsame Hother.
  unfold _check_uniqueness. rewrite _check_uniqueness_loop_stored.
  cbn [list_by_entity ActionKey_List]. rewrite Hlist.
  set (seen1 := list_to_set (id_of <$> pre) ∪ (∅ : gset string)).
  set (seen2 := {[id_of k1]} ∪ seen1).
  set (seen3 := list_to_set (id_of <$> mid) ∪ seen2).
  set (seen4 := {[id_of k2]} ∪ seen3).
  assert (Hfresh : id_of k1 ∉ seen1).
  { unfold seen1. rewrite elem_of_union, elem_of_list_to_set, list_elem_of_fmap.
    intros [(k & Hk & Hin)|?]; [|set_solver].
    apply (Hother k); [set_solver | done]. }
  assert (Hmet : id_of k2 ∈ seen3).
  { unfold seen3, seen2.
    assert (id_of k2 = id_of k1) as -> by (symmetry; exact Hsame). set_solver. }
  exists (uniq_mark ∅ pre), (uniq_mark seen2 mid), (uniq_mark seen4 post),
    (uniq_msgs ∅ pre ++ uniq_msgs seen2 mid
     ++ ["Duplicate ID for ActionKey: " +:+ ActionKey.uuid k2] ++ uniq_msgs seen4 post).
  split; [|split_and!; try apply uniq_mark_flipped].
  - rewrite uniq_mark_app, uniq_msgs_app. fold seen1. simpl.
    rewrite uniq_mark_app, uniq_msgs_app. fold seen2 seen3. simpl. fold seen4.
    rewrite (bool_decide_eq_false_2 _ Hfresh), (bool_decide_eq_true_2 _ Hmet).
    cbn [id_of ActionKey_StoredId ActionKey.get_id __name__ ActionKey_Entity
         set_integrity_ok].
    reflexivity.
  - rewrite Hsame in Hother |- *. rewrite !filter_app, !length_app.
    assert (Hnone : ∀ seen l, (∀ k, k ∈ l → ActionKey.uuid k ≠ ActionKey.uuid k2) →
      length (filter (λ m, m = "Duplicate ID for ActionKey: " +:+ ActionKey.uuid k2)
                (uniq_msgs seen l)) = 0).
    { intros seen l Hl. rewrite filter_eq_not_elem; [done|].
      exact (uniq_msgs_other (A:=ActionKey.t) seen l (ActionKey.uuid k2) Hl). }
    rewrite !Hnone by (intros k Hk; apply Hother; set_solver).
    rewrite filter_cons_True by done. done.
Qed.

Lemma duplicate_action_key_tie_break_witness :
  ∃ pre' mid' post' msgs,
    _check_uniqueness ActionKey.t (set_list [key_1; key_2] no_entities) sample_entropy
      = (set_result (_result (set_list [key_1; key_2] no_entities) ++ msgs)
           (set_list (pre' ++ key_1 :: mid' ++ ActionKey.set_integrity_ok false key_2 :: post')
              (set_list [key_1; key_2] no_entities)), sample_entropy) ∧
    Forall2 flipped [] pre' ∧ Forall2 flipped [] mid' ∧ Forall2 flipped [] post' ∧
    length (filter (λ m, m = "Duplicate ID for ActionKey: " +:+ ActionKey.uuid key_1) msgs) = 1.
Proof.
  apply (duplicate_action_key_tie_break [] [] [] key_1 key_2
           (set_list [key_1; key_2] no_entities) sample_entropy).
  - reflexivity.
  - reflexivity.
  - intros k Hk. simpl in Hk. inversion Hk.
Defined.

(** ** Identities drawn at random *)

Lemma string_app_nil (t : string) : "" +:+ t = t.
Proof. done. Qed.

Lemma string_app_cons (c : Ascii.ascii) (s t : string) :
  String c s +:+ t = String c (s +:+ t).
Proof. done. Qed.

Lemma string_length_app (s t : string) :
  String.length (s +:+ t) = String.length s + String.length t.
Proof.
  induction s as [|c s IH]; [done|].
  rewrite string_app_cons. simpl. by rewrite IH.
Qed.

(** Two strings that end in suffixes of the same length are equal only if
    the suffixes are. *)
Lemma string_app_inj_suffix (s1 s2 t1 t2 : string) :
  String.length t1 = String.length t2 → s1 +:+ t1 = s2 +:+ t2 → t1 = t2.
Proof.
  revert s2. induction s1 as [|c1 s1 IH]; intros [|c2 s2] Hlen Heq;
    rewrite ?string_app_nil, ?string_app_cons in Heq.
  - done.
  - apply (f_equal String.length) in Heq. simpl in Heq.
    rewrite string_length_app in Heq. lia.
  - apply (f_equal String.length) in Heq. simpl in Heq.
    rewrite string_length_app in Heq. lia.
  - injection Heq as _ Heq. by eapply IH.
Qed.

Lemma fresh_inj (e : Entropy) (n i j : nat) :
  fresh e n → drawn e ≤ i < drawn e + n → drawn e ≤ j < drawn e + n →
  tokens e i = tokens e j → i = j.
Proof.
  unfold fresh. intros Hnodup Hi Hj Heq.
  assert (Hlookup : ∀ k, drawn e ≤ k < drawn e + n →
            (tokens e <$> seq (drawn e) n) !! (k - drawn e) = Some (tokens e k)).
  { intros k Hk. rewrite list_lookup_fmap, lookup_seq_lt by lia.
    simpl. do 2 f_equal. lia. }
  pose proof (Hlookup i Hi) as Hli. pose proof (Hlookup j Hj) as Hlj.
  rewrite Heq in Hli.
  pose proof (NoDup_lookup _ _ _ _ Hnodup Hli Hlj). lia.
Qed.

Lemma fresh_le (e : Entropy) (n m : nat) : m ≤ n → fresh e n → fresh e m.
Proof.
  unfold fresh. intros Hle Hnodup.
  replace n with (m + (n - m)) in Hnodup by lia.
  rewrite seq_app, fmap_app in Hnodup. by apply NoDup_app in Hnodup as [? _].
Qed.

(** Identities made from tokens of one length are equal only if the tokens
    are. *)
Lemma audit_id_inj (o1 o2 t1 t2 : string) :
  String.length t1 = String.length t2 →
  o1 +:+ "_" +:+ t1 = o2 +:+ "_" +:+ t2 → t1 = t2.
Proof.
  intros Hlen Heq.
  apply string_app_inj_suffix in Heq; [|by rewrite !string_length_app, Hlen].
  rewrite !string_app_cons, !string_app_nil in Heq. by simplify_eq.
Qed.

(** With tokens of the length of a UUID that do not repeat, a uniqueness
    scan of audit entries finds no identity twice: it changes nothing and
    appends nothing. [unique_set] holds identities made from tokens drawn
    since position [d0]. *)
Lemma audit_uniqueness_loop_fresh (items : list AuditEntry.t) (unique_set : gset string)
    (result : list string) (e : Entropy) (d0 : nat) :
  (∀ i, String.length (tokens e i) = 36) →
  d0 ≤ drawn e →
  NoDup (tokens e <$> seq d0 (drawn e - d0 + length items)) →
  (∀ s, s ∈ unique_set → ∃ o i, d0 ≤ i < drawn e ∧ s = o +:+ "_" +:+ tokens e i) →
  _check_uniqueness_loop items unique_set result e
    = (items, result, after_draws (length items) e).
Proof.
  revert unique_set e.
  induction items as [|item rest IH]; intros unique_set e Hlen Hd0 Hnodup Hseen.
  - simpl. unfold after_draws. rewrite Nat.add_0_r. by destruct e.
  - cbn [_check_uniqueness_loop get_id AuditEntry_Entity AuditEntry.get_id uuid4].
    set (e1 := {| tokens := tokens e; drawn := S (drawn e) |}).
    rewrite bool_decide_eq_false_2.
    + rewrite (IH _ e1); cbn [tokens drawn e1].
      * unfold after_draws. cbn [tokens drawn e1 length]. do 2 f_equal. lia.
      * done.
      * lia.
      * replace (S (drawn e) - d0 + length rest)
          with (drawn e - d0 + length (item :: rest)) by (simpl; lia). done.
      * intros s [->%elem_of_singleton|Hs]%elem_of_union.
        -- exists (AuditEntry.organization_id item), (drawn e). split; [lia|done].
        -- destruct (Hseen s Hs) as (o & i & Hi & ->). exists o, i. split; [lia|done].
    + intros Hin. destruct (Hseen _ Hin) as (o & i & Hi & Heq).
      apply audit_id_inj in Heq; [|by rewrite !Hlen].
      assert (Hfresh : fresh {| tokens := tokens e; drawn := d0 |}
                (drawn e - d0 + length (item :: rest))) by done.
      pose proof (fresh_inj _ _ (drawn e) i Hfresh) as Hinj.
      cbn [tokens drawn length] in Hinj. specialize (Hinj ltac:(lia) ltac:(lia) Heq). lia.
Qed.

(** C10: [AuditEntry.get_id] draws a new token at every call. With tokens of
    the length of a UUID that do not repeat, two calls on one record return
    different identities, and the uniqueness scan of the audit entries
    assigns no marker and appends no message, whatever the organization ids
    are. *)
Theorem audit_entry_ids_never_collide (x : AuditEntry.t) (self : RegistryEntities)
    (e : Entropy) :
  (∀ i, String.length (tokens e i) = 36) →
  fresh e (2 `max` length (audit_entries self)) →
  (get_id x e).2 = after_draws 1 e ∧
  (get_id x e).1 ≠ (get_id x (get_id x e).2).1 ∧
  _check_uniqueness AuditEntry.t self e
    = (self, after_draws (length (audit_entries self)) e).
Proof.
  intros Hlen Hfresh. split; [|split].
  - unfold after_draws. cbn. do 2 f_equal. lia.
  - cbn [get_id AuditEntry_Entity AuditEntry.get_id uuid4 fst snd tokens drawn].
    intros Heq. apply audit_id_inj in Heq; [|by rewrite !Hlen].
    apply (fresh_inj e 2) in Heq; [lia | | lia | lia].
    eapply fresh_le; [|done]. lia.
  - unfold _check_uniqueness. cbn [list_by_entity AuditEntry_List].
    rewrite (audit_uniqueness_loop_fresh _ _ _ _ (drawn e)).
    + by destruct self.
    + done.
    + done.
    + rewrite Nat.sub_diag. simpl. eapply fresh_le; [|done]. lia.
    + set_solver.
Qed.

Lemma audit_entry_ids_never_collide_witness :
  (get_id audit_1 sample_entropy).2 = after_draws 1 sample_entropy ∧
  (get_id audit_1 sample_entropy).1
    ≠ (get_id audit_1 (get_id audit_1 sample_entropy).2).1 ∧
  _check_uniqueness AuditEntry.t (set_list [audit_1; audit_1; audit_1] no_entities)
      sample_entropy
    = (set_list [audit_1; audit_1; audit_1] no_entities,
       after_draws
         (length (audit_entries (set_list [audit_1; audit_1; audit_1] no_entities)))
         sample_entropy).
Proof.
  apply (audit_entry_ids_never_collide audit_1
           (set_list [audit_1; audit_1; audit_1] no_entities) sample_entropy).
  - intros i. reflexivity.
  - unfold fresh. vm_compute. repeat constructor; set_solver.
Defined.

(** ** Calling check_integrity again *)

Section UniqStable.
Context {A : Type} `{EntityLaws A} `{!StoredId A}.

(** Scanning again a list that was scanned, and whose records were at most
    flipped since, changes nothing and repeats the messages. *)
Lemma uniq_mark_stable unique_set (l l1 : list A) :
  Forall2 flipped (uniq_mark unique_set l) l1 →
  uniq_mark unique_set l1 = l1 ∧ uniq_msgs unique_set l1 = uniq_msgs unique_set l.
Proof.
  revert unique_set l1. induction l as [|x l IH]; intros unique_set l1 Hflip.
  - by inversion Hflip.
  - simpl in Hflip. inversion Hflip as [|x' y l' l1' Hxy Hrest]; subst. simpl.
    assert (Hid : id_of y = id_of x).
    { rewrite (flipped_id_of _ _ Hxy). destruct (bool_decide _); [apply id_of_set | done]. }
    rewrite Hid. destruct (IH _ _ Hrest) as [-> ->]. split; [|done]. f_equal.
    destruct (bool_decide (id_of x ∈ unique_set)); [|done].
    rewrite (flipped_invalid _ _ Hxy) by apply integrity_ok_set.
    apply set_integrity_ok_twice.
Qed.
End UniqStable.

Lemma fresh_after (e : Entropy) (n m : nat) :
  fresh e (n + m) → fresh (after_draws n e) m.
Proof.
  unfold fresh, after_draws. cbn [tokens drawn].
  rewrite seq_app, fmap_app. by intros [_ [_ ?]]%NoDup_app.
Qed.

(** With tokens that do not repeat, the uniqueness passes as list functions. *)
Lemma check_uniqueness_all_fresh (self : RegistryEntities) (e : Entropy) :
  (∀ i, String.length (tokens e i) = 36) →
  fresh e (length (audit_entries self)) →
  check_uniqueness_all self e =
    ({| action_keys := uniq_mark ∅ (action_keys self);
        audit_entries := audit_entries self;
        organizations := uniq_mark ∅ (organizations self);
        packages := uniq_mark ∅ (packages self);
        templates := uniq_mark ∅ (templates self);
        template_assets := uniq_mark ∅ (template_assets self);
        template_files := uniq_mark ∅ (template_files self);
        _result := _result self ++ duplicate_violations self |},
     after_draws (length (audit_entries self)) e).
Proof.
  intros Hlen Hfresh. rewrite check_uniqueness_all_stored.
  rewrite (audit_uniqueness_loop_fresh _ _ _ _ (drawn e)); [| done | done | | set_solver].
  - unfold duplicate_violations. by rewrite <- !app_assoc.
  - by rewrite Nat.sub_diag.
Qed.

Lemma duplicate_violations_duplicate (self : RegistryEntities) :
  Forall (λ m, is_duplicate_message m = true) (duplicate_violations self).
Proof.
  unfold duplicate_violations. repeat (apply Forall_app; split);
    apply uniq_msgs_duplicate.
Qed.

Lemma missing_not_duplicate (m : string) :
  is_missing_message m = true → is_duplicate_message m = false.
Proof.
  unfold is_missing_message, is_duplicate_message.
  destruct m as [|c m]; [done|].
  destruct c as [[] [] [] [] [] [] [] []]; done.
Qed.

Lemma filter_duplicate_messages (dups missing : list string) :
  Forall (λ m, is_duplicate_message m = true) dups →
  Forall (λ m, is_missing_message m = true) missing →
  filter (λ m, is_duplicate_message m = true) (dups ++ missing) = dups.
Proof.
  intros Hdups Hmissing. rewrite filter_app.
  replace (filter _ missing) with (@nil string).
  - rewrite app_nil_r. induction Hdups as [|m dups Hm _ IH]; [done|].
    rewrite filter_cons_True by done. by rewrite IH.
  - induction Hmissing as [|m missing Hm _ IH]; [done|].
    rewrite filter_cons_False; [done|]. by rewrite (missing_not_duplicate _ Hm).
Qed.

(** C3, as the code has it: of the messages of a first call, a second call
    returns the "Duplicate ID" ones only. The records the first call flipped
    stay False and are skipped by the reference checks of the second call,
    which runs a single reference pass and changes no record. (The tokens
    the generator hands out to the audit entries are taken not to repeat.) *)
Theorem check_integrity_twice (self : RegistryEntities) (e : Entropy) (k : nat) :
  (∀ i, String.length (tokens e i) = 36) →
  fresh e (length (audit_entries self) + length (audit_entries self)) →
  ∃ n1 self1 e1 self2 e2,
    check_integrity (total_count self + k) self e = Some (n1, self1, e1) ∧
    check_integrity (total_count self + k) self1 e1 = Some (1, self2, e2) ∧
    self2 = set_result (_result self2) self1 ∧
    _result self2 = filter (λ m, is_duplicate_message m = true) (_result self1).
Proof.
  intros Hlen Hfresh.
  destruct (check_integrity_spec self e k)
    as (n1 & u & self1 & e1 & Huniq & Hrun & _ & Hgrows & Hquiet & _).
  rewrite check_uniqueness_all_fresh in Huniq;
    [| done | by eapply fresh_le; [|done]; cbn; lia].
  cbn [set_result _result action_keys audit_entries organizations packages
       templates template_assets template_files] in Huniq.
  injection Huniq as Hu He1.
  fold (duplicate_violations (set_result [] self)) in Hu.
  set (dups := duplicate_violations self).
  assert (Hdups : _result u = dups) by (by subst u).
  destruct Hgrows as [Hk Ha Ho Hp Ht Hta Htf (missing & Hresult & Hmissing & _)].
  assert (Hsecond : check_uniqueness_all (set_result [] self1) e1
            = (set_result dups self1,
               after_draws (length (audit_entries self)) e1)).
  { rewrite check_uniqueness_all_fresh.
    - cbn [set_result _result action_keys audit_entries organizations packages
           templates template_assets template_files].
      rewrite Ha, Ho, Ht. subst u.
      cbn [action_keys audit_entries organizations packages templates
           template_assets template_files] in *.
      destruct (uniq_mark_stable _ _ _ Hk) as [Hk1 Hk2].
      destruct (uniq_mark_stable _ _ _ Hp) as [Hp1 Hp2].
      destruct (uniq_mark_stable _ _ _ Hta) as [Hta1 Hta2].
      destruct (uniq_mark_stable _ _ _ Htf) as [Htf1 Htf2].
      destruct (uniq_mark_stable ∅ (organizations self) _ (flipped_refl _)) as [Ho1 Ho2].
      destruct (uniq_mark_stable ∅ (templates self) _ (flipped_refl _)) as [Ht1 Ht2].
      unfold duplicate_violations.
      cbn [set_result _result action_keys audit_entries organizations packages
           templates template_assets template_files].
      rewrite Ho, Ht, Hk1, Hk2, Hp1, Hp2, Hta1, Hta2, Htf1, Htf2, Ho1, Ho2, Ht1, Ht2.
      destruct self1. cbn in *. by subst.
    - by subst e1.
    - cbn [set_result audit_entries]. rewrite Ha. subst u e1. cbn [audit_entries].
      by apply fresh_after. }
  exists n1, self1, e1, (set_result dups self1),
    (after_draws (length (audit_entries self)) e1).
  split; [done|]. split; [|split].
  - unfold check_integrity. rewrite Hsecond, _check_references_stored.
    rewrite new_violations_set_result, Hquiet.
    rewrite references_pass_quiet by (by rewrite new_violations_set_result).
    rewrite bool_decide_eq_false_2 by (by intros ?).
    by destruct (total_count self + k).
  - by destruct self1.
  - cbn [set_result _result]. rewrite Hresult, Hdups.
    symmetry. apply filter_duplicate_messages; [|done].
    apply duplicate_violations_duplicate.
Qed.

(** C3, as stated, fails: for an action key of an organization that does not
    exist, the first call returns the "Missing Organization" message and the
    second call returns the empty list. The lists are compared as each call
    hands them back; both calls hand back the one list object
    [self._result], so a caller that kept the first list without copying it
    finds it emptied by the second call. *)
Lemma check_integrity_not_idempotent :
  ¬ (∀ fuel self e n1 self1 e1 n2 self2 e2,
       check_integrity fuel self e = Some (n1, self1, e1) →
       check_integrity fuel self1 e1 = Some (n2, self2, e2) →
       _result self2 = _result self1).
Proof.
  intros Hsame.
  assert (Hfirst : ∃ self1,
    check_integrity 1 orphan sample_entropy = Some (2, self1, sample_entropy) ∧
    _result self1 = ["Missing Organization (organization_id=org) for ActionKey: u1"] ∧
    ∃ self2, check_integrity 1 self1 sample_entropy = Some (1, self2, sample_entropy) ∧
             _result self2 = []).
  { eexists. split; [vm_compute; reflexivity|]. split; [reflexivity|].
    eexists. split; [vm_compute; reflexivity|]. reflexivity. }
  destruct Hfirst as (self1 & Hrun1 & Hresult1 & self2 & Hrun2 & Hresult2).
  specialize (Hsame _ _ _ _ _ _ _ _ _ Hrun1 Hrun2).
  rewrite Hresult1, Hresult2 in Hsame. discriminate.
Qed.

Lemma check_integrity_twice_witness :
  ∃ n1 self1 e1 self2 e2,
    check_integrity (total_count twice_sample + 0) twice_sample sample_entropy
      = Some (n1, self1, e1) ∧
    check_integrity (total_count twice_sample + 0) self1 e1 = Some (1, self2, e2) ∧
    self2 = set_result (_result self2) self1 ∧
    _result self2 = filter (λ m, is_duplicate_message m = true) (_result self1).
Proof.
  apply (check_integrity_twice twice_sample sample_entropy 0).
  - intros i. reflexivity.
  - unfold fresh. vm_compute. repeat constructor; set_solver.
Defined.

(** ** The cascade *)

Section RefSteps.
Context {A : Type} `{EntityLaws A} `{!StoredId A}.

Lemma ref_mark_cons_broken field ids_set (x : A) (l : list A) :
  broken field ids_set x →
  ref_mark field ids_set (x :: l) = set_integrity_ok false x :: ref_mark field ids_set l.
Proof. intros Hb. unfold ref_mark. rewrite fmap_cons. by rewrite decide_True. Qed.

Lemma ref_mark_cons_kept field ids_set (x : A) (l : list A) :
  ¬ broken field ids_set x →
  ref_mark field ids_set (x :: l) = x :: ref_mark field ids_set l.
Proof. intros Hb. unfold ref_mark. rewrite fmap_cons. by rewrite decide_False. Qed.

Lemma ref_msgs_cons_broken target_name field_name field ids_set (x : A) (l : list A)
    (ref_id : string) :
  is_valid x → field x = Some ref_id → ref_id ∉ ids_set →
  ref_msgs target_name field_name field ids_set (x :: l)
    = missing_message target_name field_name ref_id (id_of x)
      :: ref_msgs target_name field_name field ids_set l.
Proof.
  intros Hvalid Hfield Hnot. unfold ref_msgs. rewrite omap_cons_eq. unfold ref_msg at 1.
  rewrite decide_True by done. rewrite Hfield. by rewrite bool_decide_eq_true_2.
Qed.

Lemma ref_msgs_cons_kept target_name field_name field ids_set (x : A) (l : list A) :
  ¬ broken field ids_set x →
  ref_msgs target_name field_name field ids_set (x :: l)
    = ref_msgs target_name field_name field ids_set l.
Proof.
  intros Hb. unfold ref_msgs. rewrite omap_cons_eq. unfold ref_msg at 1.
  destruct (decide (is_valid x)) as [Hvalid|]; [|done].
  destruct (field x) as [ref_id|] eqn:Hfield; [|done].
  rewrite bool_decide_eq_false_2; [done|].
  intros Hnot. apply Hb. split; [done|]. by rewrite Hfield.
Qed.
End RefSteps.

(** After one reference pass only the packages can still change: the
    organizations and templates are never flipped by a pass, so the records
    that refer to them are settled by the first one. *)
Lemma references_pass_settles (self : RegistryEntities) :
  let self1 := references_pass self in
  new_violations self1 = packages_msgs (ids_of (packages self1)) (packages self1) ∧
  action_keys (references_pass self1) = action_keys self1 ∧
  template_assets (references_pass self1) = template_assets self1 ∧
  template_files (references_pass self1) = template_files self1.
Proof.
  unfold references_pass, new_violations.
  cbn [action_keys audit_entries organizations packages templates template_assets
       template_files].
  rewrite !ref_msgs_after_mark. rewrite app_nil_r. split; [done|].
  split_and!; apply (ref_mark_quiet "" ""), ref_msgs_after_mark.
Qed.

Section Cascade.
Context (a b c : string) (fork_of merge_checkpoint : option string).
Context (Hab : a ≠ b) (Hca : c ≠ a) (Hcb : c ≠ b).

Let pA := forked a b.
Let pB := dangling b c fork_of merge_checkpoint.
Let flip := set_integrity_ok (A:=Package.t) false.

Local Ltac settle :=
  unfold broken, is_valid, ids_of; cbn; set_solver.

Lemma cascade_ids_0 : ids_of [pA; pB] = {[a; b]}.
Proof. unfold ids_of. cbn. set_solver. Qed.

Lemma cascade_ids_1 : ids_of [pA; flip pB] = {[a]}.
Proof. unfold ids_of. cbn. set_solver. Qed.

Lemma cascade_ids_2 : ids_of [flip pA; flip pB] = ∅.
Proof. unfold ids_of. cbn. set_solver. Qed.

(** First pass: B names a package that is not there and is flipped; A is
    judged against the identities collected before, which hold B. *)
Lemma cascade_pass_1 :
  packages_pass (ids_of [pA; pB]) [pA; pB] = [pA; flip pB] ∧
  packages_msgs (ids_of [pA; pB]) [pA; pB]
    = [missing_message (A:=Package.t) "Package" "previous_package_id" c b].
Proof.
  rewrite cascade_ids_0. unfold packages_pass, packages_msgs.
  rewrite (ref_mark_cons_kept Package.previous_package_id _ pA) by settle.
  rewrite (ref_mark_cons_broken Package.previous_package_id _ pB) by settle.
  rewrite (ref_msgs_cons_kept _ _ Package.previous_package_id _ pA) by settle.
  rewrite (ref_msgs_cons_broken _ _ Package.previous_package_id _ pB _ c)
    by (done || settle).
  rewrite (ref_mark_cons_kept Package.fork_of_package_id _ pA) by settle.
  rewrite (ref_mark_cons_kept Package.fork_of_package_id _ (set_integrity_ok false pB))
    by settle.
  rewrite (ref_msgs_cons_kept _ _ Package.fork_of_package_id _ pA) by settle.
  rewrite (ref_msgs_cons_kept _ _ Package.fork_of_package_id _ (set_integrity_ok false pB))
    by settle.
  rewrite (ref_mark_cons_kept Package.merge_checkpoint_package_id _ pA) by settle.
  rewrite (ref_mark_cons_kept Package.merge_checkpoint_package_id _
             (set_integrity_ok false pB)) by settle.
  rewrite (ref_msgs_cons_kept _ _ Package.merge_checkpoint_package_id _ pA) by settle.
  rewrite (ref_msgs_cons_kept _ _ Package.merge_checkpoint_package_id _
             (set_integrity_ok false pB)) by settle.
  done.
Qed.

(** Second pass: B is no longer among the identities, A is flipped. *)
Lemma cascade_pass_2 :
  packages_pass (ids_of [pA; flip pB]) [pA; flip pB] = [flip pA; flip pB] ∧
  packages_msgs (ids_of [pA; flip pB]) [pA; flip pB]
    = [missing_message (A:=Package.t) "Package" "fork_of_package_id" b a].
Proof.
  rewrite cascade_ids_1. unfold packages_pass, packages_msgs.
  rewrite (ref_mark_cons_kept Package.previous_package_id _ pA) by settle.
  rewrite (ref_mark_cons_kept Package.previous_package_id _ (flip pB)) by settle.
  rewrite (ref_msgs_cons_kept _ _ Package.previous_package_id _ pA) by settle.
  rewrite (ref_msgs_cons_kept _ _ Package.previous_package_id _ (flip pB)) by settle.
  rewrite (ref_mark_cons_broken Package.fork_of_package_id _ pA) by settle.
  rewrite (ref_mark_cons_kept Package.fork_of_package_id _ (flip pB)) by settle.
  rewrite (ref_msgs_cons_broken _ _ Package.fork_of_package_id _ pA _ b)
    by (done || settle).
  rewrite (ref_msgs_cons_kept _ _ Package.fork_of_package_id _ (flip pB)) by settle.
  rewrite (ref_mark_cons_kept Package.merge_checkpoint_package_id _
             (set_integrity_ok false pA)) by settle.
  rewrite (ref_mark_cons_kept Package.merge_checkpoint_package_id _ (flip pB)) by settle.
  rewrite (ref_msgs_cons_kept _ _ Package.merge_checkpoint_package_id _
             (set_integrity_ok false pA)) by settle.
  rewrite (ref_msgs_cons_kept _ _ Package.merge_checkpoint_package_id _ (flip pB))
    by settle.
  done.
Qed.

(** Third pass: both are False and are skipped. *)
Lemma cascade_pass_3 :
  packages_msgs (ids_of [flip pA; flip pB]) [flip pA; flip pB] = [].
Proof.
  rewrite cascade_ids_2. unfold packages_msgs.
  rewrite (ref_mark_cons_kept Package.previous_package_id _ (flip pA)) by settle.
  rewrite (ref_mark_cons_kept Package.previous_package_id _ (flip pB)) by settle.
  rewrite (ref_msgs_cons_kept _ _ Package.previous_package_id _ (flip pA)) by settle.
  rewrite (ref_msgs_cons_kept _ _ Package.previous_package_id _ (flip pB)) by settle.
  rewrite (ref_mark_cons_kept Package.fork_of_package_id _ (flip pA)) by settle.
  rewrite (ref_mark_cons_kept Package.fork_of_package_id _ (flip pB)) by settle.
  rewrite (ref_msgs_cons_kept _ _ Package.fork_of_package_id _ (flip pA)) by settle.
  rewrite (ref_msgs_cons_kept _ _ Package.fork_of_package_id _ (flip pB)) by settle.
  rewrite (ref_msgs_cons_kept _ _ Package.merge_checkpoint_package_id _ (flip pA))
    by settle.
  rewrite (ref_msgs_cons_kept _ _ Package.merge_checkpoint_package_id _ (flip pB))
    by settle.
  done.
Qed.
End Cascade.

(** C1: package B names a previous package that does not exist, package A
    is a fork of B (whatever the other collections hold). The first
    reference pass flips B and leaves A as it is; the second flips A; the
    third reports nothing and ends the loop, so that the fixed point is
    reached by exactly two passes. Both "Missing Package" messages are in the
    list returned. *)
Theorem cascading_invalidation (a b c : string) (fork_of merge_checkpoint : option string)
    (self : RegistryEntities) (e : Entropy) (k : nat) :
  a ≠ b → c ≠ a → c ≠ b →
  packages self = [forked a b; dangling b c fork_of merge_checkpoint] →
  let pA := forked a b in
  let pB := dangling b c fork_of merge_checkpoint in
  let msgB := "Missing Package (previous_package_id=" +:+ c +:+ ") for Package: " +:+ b in
  let msgA := "Missing Package (fork_of_package_id=" +:+ b +:+ ") for Package: " +:+ a in
  ∃ u e' self1 self2,
    check_uniqueness_all (set_result [] self) e = (u, e') ∧
    packages u = [pA; pB] ∧
    _check_references u e' = (true, self1, e') ∧
    packages self1 = [pA; Package.set_integrity_ok false pB] ∧
    msgB ∈ _result self1 ∧
    _check_references self1 e' = (true, self2, e') ∧
    packages self2 = [Package.set_integrity_ok false pA; Package.set_integrity_ok false pB] ∧
    _result self2 = _result self1 ++ [msgA] ∧
    _check_references self2 e' = (false, self2, e') ∧
    check_integrity (2 + k) self e = Some (3, self2, e').
Proof.
  intros Hab Hca Hcb Hpackages pA pB msgB msgA.
  destruct (check_uniqueness_all (set_result [] self) e) as [u e'] eqn:Huniq.
  assert (Hu : packages u = [pA; pB]).
  { rewrite check_uniqueness_all_stored in Huniq.
    destruct (_check_uniqueness_loop (audit_entries _) _ _ e) as [[audit result] e1].
    injection Huniq as <- _. cbn [packages set_result]. rewrite Hpackages.
    cbn [uniq_mark id_of Package_StoredId Package.get_id Package.id forked dangling].
    rewrite !bool_decide_eq_false_2 by set_solver. done. }
  destruct (cascade_pass_1 a b c fork_of merge_checkpoint Hab Hca Hcb) as [Hp1 Hm1].
  destruct (cascade_pass_2 a b c fork_of merge_checkpoint Hab Hca Hcb) as [Hp2 Hm2].
  pose proof (cascade_pass_3 a b c fork_of merge_checkpoint Hab Hca Hcb) as Hm3.
  fold pA pB in Hp1, Hm1, Hp2, Hm2, Hm3.
  set (self1 := references_pass u).
  set (self2 := references_pass self1).
  assert (Hs1 : packages self1 = [pA; set_integrity_ok false pB]).
  { unfold self1, references_pass. cbn [packages]. by rewrite Hu, Hp1. }
  assert (Hn0 : msgB ∈ new_violations u).
  { unfold new_violations. rewrite Hu, Hm1. set_solver. }
  destruct (references_pass_settles u) as (Hn1 & _). fold self1 in Hn1.
  rewrite Hs1, Hm2 in Hn1.
  assert (Hs2 : packages self2 = [set_integrity_ok false pA; set_integrity_ok false pB]).
  { unfold self2, references_pass. cbn [packages]. by rewrite Hs1, Hp2. }
  destruct (references_pass_settles self1) as (Hn2 & _). fold self2 in Hn2.
  rewrite Hs2, Hm3 in Hn2.
  assert (Hr1 : _check_references u e' = (true, self1, e')).
  { rewrite _check_references_stored. rewrite bool_decide_eq_true_2; [done|].
    intros Hnil. rewrite Hnil in Hn0. set_solver. }
  assert (Hr2 : _check_references self1 e' = (true, self2, e')).
  { rewrite _check_references_stored. rewrite bool_decide_eq_true_2; [done|].
    by rewrite Hn1. }
  assert (Hr3 : _check_references self2 e' = (false, self2, e')).
  { rewrite _check_references_stored. rewrite bool_decide_eq_false_2 by (by intros ?).
    by rewrite references_pass_quiet. }
  exists u, e', self1, self2. split_and!; try done; try exact Hs1; try exact Hs2.
  - unfold self1, references_pass. cbn [_result]. set_solver.
  - unfold self2 at 1, references_pass. cbn [_result]. by rewrite Hn1.
  - unfold check_integrity. rewrite Huniq, Hr1.
    change (2 + k) with (S (S k)). cbn [check_again_loop]. rewrite Hr2.
    cbn [check_again_loop]. rewrite Hr3. by destruct k.
Qed.

Lemma cascading_invalidation_witness :
  ∃ u e' self1 self2,
    check_uniqueness_all (set_result [] cascade) sample_entropy = (u, e') ∧
    packages u = [forked "A" "B"; dangling "B" "C" None None] ∧
    _check_references u e' = (true, self1, e') ∧
    packages self1
      = [forked "A" "B"; Package.set_integrity_ok false (dangling "B" "C" None None)] ∧
    "Missing Package (previous_package_id=C) for Package: B" ∈ _result self1 ∧
    _check_references self1 e' = (true, self2, e') ∧
    packages self2
      = [Package.set_integrity_ok false (forked "A" "B");
         Package.set_integrity_ok false (dangling "B" "C" None None)] ∧
    _result self2
      = _result self1 ++ ["Missing Package (fork_of_package_id=B) for Package: A"] ∧
    _check_references self2 e' = (false, self2, e') ∧
    check_integrity (2 + 0) cascade sample_entropy = Some (3, self2, e').
Proof.
  apply (cascading_invalidation "A" "B" "C" None None cascade sample_entropy 0).
  - done.
  - done.
  - done.
  - reflexivity.
Defined.

(** ** Reasoning about runs *)

Section RunRules.
Context {A B : Type} (I : World → Prop).

Lemma keeps_ret (a : A) : keeps I (mret a : Run A).
Proof. by intros w Hw. Qed.

Lemma keeps_bind (c : Run A) (k : A → Run B) :
  keeps I c → (∀ a, keeps I (k a)) → keeps I (c ≫= k).
Proof.
  intros Hc Hk w Hw. specialize (Hc w Hw).
  unfold mbind, Run_bind. destruct (c w) as [[a| | |] w1]; simpl in *; try done.
  by apply Hk.
Qed.

Lemma keeps_log (ev : Event) : admits I ev → keeps I (log ev).
Proof. intros Hev w Hw. by apply Hev. Qed.

Lemma keeps_critical (cause : string) : keeps I (critical cause).
Proof. by intros w Hw. Qed.

Lemma keeps_error (cause : string) : keeps I (error cause).
Proof. by intros w Hw. Qed.

Lemma keeps_get_entities (E : RegistryEntities) (k : RegistryEntities → Run B) :
  (∀ w, I w → entities w = E) → keeps I (k E) → keeps I (get_entities ≫= k).
Proof.
  intros HE Hk w Hw. unfold mbind, Run_bind, get_entities.
  rewrite (HE w Hw). by apply Hk.
Qed.
End RunRules.

Section RunRulesUnit.
Context (env : Env) (options : MigrationOptions) (I : World → Prop).

Lemma keeps_call (ev : Event) : admits I ev → keeps I (call env ev).
Proof.
  intros Hev w Hw. unfold call. destruct (raises env _); by apply Hev.
Qed.

Lemma keeps_try_except (body handler : Run unit) :
  keeps I body → keeps I handler → keeps I (try_except body handler).
Proof.
  intros Hbody Hhandler w Hw. specialize (Hbody w Hw). unfold try_except.
  destruct (body w) as [[[]| | |] w1]; simpl in *; try done. by apply Hhandler.
Qed.

Lemma keeps_for_each {X : Type} (l : list X) (body : X → Run unit) :
  (∀ x, x ∈ l → keeps I (body x)) → keeps I (for_each l body).
Proof.
  induction l as [|x l IH]; intros Hbody; simpl.
  - apply keeps_ret.
  - apply keeps_bind; [apply Hbody; set_solver|].
    intros _. apply IH. intros y Hy. apply Hbody. set_solver.
Qed.

Lemma keeps_unless_dry_run (c : Run unit) :
  (dry_run options = false → keeps I c) → keeps I (unless_dry_run options c).
Proof.
  intros Hc. unfold unless_dry_run. destruct (dry_run options); simpl.
  - apply keeps_ret.
  - by apply Hc.
Qed.
End RunRulesUnit.

Lemma since_admits (t0 : list Event) (Q : Event → Prop) (ev : Event) :
  Q ev → admits (since t0 Q) ev.
Proof.
  intros Hev w (evs & Htrace & Hall). exists (evs ++ [ev]). simpl.
  rewrite Htrace, <- app_assoc. split; [done|]. apply Forall_app. by split; [|constructor].
Qed.

Lemma since_trace_only (t0 : list Event) (Q : Event → Prop) : trace_only (since t0 Q).
Proof. by intros w E en (evs & Htrace & Hall); exists evs. Qed.

Lemma since_refl (w : World) (Q : Event → Prop) : since (trace w) Q w.
Proof. exists []. by rewrite app_nil_r. Qed.

Lemma since_impl (t0 : list Event) (Q Q' : Event → Prop) (w : World) :
  (∀ ev, Q ev → Q' ev) → since t0 Q w → since t0 Q' w.
Proof.
  intros Himpl (evs & Htrace & Hall). exists evs. split; [done|].
  by eapply Forall_impl.
Qed.

(** ** What the phases can emit *)

Section PhaseEvents.
Context (env : Env) (options : MigrationOptions) (I : World → Prop).

Local Ltac run_step :=
  first
    [ apply keeps_bind; [|intros ?]
    | apply keeps_call
    | apply keeps_log
    | apply keeps_ret
    | apply keeps_critical
    | apply keeps_error
    | apply keeps_try_except
    | apply keeps_unless_dry_run; intros ? ].

Lemma cleanup_postgres_keeps :
  (∀ ev, before_insert_event options ev → admits I ev) →
  keeps I (cleanup_postgres env options).
Proof.
  intros Hev. unfold cleanup_postgres.
  repeat run_step; by apply Hev.
Qed.

Lemma cleanup_s3_keeps :
  (∀ ev, before_insert_event options ev → admits I ev) →
  keeps I (cleanup_s3 env options).
Proof.
  intros Hev. unfold cleanup_s3. run_step; [by apply keeps_call, Hev|].
  destruct (bucket_exists env).
  - run_step; [by apply keeps_call, Hev|].
    case_decide; repeat run_step. by apply Hev.
  - repeat run_step. by apply Hev.
Qed.

Lemma set_loaded_keeps (entity : EntityClass) :
  trace_only I → keeps I (set_loaded env entity).
Proof. intros Htrace w Hw. unfold set_loaded. simpl. by apply Htrace. Qed.

Lemma load_keeps :
  trace_only I →
  (∀ ev, before_insert_event options ev → admits I ev) →
  keeps I (load env).
Proof.
  intros Htrace Hev. unfold load.
  run_step; [by apply keeps_call, Hev|].
  run_step.
  - apply keeps_for_each. intros entity _.
    run_step; [by apply keeps_call, Hev | by apply set_loaded_keeps].
  - apply keeps_for_each. intros [[entity parent] field] _.
    run_step; [by apply keeps_call, Hev | by apply set_loaded_keeps].
Qed.

Lemma migrator_check_integrity_keeps (fuel : nat) :
  trace_only I →
  (∀ ev, before_insert_event options ev → admits I ev) →
  keeps I (migrator_check_integrity options fuel).
Proof.
  intros Htrace Hev. unfold migrator_check_integrity.
  apply keeps_bind.
  - intros w Hw. unfold entities_check_integrity.
    destruct (check_integrity fuel _ _) as [[[n self] e]|]; simpl; [|done].
    by apply Htrace.
  - intros issues. run_step.
    + apply keeps_for_each. intros issue _. by apply keeps_log, Hev.
    + destruct (_ && _); repeat run_step.
Qed.

Lemma _run_insert_keeps (E : RegistryEntities) (entity : EntityClass)
    (disable_triggers : bool) :
  (∀ w, I w → entities w = E) →
  (∀ ev, insert_event env options E ev → admits I ev) →
  keeps I (_run_insert env entity disable_triggers).
Proof.
  intros HE Hev. unfold _run_insert.
  apply (keeps_get_entities I E); [done|].
  destruct disable_triggers; repeat run_step; by apply Hev.
Qed.

Lemma insert_keeps (E : RegistryEntities) :
  (∀ w, I w → entities w = E) →
  (∀ ev, insert_event env options E ev → admits I ev) →
  keeps I (insert env options).
Proof.
  intros HE Hev. unfold insert. run_step.
  - apply keeps_for_each. intros [entity disable_triggers] _.
    by apply (_run_insert_keeps E).
  - repeat run_step. by apply Hev.
Qed.

Lemma migrate_template_assets_loop_keeps (E : RegistryEntities)
    (assets : list TemplateAsset.t) (counter skipped : nat) :
  (∀ asset, asset ∈ assets → asset ∈ template_assets E ∧ integrity_ok asset ≠ false) →
  (∀ ev, insert_event env options E ev → admits I ev) →
  keeps I (migrate_template_assets_loop env options assets counter skipped).
Proof.
  intros Hassets Hev. revert counter skipped.
  induction assets as [|asset rest IH]; intros counter skipped; simpl.
  - apply keeps_ret.
  - run_step; [by apply keeps_call, Hev|].
    assert (Hrest : ∀ x, x ∈ rest → x ∈ template_assets E ∧ integrity_ok x ≠ false).
    { intros x Hx. apply Hassets. set_solver. }
    destruct (fetch_asset env _) as [data|] eqn:Hdata.
    + run_step; [|by apply IH].
      run_step. apply keeps_call, Hev. simpl. split; [done|].
      exists asset. destruct (Hassets asset) as [? ?]; [set_solver|]. done.
    + run_step; [by apply keeps_log, Hev | by apply IH].
Qed.

Lemma migrate_template_assets_keeps (E : RegistryEntities) :
  (∀ w, I w → entities w = E) →
  (∀ ev, insert_event env options E ev → admits I ev) →
  keeps I (migrate_template_assets env options).
Proof.
  intros HE Hev. unfold migrate_template_assets.
  apply (keeps_get_entities I E); [done|].
  run_step; [by apply keeps_log, Hev|].
  apply keeps_bind.
  - apply (migrate_template_assets_loop_keeps E); [|done].
    intros asset Hasset. unfold valid_entries in Hasset.
    by apply list_elem_of_filter in Hasset as [? ?].
  - intros [counter skipped]. by apply keeps_log, Hev.
Qed.
End PhaseEvents.

(** ** What a whole run emits *)

Lemma bind_post {A B : Type} (c : Run A) (k : A → Run B) (I Post : World → Prop)
    (w : World) :
  I w → keeps I c → (∀ w1, I w1 → Post w1) → (∀ a w1, I w1 → Post (k a w1).2) →
  Post ((c ≫= k) w).2.
Proof.
  intros Hw Hc Hfail Hk. specialize (Hc w Hw). unfold mbind, Run_bind.
  destruct (c w) as [[a| | |] w1]; simpl in *; auto.
Qed.

Lemma emit_entities (ev : Event) (w : World) : entities (emit ev w) = entities w.
Proof. done. Qed.

(** The insertion and the asset transfer leave the entities as the
    verification left them, and emit only what these entities allow. *)
Lemma insertion_events (env : Env) (options : MigrationOptions) (w : World) :
  let w' := ((insert env options ≫= λ _, migrate_template_assets env options) w).2 in
  entities w' = entities w ∧
  since (trace w) (insert_event env options (entities w)) w'.
Proof.
  set (E := entities w).
  set (I2 := λ w' : World,
    entities w' = E ∧ since (trace w) (insert_event env options E) w').
  assert (Hadmits : ∀ ev, insert_event env options E ev → admits I2 ev).
  { intros ev Hev w' [HE Hsince]. split; [done|]. by apply since_admits. }
  assert (HE : ∀ w', I2 w' → entities w' = E) by (by intros w' [? _]).
  assert (Hkeeps : keeps I2 (insert env options ≫= λ _, migrate_template_assets env options)).
  { apply keeps_bind; [by apply (insert_keeps env options I2 E)|].
    intros _. by apply (migrate_template_assets_keeps env options I2 E). }
  apply Hkeeps. split; [done | apply since_refl].
Qed.

(** Every event of [migrate] is one the phases before the insertion can
    emit, or one the insertion and the asset transfer can emit for the
    entities the run ends with. *)
Lemma migrate_events (env : Env) (options : MigrationOptions) (fuel : nat) (w : World) :
  since (trace w)
    (λ ev, before_insert_event options ev
           ∨ insert_event env options (entities (migrate env options fuel w).2) ev)
    (migrate env options fuel w).2.
Proof.
  set (I1 := since (trace w) (before_insert_event options)).
  set (Post := λ w' : World,
    since (trace w)
      (λ ev, before_insert_event options ev ∨ insert_event env options (entities w') ev) w').
  assert (Hfail : ∀ w1, I1 w1 → Post w1).
  { intros w1. apply since_impl. by left. }
  assert (Hadmits : ∀ ev, before_insert_event options ev → admits I1 ev).
  { intros ev. apply since_admits. }
  assert (Honly : trace_only I1) by apply since_trace_only.
  change (Post (migrate env options fuel w).2). unfold migrate.
  apply (bind_post _ _ I1); [apply since_refl | by apply (cleanup_postgres_keeps env options) | done |].
  intros _ w1 Hw1.
  apply (bind_post _ _ I1); [done | by apply (cleanup_s3_keeps env options) | done |].
  clear w1 Hw1. intros _ w1 Hw1.
  apply (bind_post _ _ I1); [done | by apply (load_keeps env options) | done |].
  clear w1 Hw1. intros _ w1 Hw1.
  apply (bind_post _ _ I1); [done | by apply (migrator_check_integrity_keeps options) | done |].
  clear w1 Hw1. intros _ w1 Hw1.
  set (E := entities w1).
  set (I2 := λ w' : World,
    entities w' = E ∧
    since (trace w)
      (λ ev, before_insert_event options ev ∨ insert_event env options E ev) w').
  assert (Hadmits2 : ∀ ev, insert_event env options E ev → admits I2 ev).
  { intros ev Hev w' [HE Hsince]. split; [done|]. apply since_admits; [by right | done]. }
  assert (HE : ∀ w', I2 w' → entities w' = E) by (by intros w' [? _]).
  assert (Hkeeps : keeps I2 (insert env options ≫= λ _, migrate_template_assets env options)).
  { apply keeps_bind; [by apply (insert_keeps env options I2 E)|].
    intros _. by apply (migrate_template_assets_keeps env options I2 E). }
  destruct (Hkeeps w1) as [HE' Hsince'].
  { split; [done|]. by apply Hfail. }
  unfold Post. by rewrite HE'.
Qed.

(** ** The phases with a fixed course *)

Lemma bind_done {A B : Type} (c : Run A) (k : A → Run B) (w w' : World) (b : B) :
  (c ≫= k) w = (Done b, w') → ∃ a w1, c w = (Done a, w1) ∧ k a w1 = (Done b, w').
Proof.
  unfold mbind, Run_bind. destruct (c w) as [[a| | |] w1]; try done. eauto.
Qed.

Section FollowsRules.
Context (env : Env) (options : MigrationOptions) (E : RegistryEntities).

Lemma follows_ret {A : Type} (a : A) : follows E (mret a : Run A) [] a.
Proof.
  intros w HE. split; [done|]. exists []. rewrite app_nil_r. by split_and!.
Qed.

Lemma follows_log (ev : Event) : follows E (log ev) [ev] ().
Proof. intros w HE. split; [done|]. by exists [ev]. Qed.

Lemma follows_call (ev : Event) : follows E (call env ev) [ev] ().
Proof.
  intros w HE. unfold call.
  destruct (raises env _); (split; [done|]); exists [ev]; split_and!; try done.
  by intros [b ?].
Qed.

Lemma follows_bind {A B : Type} (c : Run A) (k : A → Run B) (p1 p2 : list Event)
    (a : A) (b : B) :
  follows E c p1 a → follows E (k a) p2 b → follows E (c ≫= k) (p1 ++ p2) b.
Proof.
  intros Hc Hk w HE. destruct (Hc w HE) as (HE1 & evs1 & Htrace1 & Hprefix1 & Hdone1).
  unfold mbind, Run_bind. destruct (c w) as [[a'| | |] w1] eqn:Hcw; simpl in *.
  - destruct Hdone1 as [-> [= ->]]; [by eexists|].
    destruct (Hk w1 HE1) as (HE2 & evs2 & Htrace2 & Hprefix2 & Hdone2).
    split; [done|]. exists (p1 ++ evs2).
    rewrite Htrace2, Htrace1, <- app_assoc. split_and!; [done | by apply prefix_app |].
    intros Hb. destruct (Hdone2 Hb) as [-> ?]. done.
  - split; [done|]. exists evs1. split_and!; [done | by apply prefix_app_r |].
    by intros [? ?].
  - split; [done|]. exists evs1. split_and!; [done | by apply prefix_app_r |].
    by intros [? ?].
  - split; [done|]. exists evs1. split_and!; [done | by apply prefix_app_r |].
    by intros [? ?].
Qed.

Lemma follows_get_entities {B : Type} (k : RegistryEntities → Run B)
    (p : list Event) (b : B) :
  follows E (k E) p b → follows E (get_entities ≫= k) p b.
Proof.
  intros Hk w HE. unfold mbind, Run_bind, get_entities. rewrite HE. by apply Hk.
Qed.

Lemma follows_try_except_critical (body : Run unit) (cause : string) (p : list Event) :
  follows E body p () → follows E (try_except body (critical cause)) p ().
Proof.
  intros Hbody w HE. destruct (Hbody w HE) as (HE1 & evs & Htrace & Hprefix & Hdone).
  unfold try_except, critical.
  destruct (body w) as [[[]| | |] w1]; simpl in *;
    (split; [done|]); exists evs; split_and!; try done; by intros [? ?].
Qed.

Lemma follows_unless_dry_run (c : Run unit) (p : list Event) :
  follows E c p () →
  follows E (unless_dry_run options c) (if dry_run options then [] else p) ().
Proof.
  intros Hc. unfold unless_dry_run. destruct (dry_run options); simpl; [|done].
  apply follows_ret.
Qed.

Lemma follows_plan_eq {A : Type} (c : Run A) (p p' : list Event) (a : A) :
  p = p' → follows E c p a → follows E c p' a.
Proof. by intros ->. Qed.

Lemma _run_insert_follows (entity : EntityClass) (disable_triggers : bool) :
  follows E (_run_insert env entity disable_triggers)
    (run_insert_plan E entity disable_triggers) ().
Proof.
  unfold _run_insert, run_insert_plan. apply follows_get_entities.
  eapply follows_bind; [apply follows_log|].
  eapply follows_bind; [destruct disable_triggers; [apply follows_call | apply follows_ret]|].
  eapply follows_bind; [apply follows_call|].
  destruct disable_triggers; [apply follows_call | apply follows_ret].
Qed.

(** [insert] does not touch the entities, and what it emits is the plan,
    cut after the first call that fails. *)
Lemma insert_follows : follows E (insert env options) (insert_plan options E) ().
Proof.
  unfold insert, insert_plan, _INSERT_ARGS. cbn [for_each].
  eapply follows_plan_eq; [|eapply follows_bind;
    [repeat (eapply follows_bind; [apply _run_insert_follows|]); apply follows_ret
    |apply follows_try_except_critical, follows_unless_dry_run, follows_call]].
  by rewrite app_nil_r, <- !app_assoc.
Qed.

Lemma cleanup_postgres_follows :
  follows E (cleanup_postgres env options) (cleanup_postgres_plan env options) ().
Proof.
  unfold cleanup_postgres, cleanup_postgres_plan, _TABLES_CLEANUP. cbn [for_each].
  apply follows_try_except_critical.
  eapply follows_plan_eq; [|eapply follows_bind; [apply follows_call|];
    eapply follows_bind;
    [repeat (eapply follows_bind;
             [eapply follows_bind; [apply follows_call | apply follows_log]|]);
     apply follows_ret
    |apply follows_unless_dry_run, follows_call]].
  done.
Qed.

Lemma migrate_template_assets_loop_follows (assets : list TemplateAsset.t)
    (counter skipped : nat) :
  follows E (migrate_template_assets_loop env options assets counter skipped)
    (concat (asset_plan env options <$> assets))
    (counter + length (filter (has_payload env) assets),
     skipped + length (filter (λ asset, ¬ has_payload env asset) assets)).
Proof.
  revert counter skipped. induction assets as [|asset rest IH]; intros counter skipped.
  - simpl. rewrite !Nat.add_0_r. apply follows_ret.
  - cbn [migrate_template_assets_loop]. rewrite fmap_cons. cbn [concat].
    rewrite !filter_cons.
    destruct (decide (has_payload env asset)) as [Hp|Hp].
    + rewrite decide_False by tauto.
      replace (counter + length (asset :: filter (has_payload env) rest))
        with (S counter + length (filter (has_payload env) rest)) by (simpl; lia).
      unfold asset_plan at 1. destruct Hp as [data Hdata]. rewrite Hdata.
      eapply follows_plan_eq;
        [|eapply follows_bind; [apply follows_call|];
          eapply follows_bind; [apply follows_unless_dry_run, follows_call | apply IH]].
      done.
    + rewrite decide_True by done.
      replace (skipped + length (asset :: filter (λ a, ¬ has_payload env a) rest))
        with (S skipped + length (filter (λ a, ¬ has_payload env a) rest))
        by (simpl; lia).
      unfold asset_plan at 1.
      destruct (fetch_asset env _) as [data|] eqn:Hdata; [by destruct Hp; eexists|].
      eapply follows_plan_eq;
        [|eapply follows_bind; [apply follows_call|];
          eapply follows_bind; [apply follows_log | apply IH]].
      done.
Qed.

Lemma migrate_template_assets_follows :
  follows E (migrate_template_assets env options)
    (migrate_template_assets_plan env options E) ().
Proof.
  unfold migrate_template_assets, migrate_template_assets_plan.
  apply follows_get_entities.
  eapply follows_bind; [apply follows_log|].
  eapply follows_bind; [apply migrate_template_assets_loop_follows|].
  apply follows_log.
Qed.
End FollowsRules.

(** ** The claims about the pipeline *)

(** C2: the two phases that follow the verification, [insert] and
    [migrate_template_assets], assign no marker, and whatever way they go
    (and whatever way a whole run of [migrate] goes) every batch handed to
    the insertion loop of the target store is the list of the records of
    that class whose marker is True, so a record whose marker is False is
    in no batch; and every asset stored in the object store belongs to a
    template asset whose marker is not False. *)
Theorem invalid_records_are_never_inserted (env : Env) (options : MigrationOptions)
    (fuel : nat) (w : World) :
  let inserted (E : RegistryEntities) (evs : list Event) : Prop :=
    (∀ entity instances, PgExecuteLoop entity instances ∈ evs →
       instances = filter (λ x, entry_integrity_ok x = true) (entries_by_entity entity E) ∧
       ∀ x, entry_integrity_ok x = false → x ∉ instances) ∧
    (∀ template_id file_name content_type data,
       S3StoreTemplateAsset template_id file_name content_type data ∈ evs →
       ∃ asset, asset ∈ template_assets E ∧ integrity_ok asset ≠ false ∧
                template_id = TemplateAsset.template_id asset ∧
                file_name = TemplateAsset.uuid asset ∧
                content_type = TemplateAsset.content_type asset) in
  let after := ((insert env options ≫= λ _, migrate_template_assets env options) w).2 in
  let w' := (migrate env options fuel w).2 in
  (entities after = entities w ∧
   ∃ evs, trace after = trace w ++ evs ∧ inserted (entities w) evs) ∧
  (∃ evs, trace w' = trace w ++ evs ∧ inserted (entities w') evs).
Proof.
  intros inserted after w'.
  assert (Hinserted : ∀ E evs,
    Forall (λ ev, before_insert_event options ev ∨ insert_event env options E ev) evs →
    inserted E evs).
  { intros E evs Hall. rewrite Forall_forall in Hall. split.
    - intros entity instances Hin. destruct (Hall _ Hin) as [[]|Heq].
      split; [done|]. intros x Hx Hmem. rewrite Heq in Hmem.
      apply list_elem_of_filter in Hmem as [Hok _]. congruence.
    - intros template_id file_name content_type data Hin.
      destruct (Hall _ Hin) as [[]|[_ (asset & ? & ? & ? & ? & ? & _)]].
      by exists asset. }
  split.
  - destruct (insertion_events env options w) as (HE & evs & Htrace & Hall).
    split; [done|]. exists evs. split; [done|]. apply Hinserted.
    eapply Forall_impl; [exact Hall|]. by right.
  - destruct (migrate_events env options fuel w) as (evs & Htrace & Hall).
    exists evs. split; [done|]. by apply Hinserted.
Qed.

Lemma apply_events_keeps_destination (d : Destination) (evs : list Event) :
  Forall (λ ev, persists ev = false) evs →
  committed (apply_events d evs) = committed d ∧ bucket (apply_events d evs) = bucket d.
Proof.
  unfold apply_events. revert d.
  induction evs as [|ev evs IH]; intros d Hall; [done|].
  apply Forall_cons in Hall as [Hev Hall]. simpl.
  destruct (IH (apply_event d ev) Hall) as [-> ->].
  by destruct ev.
Qed.

(** When [migrate] ends normally, it has emitted the whole plan of the
    cleanup, then the calls of the preparation, the load and the
    verification, then the whole plans of the insertion and of the asset
    transfer. *)
Lemma migrate_done (env : Env) (options : MigrationOptions) (fuel : nat) (w w' : World) :
  migrate env options fuel w = (Done (), w') →
  ∃ middle,
    trace w' = trace w ++ cleanup_postgres_plan env options ++ middle
               ++ insert_plan options (entities w')
               ++ migrate_template_assets_plan env options (entities w').
Proof.
  unfold migrate. intros Hrun.
  apply bind_done in Hrun as ([] & w1 & H1 & Hrun).
  apply bind_done in Hrun as ([] & w2 & H2 & Hrun).
  apply bind_done in Hrun as ([] & w3 & H3 & Hrun).
  apply bind_done in Hrun as ([] & w4 & H4 & Hrun).
  apply bind_done in Hrun as ([] & w5 & H5 & H6).
  assert (Hany : ∀ t0 ev, admits (since t0 (λ _, True)) ev)
    by (intros; by apply since_admits).
  destruct (cleanup_postgres_follows env options (entities w) w eq_refl)
    as (_ & evs1 & Ht1 & _ & Hd1).
  rewrite H1 in Ht1, Hd1. simpl in Ht1, Hd1. destruct Hd1 as [-> _]; [by eexists|].
  destruct (cleanup_s3_keeps env options (since (trace w1) (λ _, True)) (λ ev _, Hany _ ev)
              w1 (since_refl _ _)) as (evs2 & Ht2 & _).
  rewrite H2 in Ht2. simpl in Ht2.
  destruct (load_keeps env options (since (trace w2) (λ _, True)) (since_trace_only _ _)
              (λ ev _, Hany _ ev) w2 (since_refl _ _)) as (evs3 & Ht3 & _).
  rewrite H3 in Ht3. simpl in Ht3.
  destruct (migrator_check_integrity_keeps options (since (trace w3) (λ _, True)) fuel
              (since_trace_only _ _) (λ ev _, Hany _ ev) w3 (since_refl _ _))
    as (evs4 & Ht4 & _).
  rewrite H4 in Ht4. simpl in Ht4.
  destruct (insert_follows env options (entities w4) w4 eq_refl)
    as (HE5 & evs5 & Ht5 & _ & Hd5).
  rewrite H5 in HE5, Ht5, Hd5. simpl in HE5, Ht5, Hd5. destruct Hd5 as [-> _]; [by eexists|].
  destruct (migrate_template_assets_follows env options (entities w5) w5 eq_refl)
    as (HE6 & evs6 & Ht6 & _ & Hd6).
  rewrite H6 in HE6, Ht6, Hd6. simpl in HE6, Ht6, Hd6. destruct Hd6 as [-> _]; [by eexists|].
  exists (evs2 ++ evs3 ++ evs4).
  rewrite Ht6, Ht5, Ht4, Ht3, Ht2, Ht1, HE6, <- HE5. by rewrite <- !app_assoc.
Qed.

(** C8, as the code has it: [finish] closes the connection to the target
    relational store, once, and makes no other call; [migrate] itself closes
    nothing. The clients of the source store and of the object store are
    never closed by registry.py. *)
Theorem finish_closes_postgres_only (env : Env) (options : MigrationOptions) (fuel : nat)
    (w : World) :
  trace (finish env w).2 = trace w ++ [Close PostgresDB] ∧
  entities (finish env w).2 = entities w ∧
  ∃ evs, trace (migrate env options fuel w).2 = trace w ++ evs ∧
         ∀ client, Close client ∉ evs.
Proof.
  split_and!.
  - unfold finish, call. by destruct (raises env _).
  - unfold finish, call. by destruct (raises env _).
  - destruct (migrate_events env options fuel w) as (evs & Htrace & Hall).
    exists evs. split; [done|]. intros client Hin.
    rewrite Forall_forall in Hall. by destruct (Hall _ Hin).
Qed.

(** C8, as stated, fails: the one call [finish] makes does not release the
    connection to the source store. *)
Lemma finish_leaves_mongo_open :
  ¬ (∀ env w client, ∃ evs, trace (finish env w).2 = trace w ++ evs ∧ Close client ∈ evs).
Proof.
  intros Hall. destruct (Hall sample_env sample_world MongoDB) as (evs & Htrace & Hin).
  simpl in Htrace. subst evs. set_solver.
Qed.

(** * Further properties of the checker *)

(** What [check_integrity] returns does not depend on the fuel: whenever it
    returns, the facts of [check_integrity_spec] hold of the result. *)
Lemma check_integrity_returned (fuel : nat) (self : RegistryEntities) (e : Entropy)
    n self' e' :
  check_integrity fuel self e = Some (n, self', e') →
  ∃ u,
    check_uniqueness_all (set_result [] self) e = (u, e') ∧
    scanned self u ∧ grows u self' ∧ new_violations self' = [] ∧
    1 ≤ n ∧ n ≤ S (total_count self).
Proof.
  intros Hrun.
  apply (check_integrity_more_fuel _ (total_count self)) in Hrun.
  destruct (check_integrity_spec self e fuel)
    as (n1 & u & self1 & e1 & Huniq & Hrun1 & Hscanned & Hgrows & Hquiet & Hlow & Hhigh).
  rewrite Nat.add_comm, Hrun in Hrun1. simplify_eq. by exists u.
Qed.

(** X1: when [check_integrity] returns, the snapshot is a fixed point of the
    reference pass: one more [_check_references] reports nothing, returns
    False and leaves every record and the list of messages as they are. *)
Theorem check_integrity_fixed_point (fuel : nat) (self : RegistryEntities) (e : Entropy)
    n self' e' :
  check_integrity fuel self e = Some (n, self', e') →
  _check_references self' e' = (false, self', e').
Proof.
  intros (u & _ & _ & _ & Hquiet & _)%check_integrity_returned.
  rewrite _check_references_stored, Hquiet.
  by rewrite (references_pass_quiet _ Hquiet).
Qed.

Lemma check_integrity_fixed_point_witness :
  _check_references
    (set_list [set_integrity_ok false package_A; set_integrity_ok false package_B]
       (set_result ["Missing Package (previous_package_id=C) for Package: B";
                    "Missing Package (fork_of_package_id=B) for Package: A"] no_entities))
    sample_entropy
  = (false,
     set_list [set_integrity_ok false package_A; set_integrity_ok false package_B]
       (set_result ["Missing Package (previous_package_id=C) for Package: B";
                    "Missing Package (fork_of_package_id=B) for Package: A"] no_entities),
     sample_entropy).
Proof.
  apply (check_integrity_fixed_point 2 cascade sample_entropy 3).
  vm_compute. reflexivity.
Defined.

Section Resolves.
Context {A B : Type} `{EntityLaws A} `{!StoredId A} `{EntityLaws B} `{!StoredId B}.

(** A check that reports nothing has found every reference. *)
Lemma ref_msgs_nil_resolves target_name field_name (field : A → option string)
    (items : list A) (targets : list B) :
  ref_msgs target_name field_name field (ids_of targets) items = [] ↔
  resolves field items targets.
Proof.
  split.
  - intros Hquiet x ref_id Hx Hvalid Hfield.
    assert (Hnone : filter (broken field (ids_of targets)) items = []).
    { apply length_zero_iff_nil. rewrite <- (ref_msgs_length target_name field_name).
      by rewrite Hquiet. }
    destruct (decide (ref_id ∈ ids_of targets)) as [Hin|Hnot].
    + unfold ids_of in Hin.
      apply elem_of_list_to_set, list_elem_of_fmap in Hin as (y & -> & Hy).
      apply list_elem_of_filter in Hy as [? ?]. by exists y.
    + exfalso. eapply (filter_nil_not_elem_of _ _ x Hnone); [|done].
      split; [done|]. by rewrite Hfield.
  - intros Hresolves. apply length_zero_iff_nil. rewrite ref_msgs_length.
    apply length_zero_iff_nil. induction items as [|x items IH]; [done|].
    rewrite filter_cons_False.
    + apply IH. intros y r Hy. apply Hresolves. set_solver.
    + intros [Hvalid Hbroken]. destruct (field x) as [ref_id|] eqn:Hfield; [|done].
      destruct (Hresolves x ref_id) as (y & Hy & Hyvalid & Hid); [set_solver|done|done|].
      apply Hbroken. unfold ids_of. apply elem_of_list_to_set, list_elem_of_fmap.
      exists y. split; [done|]. by apply list_elem_of_filter.
Qed.
End Resolves.

Lemma new_violations_nil_consistent (self : RegistryEntities) :
  new_violations self = [] ↔ consistent self.
Proof.
  unfold new_violations, packages_msgs. split.
  - intros Hquiet.
    apply app_eq_nil in Hquiet as [Hk Hquiet].
    apply app_eq_nil in Hquiet as [Hp Hquiet].
    apply app_eq_nil in Hquiet as [Hta Htf].
    apply app_eq_nil in Hp as [Hp1 Hp].
    apply app_eq_nil in Hp as [Hp2 Hp3].
    rewrite (ref_mark_quiet _ _ _ _ _ Hp1) in Hp2, Hp3.
    rewrite (ref_mark_quiet _ _ _ _ _ Hp2) in Hp3.
    split; by eapply ref_msgs_nil_resolves.
  - intros [Hk Hp1 Hp2 Hp3 Hta Htf].
    apply (ref_msgs_nil_resolves "Organization" "organization_id") in Hk.
    apply (ref_msgs_nil_resolves "Package" "previous_package_id") in Hp1.
    apply (ref_msgs_nil_resolves "Package" "fork_of_package_id") in Hp2.
    apply (ref_msgs_nil_resolves "Package" "merge_checkpoint_package_id") in Hp3.
    apply (ref_msgs_nil_resolves "Template" "template_id") in Hta.
    apply (ref_msgs_nil_resolves "Template" "template_id") in Htf.
    rewrite Hk, Hp1, (ref_mark_quiet _ _ _ _ _ Hp1), Hp2, (ref_mark_quiet _ _ _ _ _ Hp2),
      Hp3, Hta, Htf. done.
Qed.

(** X2: when [check_integrity] returns, every reference it checks resolves
    among the records it left valid: a valid action key names a valid
    organization, the previous, fork-of and merge-checkpoint package of a
    valid package are valid packages where they are not None, and a valid
    template asset or file names a valid template. *)
Theorem check_integrity_consistent (fuel : nat) (self : RegistryEntities) (e : Entropy)
    n self' e' :
  check_integrity fuel self e = Some (n, self', e') → consistent self'.
Proof.
  intros (u & _ & _ & _ & Hquiet & _)%check_integrity_returned.
  by apply new_violations_nil_consistent.
Qed.

Lemma check_integrity_consistent_witness : consistent cascade_verified.
Proof.
  apply (check_integrity_consistent 2 cascade sample_entropy 3 _ sample_entropy).
  vm_compute. reflexivity.
Defined.

Section UniqueIds.
Context {A : Type} `{EntityLaws A} `{!StoredId A}.

(** After a scan, the records that are not False have identities that
    differ from one another and from those met before the scan. *)
Lemma uniq_mark_unique unique_set (items : list A) :
  unique_ids (uniq_mark unique_set items) ∧
  ∀ x, x ∈ filter is_valid (uniq_mark unique_set items) → id_of x ∉ unique_set.
Proof.
  unfold unique_ids. revert unique_set.
  induction items as [|item rest IH]; intros unique_set.
  - split; [constructor | set_solver].
  - cbn [uniq_mark]. destruct (IH ({[id_of item]} ∪ unique_set)) as [Hnodup Hfresh].
    rewrite filter_cons.
    case_bool_decide as Hmet.
    + rewrite decide_False by (unfold is_valid; rewrite integrity_ok_set; by intros ?).
      split; [done|]. intros x Hx. specialize (Hfresh x Hx). set_solver.
    + destruct (decide (is_valid item)) as [Hvalid|Hinvalid].
      * split.
        -- rewrite fmap_cons. constructor; [|done].
           intros (y & Hid & Hy)%list_elem_of_fmap. specialize (Hfresh y Hy). set_solver.
        -- intros x [->|Hx]%elem_of_cons; [done|]. specialize (Hfresh x Hx). set_solver.
      * split; [done|]. intros x Hx. specialize (Hfresh x Hx). set_solver.
Qed.

(** Flipping records takes identities away from the valid ones, in order. *)
Lemma flipped_valid_ids (l l' : list A) :
  Forall2 flipped l l' →
  (id_of <$> filter is_valid l') `sublist_of` (id_of <$> filter is_valid l).
Proof.
  induction 1 as [|x y l l' Hxy _ IH]; [done|].
  rewrite !filter_cons. destruct Hxy as [->| ->].
  - destruct (decide (is_valid x)); [|done]. rewrite !fmap_cons. by apply sublist_skip.
  - rewrite (decide_False (P:=is_valid (set_integrity_ok false x)))
      by (unfold is_valid; rewrite integrity_ok_set; by intros ?).
    destruct (decide (is_valid x)); [|done]. rewrite fmap_cons. by apply sublist_cons.
Qed.

Lemma flipped_unique_ids (l l' : list A) :
  Forall2 flipped l l' → unique_ids l → unique_ids l'.
Proof.
  unfold unique_ids. intros Hflip Hnodup.
  eapply sublist_NoDup; [done | by apply flipped_valid_ids].
Qed.

(** A scan of records with identities of their own changes and reports
    nothing. *)
Lemma uniq_mark_all_differ unique_set (items : list A) :
  all_ids_differ items → (∀ x, x ∈ items → id_of x ∉ unique_set) →
  uniq_mark unique_set items = items ∧ uniq_msgs unique_set items = [].
Proof.
  unfold all_ids_differ. revert unique_set.
  induction items as [|item rest IH]; intros unique_set Hnodup Hfresh; [done|].
  rewrite fmap_cons in Hnodup. apply NoDup_cons in Hnodup as [Hitem Hnodup].
  cbn [uniq_mark uniq_msgs].
  rewrite bool_decide_eq_false_2 by (apply Hfresh; set_solver).
  destruct (IH ({[id_of item]} ∪ unique_set) Hnodup) as [-> ->]; [|done].
  intros x Hx. rewrite not_elem_of_union. split; [|apply Hfresh; set_solver].
  intros Heq%elem_of_singleton. apply Hitem, list_elem_of_fmap. by exists x.
Qed.

(** A scan that reports nothing changes nothing. *)
Lemma uniq_msgs_nil unique_set (items : list A) :
  uniq_msgs unique_set items = [] → uniq_mark unique_set items = items.
Proof.
  revert unique_set. induction items as [|item rest IH]; intros unique_set; [done|].
  cbn [uniq_mark uniq_msgs]. destruct (bool_decide _); [done|].
  intros Hrest. by rewrite IH.
Qed.
End UniqueIds.

(** The lists of the six classes with a stored identity after the
    uniqueness passes. *)
Lemma check_uniqueness_all_lists (self u : RegistryEntities) (e e' : Entropy) :
  check_uniqueness_all self e = (u, e') →
  action_keys u = uniq_mark ∅ (action_keys self) ∧
  organizations u = uniq_mark ∅ (organizations self) ∧
  packages u = uniq_mark ∅ (packages self) ∧
  templates u = uniq_mark ∅ (templates self) ∧
  template_assets u = uniq_mark ∅ (template_assets self) ∧
  template_files u = uniq_mark ∅ (template_files self).
Proof.
  rewrite check_uniqueness_all_stored.
  destruct (_check_uniqueness_loop (audit_entries self) _ _ e) as [[audit result] e1].
  by intros [= <- <-].
Qed.

(** The uniqueness passes leave valid records with different identities,
    and the reference passes keep it so. *)
Lemma grows_unique (self u self' : RegistryEntities) (e e' : Entropy) :
  check_uniqueness_all self e = (u, e') → grows u self' → unique self'.
Proof.
  intros Huniq Hgrows.
  apply check_uniqueness_all_lists in Huniq as (Hk & Ho & Hp & Ht & Hta & Htf).
  cbn [set_result action_keys organizations packages templates template_assets
       template_files] in *.
  destruct Hgrows as [Hk' _ Ho' Hp' Ht' Hta' Htf' _].
  split.
  - eapply flipped_unique_ids; [done|]. rewrite Hk. apply uniq_mark_unique.
  - rewrite Ho', Ho. apply uniq_mark_unique.
  - eapply flipped_unique_ids; [done|]. rewrite Hp. apply uniq_mark_unique.
  - rewrite Ht', Ht. apply uniq_mark_unique.
  - eapply flipped_unique_ids; [done|]. rewrite Hta. apply uniq_mark_unique.
  - eapply flipped_unique_ids; [done|]. rewrite Htf. apply uniq_mark_unique.
Qed.

(** X3: when [check_integrity] returns, the records it left valid have
    pairwise different identities within each of the six classes whose
    identity is a stored field (whatever the markers were before). *)
Theorem check_integrity_unique (fuel : nat) (self : RegistryEntities) (e : Entropy)
    n self' e' :
  check_integrity fuel self e = Some (n, self', e') → unique self'.
Proof.
  intros (u & Huniq & _ & Hgrows & _)%check_integrity_returned.
  by eapply grows_unique.
Qed.

Lemma check_integrity_unique_witness :
  ∃ self', check_integrity 1 (set_list [key_1; key_2] no_entities) sample_entropy
             = Some (2, self', sample_entropy) ∧ unique self'.
Proof.
  eexists. split; [vm_compute; reflexivity|].
  apply (check_integrity_unique 1 (set_list [key_1; key_2] no_entities) sample_entropy
           2 _ sample_entropy).
  vm_compute. reflexivity.
Defined.

(** X4: a snapshot in which every record of a class has an identity of its
    own and every checked reference resolves passes the verification: one
    reference pass, no message, no record changed (the tokens drawn for the
    audit entries are taken not to repeat). *)
Theorem check_integrity_clean (fuel : nat) (self : RegistryEntities) (e : Entropy) :
  (∀ i, String.length (tokens e i) = 36) →
  fresh e (length (audit_entries self)) →
  all_ids_differ (action_keys self) → all_ids_differ (organizations self) →
  all_ids_differ (packages self) → all_ids_differ (templates self) →
  all_ids_differ (template_assets self) → all_ids_differ (template_files self) →
  consistent self →
  check_integrity fuel self e
    = Some (1, set_result [] self, after_draws (length (audit_entries self)) e).
Proof.
  intros Hlen Hfresh Hk Ho Hp Ht Hta Htf Hconsistent.
  unfold check_integrity. rewrite check_uniqueness_all_fresh by done.
  unfold duplicate_violations.
  cbn [set_result _result action_keys audit_entries organizations packages templates
       template_assets template_files].
  destruct (uniq_mark_all_differ ∅ _ Hk) as [-> ->]; [set_solver|].
  destruct (uniq_mark_all_differ ∅ _ Ho) as [-> ->]; [set_solver|].
  destruct (uniq_mark_all_differ ∅ _ Hp) as [-> ->]; [set_solver|].
  destruct (uniq_mark_all_differ ∅ _ Ht) as [-> ->]; [set_solver|].
  destruct (uniq_mark_all_differ ∅ _ Hta) as [-> ->]; [set_solver|].
  destruct (uniq_mark_all_differ ∅ _ Htf) as [-> ->]; [set_solver|].
  cbn [app]. fold (set_result [] self).
  assert (Hquiet : new_violations (set_result [] self) = []).
  { rewrite new_violations_set_result. by apply new_violations_nil_consistent. }
  rewrite _check_references_stored, Hquiet, (references_pass_quiet _ Hquiet).
  rewrite bool_decide_eq_false_2 by (by intros ?). by destruct fuel.
Qed.

Lemma check_integrity_clean_witness :
  check_integrity 0 clean_sample sample_entropy
    = Some (1, set_result [] clean_sample,
            after_draws (length (audit_entries clean_sample)) sample_entropy).
Proof.
  apply (check_integrity_clean 0 clean_sample sample_entropy).
  - intros i. reflexivity.
  - unfold fresh. vm_compute. repeat constructor; set_solver.
  - unfold all_ids_differ. vm_compute. repeat constructor; set_solver.
  - unfold all_ids_differ. vm_compute. repeat constructor; set_solver.
  - unfold all_ids_differ. vm_compute. constructor.
  - unfold all_ids_differ. vm_compute. constructor.
  - unfold all_ids_differ. vm_compute. constructor.
  - unfold all_ids_differ. vm_compute. constructor.
  - apply new_violations_nil_consistent. vm_compute. reflexivity.
Defined.

Section LoopsQuiet.
Context {A : Type} `{EntityLaws A}.

(** Every message of a uniqueness scan is a "Duplicate ID" message, for any
    class. *)
Lemma _check_uniqueness_loop_duplicates (items : list A) (unique_set : gset string)
    (result : list string) (e : Entropy) items' result' e' :
  _check_uniqueness_loop items unique_set result e = (items', result', e') →
  ∃ msgs, result' = result ++ msgs ∧ Forall (λ m, is_duplicate_message m = true) msgs.
Proof.
  revert unique_set result e items' result' e'.
  induction items as [|item rest IH]; intros unique_set result e items' result' e' Hloop.
  - simplify_eq/=. exists []. by rewrite app_nil_r.
  - simpl in Hloop. destruct (get_id item e) as [item_id e1].
    destruct (bool_decide (item_id ∈ unique_set));
      destruct (_check_uniqueness_loop rest _ _ e1) as [[rest' result1] e2] eqn:Hrest;
      apply IH in Hrest as (msgs & -> & Hmsgs); simplify_eq.
    + eexists (_ :: msgs). rewrite <- app_assoc. split; [done|]. constructor; [|done].
      unfold is_duplicate_message. simpl. by destruct (_ +:+ _).
    + by exists msgs.
Qed.

(** A uniqueness scan that appends nothing changes nothing, for any class. *)
Lemma _check_uniqueness_loop_quiet (items : list A) (unique_set : gset string)
    (result : list string) (e : Entropy) items' e' :
  _check_uniqueness_loop items unique_set result e = (items', result, e') →
  items' = items.
Proof.
  revert unique_set e items' e'.
  induction items as [|item rest IH]; intros unique_set e items' e' Hloop.
  - by simplify_eq/=.
  - simpl in Hloop. destruct (get_id item e) as [item_id e1].
    destruct (bool_decide (item_id ∈ unique_set));
      destruct (_check_uniqueness_loop rest _ _ e1) as [[rest' result1] e2] eqn:Hrest.
    + apply _check_uniqueness_loop_spec in Hrest as (msgs & -> & _). simplify_eq.
      match goal with Heq : _ = result |- _ =>
        apply (f_equal length) in Heq; rewrite !length_app in Heq; simpl in Heq; lia
      end.
    + simplify_eq. f_equal. by eapply IH.
Qed.

(** Records that were only flipped, and of which no more are False than
    before, are the records as they were. *)
Lemma flipped_same_count (l l' : list A) :
  Forall2 flipped l l' → count_invalid l' ≤ count_invalid l → l' = l.
Proof.
  induction 1 as [|x y l l' Hxy Hrest IH]; [done|].
  rewrite !count_invalid_cons. intros Hcount.
  pose proof (flipped_count_invalid _ _ Hrest) as Hle.
  destruct Hxy as [->| ->].
  - f_equal. apply IH. lia.
  - rewrite integrity_ok_set in Hcount. rewrite decide_True in Hcount by done.
    destruct (decide (integrity_ok x = false)) as [Hx|Hx]; [|lia].
    f_equal; [|apply IH; lia]. rewrite <- Hx. apply set_integrity_ok_same.
Qed.
End LoopsQuiet.

(** Passes that leave no message have changed no record. *)
Lemma grows_unchanged (self u self' : RegistryEntities) (e e' : Entropy) :
  check_uniqueness_all (set_result [] self) e = (u, e') → grows u self' →
  _result self' = [] →
  self' = set_result [] self.
Proof.
  intros Huniq Hgrows Hempty.
  pose proof (flipped_count_invalid (A:=ActionKey.t)) as Hle_k.
  destruct Hgrows as [Hk Ha Ho Hp Ht Hta Htf (missing & Hresult & _ & Hcount)].
  rewrite Hempty in Hresult. symmetry in Hresult.
  apply app_eq_nil in Hresult as [Hu ->]. simpl in Hcount.
  unfold invalid_total in Hcount. rewrite Ha, Ho, Ht in Hcount.
  pose proof (flipped_count_invalid _ _ Hk). pose proof (flipped_count_invalid _ _ Hp).
  pose proof (flipped_count_invalid _ _ Hta). pose proof (flipped_count_invalid _ _ Htf).
  apply flipped_same_count in Hk; [|lia]. apply flipped_same_count in Hp; [|lia].
  apply flipped_same_count in Hta; [|lia]. apply flipped_same_count in Htf; [|lia].
  assert (Hsame : self' = set_result [] u).
  { destruct self', u. cbn in *. by subst. }
  rewrite Hsame. clear Hsame.
  rewrite check_uniqueness_all_stored in Huniq.
  cbn [set_result _result action_keys audit_entries organizations packages templates
       template_assets template_files] in Huniq.
  destruct (_check_uniqueness_loop (audit_entries self) _ _ e)
    as [[audit result] e1] eqn:Haudit.
  injection Huniq as Hu' _. subst u. cbn [_result] in Hu.
  apply app_eq_nil in Hu as [-> Hu].
  apply app_eq_nil in Hu as [Hmo Hu]. apply app_eq_nil in Hu as [Hmp Hu].
  apply app_eq_nil in Hu as [Hmt Hu]. apply app_eq_nil in Hu as [Hmta Hmtf].
  pose proof Haudit as Hspec.
  apply _check_uniqueness_loop_spec in Hspec as (msgs & Hmsgs & _).
  symmetry in Hmsgs. apply app_eq_nil in Hmsgs as [Hmk _].
  rewrite Hmk in Haudit. apply _check_uniqueness_loop_quiet in Haudit. subst audit.
  rewrite (uniq_msgs_nil _ _ Hmk), (uniq_msgs_nil _ _ Hmo), (uniq_msgs_nil _ _ Hmp),
    (uniq_msgs_nil _ _ Hmt), (uniq_msgs_nil _ _ Hmta), (uniq_msgs_nil _ _ Hmtf).
  by destruct self.
Qed.

(** X5: no record is flipped without a message: when the list
    [check_integrity] returns is empty, every record is as it was. *)
Theorem check_integrity_nothing_reported (fuel : nat) (self : RegistryEntities)
    (e : Entropy) n self' e' :
  check_integrity fuel self e = Some (n, self', e') →
  _result self' = [] →
  self' = set_result [] self.
Proof.
  intros (u & Huniq & _ & Hgrows & _)%check_integrity_returned Hempty.
  by eapply grows_unchanged.
Qed.

Lemma check_integrity_nothing_reported_witness :
  check_integrity 0 clean_sample sample_entropy
    = Some (1, set_result [] clean_sample,
            after_draws (length (audit_entries clean_sample)) sample_entropy) ∧
  set_result [] clean_sample = set_result [] clean_sample.
Proof.
  split; [vm_compute; reflexivity|].
  apply (check_integrity_nothing_reported 0 clean_sample sample_entropy 1
           (set_result [] clean_sample)
           (after_draws (length (audit_entries clean_sample)) sample_entropy)).
  - vm_compute. reflexivity.
  - reflexivity.
Defined.

(** X6: the list [check_integrity] returns is the "Duplicate ID" messages of
    the uniqueness passes followed by the "Missing" messages of the
    reference passes, one for each record a reference pass flipped; and the
    reference passes never change an audit entry, an organization or a
    template, which only a uniqueness pass can flip. *)
Theorem check_integrity_messages (fuel : nat) (self : RegistryEntities) (e : Entropy)
    n self' e' :
  check_integrity fuel self e = Some (n, self', e') →
  ∃ u missing,
    check_uniqueness_all (set_result [] self) e = (u, e') ∧
    _result self' = _result u ++ missing ∧
    Forall (λ m, is_duplicate_message m = true) (_result u) ∧
    Forall (λ m, is_missing_message m = true) missing ∧
    invalid_total self' = invalid_total u + length missing ∧
    audit_entries self' = audit_entries u ∧
    organizations self' = organizations u ∧
    templates self' = templates u.
Proof.
  intros (u & Huniq & _ & Hgrows & _)%check_integrity_returned.
  destruct Hgrows as [_ Ha Ho _ Ht _ _ (missing & Hresult & Hmissing & Hcount)].
  exists u, missing. split_and!; try done.
  rewrite check_uniqueness_all_stored in Huniq.
  cbn [set_result _result action_keys audit_entries organizations packages templates
       template_assets template_files] in Huniq.
  destruct (_check_uniqueness_loop (audit_entries self) _ _ e)
    as [[audit result] e1] eqn:Haudit.
  injection Huniq as <- _. cbn [_result].
  apply _check_uniqueness_loop_duplicates in Haudit as (msgs & -> & Hmsgs).
  repeat (apply Forall_app; split); try done; apply uniq_msgs_duplicate.
Qed.

Lemma check_integrity_messages_witness :
  ∃ u missing,
    check_uniqueness_all (set_result [] twice_sample) sample_entropy
      = (u, after_draws 2 sample_entropy) ∧
    _result (set_result
               ["Duplicate ID for ActionKey: u1";
                "Missing Organization (organization_id=org) for ActionKey: u1"]
               (set_list [set_integrity_ok false key_1; set_integrity_ok false key_2]
                  twice_sample))
      = _result u ++ missing ∧
    Forall (λ m, is_duplicate_message m = true) (_result u) ∧
    Forall (λ m, is_missing_message m = true) missing ∧
    invalid_total (set_result
               ["Duplicate ID for ActionKey: u1";
                "Missing Organization (organization_id=org) for ActionKey: u1"]
               (set_list [set_integrity_ok false key_1; set_integrity_ok false key_2]
                  twice_sample))
      = invalid_total u + length missing ∧
    audit_entries (set_result
               ["Duplicate ID for ActionKey: u1";
                "Missing Organization (organization_id=org) for ActionKey: u1"]
               (set_list [set_integrity_ok false key_1; set_integrity_ok false key_2]
                  twice_sample)) = audit_entries u ∧
    organizations (set_result
               ["Duplicate ID for ActionKey: u1";
                "Missing Organization (organization_id=org) for ActionKey: u1"]
               (set_list [set_integrity_ok false key_1; set_integrity_ok false key_2]
                  twice_sample)) = organizations u ∧
    templates (set_result
               ["Duplicate ID for ActionKey: u1";
                "Missing Organization (organization_id=org) for ActionKey: u1"]
               (set_list [set_integrity_ok false key_1; set_integrity_ok false key_2]
                  twice_sample)) = templates u.
Proof.
  apply (check_integrity_messages 4 twice_sample sample_entropy 2).
  vm_compute. reflexivity.
Defined.

(** * Further properties of registry.py *)

(** X7: the lookup of a list by class never fails for the seven classes and
    finds the list of that class: the names of the classes are pairwise
    different, so that [ENTITY_LIST] is [LIST_ENTITY] read backwards, with an
    entry for each class that names an attribute of [RegistryEntities]. *)
Theorem list_by_entity_by_name_found (entity : EntityClass) (self : RegistryEntities) :
  NoDup (class_name <$> ENTITIES) ∧
  (∀ name, ENTITY_LIST !! class_name entity = Some name ↔ (name, entity) ∈ LIST_ENTITY) ∧
  list_by_entity_by_name entity self = Some (entries_by_entity entity self).
Proof.
  split_and!.
  - vm_compute. repeat constructor; set_solver.
  - intros name. unfold LIST_ENTITY. rewrite !elem_of_cons, elem_of_nil.
    destruct entity; vm_compute; naive_solver.
  - by destruct entity.
Qed.

(** X8: [clear] empties the seven collections and leaves the messages of
    the last verification where they are; a verification that follows
    returns the empty list after a single reference pass, without drawing a
    token. *)
Theorem clear_leaves_nothing_to_check (self : RegistryEntities) (fuel : nat) (e : Entropy) :
  clear self = set_result (_result self) no_entities ∧
  (∀ entity, list_by_entity_by_name entity (clear self) = Some []) ∧
  check_integrity fuel (clear self) e = Some (1, no_entities, e).
Proof.
  assert (Hclear : clear self = set_result (_result self) no_entities) by done.
  split_and!; [done | |].
  - intros entity. rewrite Hclear. by destruct entity.
  - rewrite Hclear. unfold check_integrity.
    assert (Huniq : check_uniqueness_all (set_result [] (set_result (_result self) no_entities)) e
                    = (no_entities, e)) by done.
    rewrite Huniq, _check_references_stored.
    assert (Hquiet : new_violations no_entities = []) by done.
    rewrite Hquiet, (references_pass_quiet _ Hquiet).
    rewrite bool_decide_eq_false_2 by (by intros ?). by destruct fuel.
Qed.

Local Ltac first_missing :=
  repeat match goal with
  | H : context [subscript ?doc ?key _] |- _ =>
      unfold subscript at 1 in H; destruct (doc !! key) eqn:?
  end.

(** X9: [Organization.from_mongo] builds a record exactly when the document
    holds the eight keys it reads with [doc[...]]; otherwise it raises the
    [KeyError] of the first of them, in the order organizationId, name,
    description, email, role, token, active, logo, that the document lacks.
    The two timestamps never make it fail. *)
Theorem Organization_from_mongo_keys (doc : gmap string PyValue) (now : datetime) :
  ((∃ x, Organization_from_mongo doc now = Built x) ↔
   Forall (λ key, is_Some (doc !! key)) Organization_required) ∧
  (∀ key, Organization_from_mongo doc now = KeyError key →
     doc !! key = None ∧
     ∃ before after, Organization_required = before ++ key :: after ∧
                     Forall (λ k, is_Some (doc !! k)) before).
Proof.
  unfold Organization_required. split; [split|].
  - intros [x Hx]. unfold Organization_from_mongo in Hx. first_missing; try done.
    repeat constructor; by eexists.
  - intros Hall. rewrite !Forall_cons in Hall.
    destruct Hall as ([? H1] & [? H2] & [? H3] & [? H4] & [? H5] & [? H6] & [? H7]
                      & [? H8] & _).
    unfold Organization_from_mongo, subscript.
    rewrite H1, H2, H3, H4, H5, H6, H7, H8. by eexists.
  - intros key Hkey. unfold Organization_from_mongo in Hkey. first_missing; try done;
      injection Hkey as <-; (split; [done|]).
    + exists ["organizationId"; "name"; "description"; "email"; "role"; "token"; "active"], [].
      split; [done|]. repeat constructor; by eexists.
    + exists ["organizationId"; "name"; "description"; "email"; "role"; "token"], ["logo"].
      split; [done|]. repeat constructor; by eexists.
    + exists ["organizationId"; "name"; "description"; "email"; "role"], ["active"; "logo"].
      split; [done|]. repeat constructor; by eexists.
    + exists ["organizationId"; "name"; "description"; "email"], ["token"; "active"; "logo"].
      split; [done|]. repeat constructor; by eexists.
    + exists ["organizationId"; "name"; "description"], ["role"; "token"; "active"; "logo"].
      split; [done|]. repeat constructor; by eexists.
    + exists ["organizationId"; "name"], ["email"; "role"; "token"; "active"; "logo"].
      split; [done|]. repeat constructor; by eexists.
    + exists ["organizationId"], ["description"; "email"; "role"; "token"; "active"; "logo"].
      split; [done|]. repeat constructor; by eexists.
    + exists [], ["name"; "description"; "email"; "role"; "token"; "active"; "logo"].
      split; [done|]. constructor.
Qed.

(** X10: loading and writing line up: for a document that loads, the values
    [query_vars] hands to the INSERT statement are, column by column, the
    values of the document under organizationId, name, description, email,
    role, token, active, logo, createdAt and updatedAt, the timestamps
    replaced by the run's reference time where the document has none (a
    timestamp stored as null stays null). *)
Theorem Organization_query_vars_from_mongo (doc : gmap string PyValue) (now : datetime)
    (x : OrganizationObject) :
  Organization_from_mongo doc now = Built x →
  Some <$> Organization_query_vars x
    = ((doc !!.) <$> Organization_required)
      ++ [Some (default (PyDatetime now) (doc !! "createdAt"));
          Some (default (PyDatetime now) (doc !! "updatedAt"))] ∧
  org_integrity_ok x = true.
Proof.
  intros Hx. unfold Organization_from_mongo in Hx. first_missing; try done.
  injection Hx as <-. cbn. unfold dict_get.
  repeat match goal with H : _ !! _ = Some _ |- _ => rewrite H; clear H end. done.
Qed.

Lemma Organization_query_vars_from_mongo_witness :
  ∃ x, Organization_from_mongo organization_doc 7%Z = Built x ∧
       Some <$> Organization_query_vars x
         = ((organization_doc !!.) <$> Organization_required)
           ++ [Some (default (PyDatetime 7%Z) (organization_doc !! "createdAt"));
               Some (default (PyDatetime 7%Z) (organization_doc !! "updatedAt"))] ∧
       org_integrity_ok x = true.
Proof.
  eexists. split; [vm_compute; reflexivity|].
  apply (Organization_query_vars_from_mongo organization_doc 7%Z).
  vm_compute. reflexivity.
Defined.

(** X11: [ActionKey.from_mongo] never raises: a key the document lacks
    gives None. [AuditEntry.from_mongo] raises exactly when the document has
    no organizationId, and otherwise fills in the type
    'ListPackagesAuditEntry', the package id '' and the reference time for the
    keys the document lacks. Both start a record with the marker True. *)
Theorem from_mongo_defaults (doc : gmap string PyValue) (now : datetime) :
  (∃ x, ActionKey_from_mongo doc now = Built x ∧ ak_integrity_ok x = true ∧
        ActionKey_query_vars x
          = [default PyNone (doc !! "uuid"); default PyNone (doc !! "organizationId");
             default PyNone (doc !! "type"); default PyNone (doc !! "hash");
             default (PyDatetime now) (doc !! "createdAt")]) ∧
  (doc !! "organizationId" = None →
   AuditEntry_from_mongo doc now = KeyError "organizationId") ∧
  (∀ organization_id, doc !! "organizationId" = Some organization_id →
   ∃ x, AuditEntry_from_mongo doc now = Built x ∧ ae_integrity_ok x = true ∧
        ae_organization_id x = organization_id ∧
        ae_type x = default (PyStr "ListPackagesAuditEntry") (doc !! "type") ∧
        ae_instance_statistics x = default PyNone (doc !! "instanceStatistics") ∧
        ae_package_id x = default (PyStr "") (doc !! "packageId") ∧
        ae_created_at x = default (PyDatetime now) (doc !! "createdAt")).
Proof.
  split_and!.
  - by eexists.
  - intros Hnone. unfold AuditEntry_from_mongo, subscript. by rewrite Hnone.
  - intros organization_id Hsome. unfold AuditEntry_from_mongo, subscript.
    rewrite Hsome. by eexists.
Qed.

(** X12: for each of the three classes the values of [query_vars] are the
    attributes named by the [fields] of the class's INSERT statement, in the
    same order; the one exception is the instance statistics of an audit
    entry, handed over as their JSON text. *)
Theorem query_vars_match_fields (_wrap_json : PyValue → string) :
  (∀ self, Some <$> ActionKey_query_vars self = ActionKey_getattr self <$> ActionKey_fields) ∧
  (∀ self, Some <$> Organization_query_vars self
           = Organization_getattr self <$> Organization_fields) ∧
  (∀ self,
     Some <$> AuditEntry_query_vars _wrap_json self
     = (λ name, if decide (name = "instance_statistics")
                then Some (PyStr (_wrap_json (ae_instance_statistics self)))
                else AuditEntry_getattr self name) <$> AuditEntry_fields).
Proof. by split_and!. Qed.

(** * Further properties of the pipeline *)

(** ** What [perform] says *)

Lemma perform_app (env : Env) (n : nat) (p1 p2 : list Event) :
  perform env n (p1 ++ p2)
  = if (perform env n p1).1
    then ((perform env (n + length p1) p2).1, p1 ++ (perform env (n + length p1) p2).2)
    else (false, (perform env n p1).2).
Proof.
  revert n. induction p1 as [|ev p1 IH]; intros n.
  - simpl. rewrite Nat.add_0_r. by destruct (perform env n p2).
  - cbn [perform app length]. destruct (negb (is_log ev) && raises env n); [done|].
    rewrite IH. cbn [fst snd]. replace (n + S (length p1)) with (S n + length p1) by lia.
    by destruct (perform env (S n) p1).1.
Qed.

Lemma perform_ok (env : Env) (n : nat) (plan : list Event) :
  (perform env n plan).1 = true → (perform env n plan).2 = plan.
Proof.
  revert n. induction plan as [|ev plan IH]; intros n; [done|].
  cbn [perform]. destruct (negb (is_log ev) && raises env n); [done|].
  cbn [fst snd]. intros Hok. by rewrite IH.
Qed.

Lemma perform_failed (env : Env) (n : nat) (plan : list Event) :
  (perform env n plan).1 = false → cut_at env n plan (perform env n plan).2.
Proof.
  revert n. induction plan as [|ev plan IH]; intros n; [done|].
  cbn [perform]. destruct (negb (is_log ev) && raises env n) eqn:Hev.
  - intros _. apply andb_true_iff in Hev as [Hlog%negb_true_iff Hraises].
    exists [], ev, plan. rewrite Nat.add_0_r. done.
  - cbn [fst snd]. intros Hfailed.
    destruct (IH (S n) Hfailed) as (before & ev' & after & -> & -> & Hlog & Hraises).
    exists (ev :: before), ev', after. split_and!; try done.
    cbn [length]. by replace (n + S (length before)) with (S n + length before) by lia.
Qed.

Lemma perform_no_failure (env : Env) (n : nat) (plan : list Event) :
  (∀ k, raises env k = false) → perform env n plan = (true, plan).
Proof.
  intros Hno. revert n. induction plan as [|ev plan IH]; intros n; [done|].
  cbn [perform]. rewrite Hno, andb_false_r, IH. done.
Qed.

Lemma perform_logs (env : Env) (n : nat) (plan : list Event) :
  Forall (λ ev, is_log ev = true) plan → perform env n plan = (true, plan).
Proof.
  intros Hlogs. revert n. induction Hlogs as [|ev plan Hev _ IH]; intros n; [done|].
  cbn [perform]. by rewrite Hev, IH.
Qed.

Lemma cut_at_prefix (env : Env) (n : nat) (plan evs : list Event) :
  cut_at env n plan evs → evs `prefix_of` plan ∧ evs ≠ plan ∨ evs = plan.
Proof.
  intros (before & ev & after & -> & -> & _). destruct after as [|ev' after]; [by right|].
  left. split.
  - exists (ev' :: after). by rewrite <- app_assoc.
  - intros Heq%(f_equal length). rewrite !length_app in Heq. simpl in Heq. lia.
Qed.

(** ** Rules for [performs] *)

Section PerformsRules.
Context (env : Env) (options : MigrationOptions) (E : RegistryEntities).

Lemma performs_ret {A : Type} (a : A) : performs env E (mret a : Run A) [] a.
Proof. intros [E' en t] <-. simpl. by rewrite app_nil_r. Qed.

Lemma performs_log (ev : Event) : is_log ev = true → performs env E (log ev) [ev] ().
Proof. intros Hlog w <-. cbn [perform]. by rewrite Hlog. Qed.

Lemma performs_call (ev : Event) : is_log ev = false → performs env E (call env ev) [ev] ().
Proof.
  intros Hlog w <-. cbn [perform]. rewrite Hlog. unfold call.
  by destruct (raises env _).
Qed.

Lemma performs_bind {A B : Type} (c : Run A) (k : A → Run B) (p1 p2 : list Event)
    (a : A) (b : B) :
  performs env E c p1 a → performs env E (k a) p2 b → performs env E (c ≫= k) (p1 ++ p2) b.
Proof.
  intros Hc Hk w HE. unfold mbind, Run_bind. rewrite (Hc w HE), perform_app.
  destruct (perform env (length (trace w)) p1).1 eqn:Hok; [|done].
  rewrite (perform_ok _ _ _ Hok), Hk by done. cbn [trace entropy fst snd].
  by rewrite length_app, <- app_assoc.
Qed.

Lemma performs_get_entities {B : Type} (k : RegistryEntities → Run B)
    (p : list Event) (b : B) :
  performs env E (k E) p b → performs env E (get_entities ≫= k) p b.
Proof.
  intros Hk w HE. unfold mbind, Run_bind, get_entities. rewrite HE. by apply Hk.
Qed.

Lemma performs_unless_dry_run (c : Run unit) (p : list Event) :
  performs env E c p () →
  performs env E (unless_dry_run options c) (if dry_run options then [] else p) ().
Proof.
  intros Hc. unfold unless_dry_run. destruct (dry_run options); simpl; [|done].
  apply performs_ret.
Qed.

Lemma performs_plan_eq {A : Type} (c : Run A) (p p' : list Event) (a : A) :
  p = p' → performs env E c p a → performs env E c p' a.
Proof. by intros ->. Qed.

Lemma _run_insert_performs (entity : EntityClass) (disable_triggers : bool) :
  performs env E (_run_insert env entity disable_triggers)
    (run_insert_plan E entity disable_triggers) ().
Proof.
  unfold _run_insert, run_insert_plan. apply performs_get_entities.
  eapply performs_bind; [by apply performs_log|].
  eapply performs_bind;
    [destruct disable_triggers; [by apply performs_call | apply performs_ret]|].
  eapply performs_bind; [by apply performs_call|].
  destruct disable_triggers; [by apply performs_call | apply performs_ret].
Qed.

Lemma insert_batches_performs :
  performs env E
    (for_each (_INSERT_ARGS) (λ '(entity, disable_triggers),
       _run_insert env entity disable_triggers))
    (insert_batches E) ().
Proof.
  unfold insert_batches, _INSERT_ARGS. cbn [for_each].
  eapply performs_plan_eq;
    [|repeat (eapply performs_bind; [apply _run_insert_performs|]); apply performs_ret].
  by rewrite app_nil_r.
Qed.

Lemma cleanup_postgres_body_performs :
  performs env E
    (call env PgNewCursor;;
     for_each _TABLES_CLEANUP (λ table,
       call env (PgExecuteDelete table);;
       log (LogDeleted table (rowcount env table)));;
     unless_dry_run options (call env PgCommit))
    (cleanup_postgres_plan env options) ().
Proof.
  unfold cleanup_postgres_plan, _TABLES_CLEANUP. cbn [for_each].
  eapply performs_plan_eq; [|eapply performs_bind; [by apply performs_call|];
    eapply performs_bind;
    [repeat (eapply performs_bind;
             [eapply performs_bind; [by apply performs_call | by apply performs_log]|]);
     apply performs_ret
    |by apply performs_unless_dry_run, performs_call]].
  done.
Qed.

Lemma cleanup_s3_performs :
  performs env E (cleanup_s3 env options) (cleanup_s3_plan env options) ().
Proof.
  unfold cleanup_s3, cleanup_s3_plan.
  eapply (performs_bind _ _ [_]); [by apply performs_call|].
  destruct (bucket_exists env).
  - eapply (performs_bind _ _ [_]); [by apply performs_call|].
    destruct (decide (0 < count_templates env)); [|apply performs_ret].
    by apply performs_unless_dry_run, performs_call.
  - by apply performs_unless_dry_run, performs_call.
Qed.

Lemma migrate_template_assets_loop_performs (assets : list TemplateAsset.t)
    (counter skipped : nat) :
  performs env E (migrate_template_assets_loop env options assets counter skipped)
    (concat (asset_plan env options <$> assets))
    (counter + length (filter (has_payload env) assets),
     skipped + length (filter (λ asset, ¬ has_payload env asset) assets)).
Proof.
  revert counter skipped. induction assets as [|asset rest IH]; intros counter skipped.
  - simpl. rewrite !Nat.add_0_r. apply performs_ret.
  - cbn [migrate_template_assets_loop]. rewrite fmap_cons. cbn [concat].
    rewrite !filter_cons.
    destruct (decide (has_payload env asset)) as [Hp|Hp].
    + rewrite decide_False by tauto.
      replace (counter + length (asset :: filter (has_payload env) rest))
        with (S counter + length (filter (has_payload env) rest)) by (simpl; lia).
      unfold asset_plan at 1. destruct Hp as [data Hdata]. rewrite Hdata.
      eapply performs_plan_eq;
        [|eapply performs_bind; [by apply performs_call|];
          eapply performs_bind;
          [by apply performs_unless_dry_run, performs_call | apply IH]].
      done.
    + rewrite decide_True by done.
      replace (skipped + length (asset :: filter (λ a, ¬ has_payload env a) rest))
        with (S skipped + length (filter (λ a, ¬ has_payload env a) rest))
        by (simpl; lia).
      unfold asset_plan at 1.
      destruct (fetch_asset env _) as [data|] eqn:Hdata; [by destruct Hp; eexists|].
      eapply performs_plan_eq;
        [|eapply performs_bind; [by apply performs_call|];
          eapply performs_bind; [by apply performs_log | apply IH]].
      done.
Qed.

Lemma migrate_template_assets_performs :
  performs env E (migrate_template_assets env options)
    (migrate_template_assets_plan env options E) ().
Proof.
  unfold migrate_template_assets, migrate_template_assets_plan.
  apply performs_get_entities.
  eapply performs_bind; [by apply performs_log|].
  eapply performs_bind; [apply migrate_template_assets_loop_performs|].
  by apply performs_log.
Qed.
End PerformsRules.

Lemma cut_at_last (env : Env) (n : nat) (base evs : list Event) (x : Event) :
  cut_at env n (base ++ [x]) evs → x ∉ base → x ∈ evs →
  evs = base ++ [x] ∧ raises env (n + length base) = true.
Proof.
  intros (before & ev & after & Hplan & -> & _ & Hraises) Hbase Hx.
  destruct (decide (after = [])) as [->|Hafter].
  - apply app_inj_tail in Hplan as [-> ->]. done.
  - destruct (exists_last Hafter) as (after' & x' & ->).
    change (before ++ ev :: after' ++ [x']) with (before ++ (ev :: after') ++ [x']) in Hplan.
    rewrite app_assoc in Hplan. apply app_inj_tail in Hplan as [-> ->].
    destruct Hbase. apply elem_of_app in Hx as [Hx|Hx%list_elem_of_singleton].
    + apply elem_of_app. by left.
    + subst ev. apply elem_of_app. right. by left.
Qed.

Lemma cut_at_base (env : Env) (n : nat) (base evs : list Event) (x : Event) :
  cut_at env n base evs → x ∉ base → x ∉ evs.
Proof.
  intros (before & ev & after & -> & -> & _) Hbase Hx. destruct Hbase.
  apply elem_of_app in Hx as [Hx|Hx%list_elem_of_singleton].
  - apply elem_of_app. by left.
  - subst ev. apply elem_of_app. right. by left.
Qed.

Lemma cleanup_postgres_plan_nodup (env : Env) (options : MigrationOptions) :
  NoDup (cleanup_postgres_plan env options).
Proof.
  unfold cleanup_postgres_plan. destruct (dry_run options); cbn [app];
    repeat (apply NoDup_cons; split;
            [rewrite ?elem_of_cons, elem_of_nil; naive_solver|]);
    apply NoDup_nil_2.
Qed.

(** X13: [cleanup_postgres] lets no exception escape: it ends normally,
    having issued the DELETE of each of the seven tables (action keys, audit
    entries, organizations, template assets, template files, templates,
    packages, in this order) and then, unless the run is a dry run, the
    commit; or it ends the run with the critical error 'PostgreSQL' at the
    first call that raises. The commit is the last call, so a failure of
    anything before it leaves the deletions uncommitted. The entities and the
    random generator are not touched. *)
Theorem cleanup_postgres_never_raises (env : Env) (options : MigrationOptions) (w : World) :
  let r := cleanup_postgres env options w in
  entities r.2 = entities w ∧ entropy r.2 = entropy w ∧
  (∀ table, PgExecuteDelete table ∈ cleanup_postgres_plan env options) ∧
  ∃ evs, trace r.2 = trace w ++ evs ∧
    (r.1 = Done () ∧ evs = cleanup_postgres_plan env options
     ∨ r.1 = Exit "PostgreSQL" ∧
       cut_at env (length (trace w)) (cleanup_postgres_plan env options) evs ∧
       (PgCommit ∈ evs → evs = cleanup_postgres_plan env options)) ∧
    (PgCommit ∈ evs → dry_run options = false ∧
       ∀ table, ∃ before after, evs = before ++ PgCommit :: after ∧
                                PgExecuteDelete table ∈ before).
Proof.
  intros r. subst r. unfold cleanup_postgres, try_except.
  rewrite (cleanup_postgres_body_performs env options (entities w) w eq_refl).
  assert (Hall : ∀ table, PgExecuteDelete table ∈ cleanup_postgres_plan env options).
  { intros table. unfold cleanup_postgres_plan. apply elem_of_app. left.
    destruct table; rewrite !elem_of_cons; tauto. }
  assert (Hcommit : PgCommit ∈ cleanup_postgres_plan env options →
            dry_run options = false ∧
            ∀ table, ∃ before after,
              cleanup_postgres_plan env options = before ++ PgCommit :: after ∧
              PgExecuteDelete table ∈ before).
  { unfold cleanup_postgres_plan. destruct (dry_run options).
    - rewrite app_nil_r, !elem_of_cons, elem_of_nil. naive_solver.
    - intros _. split; [done|]. intros table. eexists _, []. split; [done|].
      destruct table; rewrite !elem_of_cons; tauto. }
  assert (Hlast : ∀ evs, cut_at env (length (trace w)) (cleanup_postgres_plan env options) evs →
            PgCommit ∈ evs → evs = cleanup_postgres_plan env options).
  { intros evs Hcut Hin. revert Hcut. unfold cleanup_postgres_plan.
    destruct (dry_run options).
    - rewrite app_nil_r. intros Hcut. eapply cut_at_base in Hcut; [done|].
      rewrite !elem_of_cons, elem_of_nil. naive_solver.
    - intros Hcut. eapply cut_at_last in Hcut as [-> _]; [done| |done].
      rewrite !elem_of_cons, elem_of_nil. naive_solver. }
  destruct (perform env (length (trace w)) (cleanup_postgres_plan env options)).1 eqn:Hok.
  - rewrite (perform_ok _ _ _ Hok). cbn [fst snd entities entropy trace].
    split_and!; try done. eexists. split; [done|]. split; [by left|]. done.
  - apply perform_failed in Hok. unfold critical. cbn [fst snd entities entropy trace].
    split_and!; try done. eexists. split; [reflexivity|]. split; [right; split_and!; [done | done | by apply Hlast]|].
    intros Hin. pose proof (Hlast _ Hok Hin) as Heq. rewrite Heq in Hin |- *.
    by apply Hcommit.
Qed.

(** X14: [cleanup_s3] catches nothing: a call to the object store that raises
    ends it with that exception. It asks whether the bucket exists; counts
    the templates only when it does; deletes them only when the count is
    positive and the run is no dry run; creates the bucket only when it does
    not exist and the run is no dry run. It never both deletes and creates. *)
Theorem cleanup_s3_outcome (env : Env) (options : MigrationOptions) (w : World) :
  let r := cleanup_s3 env options w in
  entities r.2 = entities w ∧ entropy r.2 = entropy w ∧
  ∃ evs, trace r.2 = trace w ++ evs ∧
    (r.1 = Done () ∧ evs = cleanup_s3_plan env options
     ∨ r.1 = Raised ∧ cut_at env (length (trace w)) (cleanup_s3_plan env options) evs) ∧
    (S3CountTemplates ∈ evs → bucket_exists env = true) ∧
    (S3DeleteTemplates ∈ evs →
       bucket_exists env = true ∧ 0 < count_templates env ∧ dry_run options = false) ∧
    (S3EnsureBucket ∈ evs → bucket_exists env = false ∧ dry_run options = false) ∧
    (r.1 = Done () → dry_run options = false →
       (bucket_exists env = false → S3EnsureBucket ∈ evs) ∧
       (bucket_exists env = true → 0 < count_templates env → S3DeleteTemplates ∈ evs)).
Proof.
  intros r. subst r.
  rewrite (cleanup_s3_performs env options (entities w) w eq_refl).
  cbn [fst snd entities entropy trace]. split_and!; try done.
  exists (perform env (length (trace w)) (cleanup_s3_plan env options)).2.
  split; [done|].
  assert (Hprefix : ∀ ev, ev ∈ (perform env (length (trace w)) (cleanup_s3_plan env options)).2 →
                          ev ∈ cleanup_s3_plan env options).
  { intros ev Hev.
    destruct (perform env (length (trace w)) (cleanup_s3_plan env options)).1 eqn:Hok.
    - by rewrite (perform_ok _ _ _ Hok) in Hev.
    - apply perform_failed in Hok as (before & ev' & after & Hplan & Hevs & _).
      rewrite Hevs in Hev. rewrite Hplan.
      rewrite elem_of_app, list_elem_of_singleton in Hev.
      rewrite elem_of_app, elem_of_cons. tauto. }
  split_and!.
  - destruct (perform env (length (trace w)) (cleanup_s3_plan env options)).1 eqn:Hok.
    + left. by rewrite (perform_ok _ _ _ Hok).
    + right. split; [done|]. by apply perform_failed.
  - intros Hin%Hprefix. revert Hin. unfold cleanup_s3_plan.
    destruct (bucket_exists env), (dry_run options); [done | done | |];
      rewrite ?elem_of_cons, ?elem_of_nil; naive_solver.
  - intros Hin%Hprefix. revert Hin. unfold cleanup_s3_plan.
    destruct (bucket_exists env), (dry_run options),
      (decide (0 < count_templates env));
      rewrite ?elem_of_cons, ?elem_of_nil; naive_solver.
  - intros Hin%Hprefix. revert Hin. unfold cleanup_s3_plan.
    destruct (bucket_exists env), (dry_run options),
      (decide (0 < count_templates env));
      rewrite ?elem_of_cons, ?elem_of_nil; naive_solver.
  - destruct (perform env (length (trace w)) (cleanup_s3_plan env options)).1 eqn:Hok;
      [|done].
    rewrite (perform_ok _ _ _ Hok). intros _ Hdry. unfold cleanup_s3_plan.
    rewrite Hdry. split.
    + intros ->. rewrite !elem_of_cons. tauto.
    + intros -> Hcount. rewrite decide_True by done. rewrite !elem_of_cons. tauto.
Qed.

(** ** Loading *)

Section ProceedsRules.
Context (env : Env).

Lemma proceeds_call (E : RegistryEntities) (ev : Event) :
  is_log ev = false → proceeds env E E (call env ev) [ev] ().
Proof.
  intros Hlog w <-. cbn [perform]. rewrite Hlog. unfold call.
  by destruct (raises env _).
Qed.

Lemma proceeds_ret (E : RegistryEntities) : proceeds env E E (mret () : Run unit) [] ().
Proof. intros w <-. simpl. by rewrite app_nil_r. Qed.

Lemma proceeds_bind {A B : Type} (E E1 E2 : RegistryEntities) (c : Run A) (k : A → Run B)
    (p1 p2 : list Event) (a : A) (b : B) :
  _result E1 = _result E →
  proceeds env E E1 c p1 a → proceeds env E1 E2 (k a) p2 b →
  proceeds env E E2 (c ≫= k) (p1 ++ p2) b.
Proof.
  intros Hresult Hc Hk w HE. destruct (Hc w HE) as (Hout & Htrace & Hentropy & Hres & HE1).
  unfold mbind, Run_bind. rewrite perform_app.
  destruct (perform env (length (trace w)) p1).1 eqn:Hok.
  - rewrite (perform_ok _ _ _ Hok) in Htrace.
    destruct (c w) as [[a'| | |] w1]; simpl in Hout; try done. injection Hout as ->.
    simpl in *. destruct (Hk w1 (HE1 eq_refl)) as (Hout2 & Htrace2 & Hentropy2 & Hres2 & HE2).
    rewrite Htrace, length_app in Hout2, Htrace2, HE2. cbn [fst snd].
    split_and!; try done.
    + by rewrite Htrace2, app_assoc.
    + congruence.
    + congruence.
  - destruct (c w) as [[a'| | |] w1]; simpl in *; done.
Qed.

Lemma proceeds_set_loaded (E : RegistryEntities) (entity : EntityClass) :
  proceeds env E (loaded env entity E) (set_loaded env entity) [] ().
Proof.
  intros w <-. unfold set_loaded, loaded. cbn [perform fst snd entities trace entropy].
  rewrite app_nil_r. split_and!; try done. by destruct entity.
Qed.

Lemma load_proceeds (E : RegistryEntities) :
  proceeds env E (set_result (_result E) (mongo env)) (load env) load_plan ().
Proof.
  unfold load, load_plan, _LOAD_ENTITIES_SIMPLE, _LOAD_ENTITIES_NESTED. cbn [for_each].
  eapply (proceeds_bind _ _ _ _ _ [_]); [|by apply proceeds_call|]; [done|].
  eapply (proceeds_bind _ _ _ _ _ [_; _; _; _; _] [_; _]); cycle 1.
  - do 5 (eapply (proceeds_bind _ _ _ _ _ [_] _); cycle 1;
          [eapply (proceeds_bind _ _ _ _ _ [_] []);
           [|by apply proceeds_call|apply proceeds_set_loaded]; done| |done]).
    apply proceeds_ret.
  - do 2 (eapply (proceeds_bind _ _ _ _ _ [_] _); cycle 1;
          [eapply (proceeds_bind _ _ _ _ _ [_] []);
           [|by apply proceeds_call|apply proceeds_set_loaded]; done| |done]).
    apply proceeds_ret.
  - done.
Qed.
End ProceedsRules.

(** X15: [load] replaces all seven lists of the entities by what the source
    store returns, whatever they held before, and leaves the messages of the
    last verification and the random generator as they are. It calls
    update_now first, loads action keys, audit entries, organizations,
    packages and templates, then the assets and the files nested in the
    templates. It catches nothing: a call that raises ends it with that
    exception. *)
Theorem load_replaces_entities (env : Env) (w : World) :
  let r := load env w in
  entropy r.2 = entropy w ∧ _result (entities r.2) = _result (entities w) ∧
  ∃ evs, trace r.2 = trace w ++ evs ∧
    (r.1 = Done () ∧ evs = load_plan ∧
     entities r.2 = set_result (_result (entities w)) (mongo env) ∧
     (∀ entity, list_by_entity_by_name entity (entities r.2)
                = Some (entries_by_entity entity (mongo env)))
     ∨ r.1 = Raised ∧ cut_at env (length (trace w)) load_plan evs).
Proof.
  intros r. subst r.
  destruct (load_proceeds env (entities w) w eq_refl)
    as (Hout & Htrace & Hentropy & Hresult & HE).
  split_and!; try done. eexists. split; [done|].
  destruct (perform env (length (trace w)) load_plan).1 eqn:Hok.
  - left. rewrite (perform_ok _ _ _ Hok), (HE eq_refl). split_and!; try done.
    intros entity. by destruct entity.
  - right. split; [done|]. by apply perform_failed.
Qed.

(** ** Failures during the insertion *)

Lemma insert_batches_no_commit (E : RegistryEntities) : PgCommit ∉ insert_batches E.
Proof.
  unfold insert_batches, run_insert_plan.
  rewrite !elem_of_app, !elem_of_cons, !elem_of_nil. naive_solver.
Qed.

(** X16: how [insert] can end. It ends normally after the seven batches and,
    unless the run is a dry run, the commit. A batch that fails is not caught:
    its exception escapes, and no commit has been issued. Only a failing
    commit is turned into the critical error 'PostgreSQL'; it is issued after
    all seven batches went through and never in a dry run. *)
Theorem insert_failure_modes (env : Env) (options : MigrationOptions) (w : World) :
  let r := insert env options w in
  let E := entities w in
  insert_plan options E = insert_batches E ++ (if dry_run options then [] else [PgCommit]) ∧
  ∃ evs, trace r.2 = trace w ++ evs ∧
    (r.1 = Done () ∧ evs = insert_plan options E
     ∨ r.1 = Raised ∧ cut_at env (length (trace w)) (insert_batches E) evs ∧ PgCommit ∉ evs
     ∨ r.1 = Exit "PostgreSQL" ∧ dry_run options = false ∧ evs = insert_plan options E ∧
       raises env (length (trace w) + length (insert_batches E)) = true).
Proof.
  intros r E. subst r E.
  assert (Hplan : insert_plan options (entities w)
            = insert_batches (entities w) ++ (if dry_run options then [] else [PgCommit])).
  { unfold insert_plan, insert_batches. by rewrite <- !app_assoc. }
  split; [done|]. rewrite Hplan. unfold insert, mbind, Run_bind.
  rewrite (insert_batches_performs env (entities w) w eq_refl).
  destruct (perform env (length (trace w)) (insert_batches (entities w))).1 eqn:Hok.
  - rewrite (perform_ok _ _ _ Hok). unfold try_except, unless_dry_run.
    destruct (dry_run options); cbn [negb].
    + exists (insert_batches (entities w)). split; [done|]. left. by rewrite app_nil_r.
    + unfold call, critical. cbn [trace]. rewrite length_app.
      destruct (raises env _) eqn:Hraises;
        (eexists; split; [cbn [snd trace emit]; by rewrite <- app_assoc|]).
      * right. right. done.
      * left. done.
  - eexists. split; [done|]. right. left. apply perform_failed in Hok.
    split_and!; [done | done |]. eapply cut_at_base; [done|]. apply insert_batches_no_commit.
Qed.

Lemma bind_raised {A B : Type} (c : Run A) (k : A → Run B) (w w1 : World) :
  c w = (Raised, w1) → (c ≫= k) w = (Raised, w1).
Proof. unfold mbind, Run_bind. by intros ->. Qed.

(** X17: when the batch of the packages fails, after the triggers of the
    package table were disabled, [insert] ends with that exception at once:
    the triggers are not enabled again, no other batch is tried and nothing
    is committed. *)
Theorem insert_failed_package_batch (env : Env) (options : MigrationOptions) (w : World) :
  raises env (S (length (trace w))) = false →
  raises env (S (S (length (trace w)))) = true →
  let instances := entries_by_entity Package (entities w) in
  let ok_instances := filter (λ x, entry_integrity_ok x = true) instances in
  insert env options w
  = (Raised,
     {| entities := entities w; entropy := entropy w;
        trace := trace w ++ [LogInsert Package (length ok_instances) (length instances);
                             PgDisableTriggers Package;
                             PgExecuteLoop Package ok_instances] |}).
Proof.
  intros Hdisable Hbatch instances ok_instances.
  assert (Hfirst : _run_insert env Package true w
            = (Raised,
               {| entities := entities w; entropy := entropy w;
                  trace := trace w ++ [LogInsert Package (length ok_instances)
                                         (length instances);
                                       PgDisableTriggers Package;
                                       PgExecuteLoop Package ok_instances] |})).
  { rewrite (_run_insert_performs env (entities w) Package true w eq_refl).
    unfold run_insert_plan. cbn [app perform is_log negb andb fst snd].
    by rewrite Hdisable, Hbatch. }
  unfold insert, _INSERT_ARGS. apply bind_raised. cbn [for_each]. by apply bind_raised.
Qed.

Lemma insert_failed_package_batch_witness :
  insert failing_batch_env real_run_options sample_world
  = (Raised,
     {| entities := no_entities; entropy := sample_entropy;
        trace := [LogInsert Package 0 0; PgDisableTriggers Package;
                  PgExecuteLoop Package []] |}).
Proof.
  apply (insert_failed_package_batch failing_batch_env real_run_options sample_world);
    reflexivity.
Defined.

(** ** Parents before children *)








(** ** The transfer of the assets *)

Lemma elem_of_concat {X : Type} (x : X) (ls : list (list X)) :
  x ∈ concat ls → ∃ l, l ∈ ls ∧ x ∈ l.
Proof.
  induction ls as [|l ls IH]; simpl; [by intros ?%elem_of_nil|].
  intros [Hl|Hls]%elem_of_app.
  - exists l. split; [left | done].
  - destruct (IH Hls) as (l' & ? & ?). exists l'. split; [by right | done].
Qed.

Lemma filter_payload_split (env : Env) (assets : list TemplateAsset.t) :
  length (filter (has_payload env) assets)
  + length (filter (λ asset, ¬ has_payload env asset) assets) = length assets.
Proof.
  induction assets as [|asset rest IH]; [done|].
  rewrite !filter_cons. destruct (decide (has_payload env asset)).
  - rewrite decide_False by tauto. simpl. lia.
  - rewrite decide_True by done. simpl. lia.
Qed.

Lemma asset_plans_stores (env : Env) (options : MigrationOptions)
    (assets : list TemplateAsset.t) :
  filter (λ ev, persists ev = true) (concat (asset_plan env options <$> assets))
  = if dry_run options then [] else omap (store_call env) assets.
Proof.
  induction assets as [|asset rest IH]; [by destruct (dry_run options)|].
  rewrite fmap_cons. cbn [concat omap list_omap]. rewrite filter_app, IH.
  unfold asset_plan, store_call at 2.
  destruct (fetch_asset env _) as [data|]; [|by destruct (dry_run options)].
  by destruct (dry_run options).
Qed.

Lemma omap_store_call_length (env : Env) (assets : list TemplateAsset.t) :
  length (omap (store_call env) assets) = length (filter (has_payload env) assets).
Proof.
  induction assets as [|asset rest IH]; [done|].
  cbn [omap list_omap]. rewrite filter_cons.
  destruct (decide (has_payload env asset)) as [[data Hdata]|Hnone].
  - unfold store_call at 1. rewrite Hdata. simpl. by rewrite IH.
  - unfold store_call at 1.
    destruct (fetch_asset env _) as [data|] eqn:Hdata; [|done].
    destruct Hnone. by eexists.
Qed.

(** X19: [migrate_template_assets] goes through the assets whose marker is
    not False, in list order. An asset without payload in the source store is
    logged and skipped, it ends nothing. The final line reports as stored the
    number of assets that have a payload, and as skipped the number of those
    that have none; the two add up to the number of assets gone through. The
    store is called once for each asset with a payload, in order, and not at
    all in a dry run, in which the final line reports the same numbers. A
    call that raises ends the transfer with that exception, before the final
    line. *)
Theorem migrate_template_assets_tally (env : Env) (options : MigrationOptions) (w : World) :
  let r := migrate_template_assets env options w in
  let assets := valid_entries TemplateAsset.t (entities w) in
  let plan := migrate_template_assets_plan env options (entities w) in
  let counter := length (filter (has_payload env) assets) in
  let skipped := length (filter (λ asset, ¬ has_payload env asset) assets) in
  counter + skipped = length assets ∧
  last plan = Some (LogAssetsStored counter skipped) ∧
  filter (λ ev, persists ev = true) plan
    = (if dry_run options then [] else omap (store_call env) assets) ∧
  length (omap (store_call env) assets) = counter ∧
  entities r.2 = entities w ∧
  ((∀ n, raises env n = false) → r.1 = Done ()) ∧
  ∃ evs, trace r.2 = trace w ++ evs ∧
    (r.1 = Done () ∧ evs = plan
     ∨ r.1 = Raised ∧ cut_at env (length (trace w)) plan evs ∧
       ∀ counter skipped, LogAssetsStored counter skipped ∉ evs).
Proof.
  intros r assets plan counter skipped. subst r assets plan counter skipped.
  rewrite (migrate_template_assets_performs env options (entities w) w eq_refl).
  cbn [fst snd entities trace].
  split_and!.
  - apply filter_payload_split.
  - unfold migrate_template_assets_plan.
    by rewrite app_assoc, last_snoc.
  - unfold migrate_template_assets_plan.
    rewrite !filter_app, asset_plans_stores. cbn. by rewrite app_nil_r.
  - apply omap_store_call_length.
  - done.
  - intros Hno. by rewrite perform_no_failure.
  - eexists. split; [reflexivity|].
    destruct (perform env (length (trace w))
                (migrate_template_assets_plan env options (entities w))).1 eqn:Hok.
    + left. by rewrite (perform_ok _ _ _ Hok).
    + right. apply perform_failed in Hok. split_and!; [done | done |].
      intros counter skipped Hin.
      destruct Hok as (before & ev & after & Hplan & Hevs & Hlog & _).
      rewrite Hevs in Hin. unfold migrate_template_assets_plan in Hplan.
      rewrite app_assoc in Hplan.
      destruct (decide (after = [])) as [->|Hafter].
      * apply app_inj_tail in Hplan as [_ <-]. done.
      * destruct (exists_last Hafter) as (after' & x' & ->).
        change (before ++ ev :: after' ++ [x']) with (before ++ (ev :: after') ++ [x'])
          in Hplan.
        rewrite (app_assoc before) in Hplan. apply app_inj_tail in Hplan as [Hplan _].
        assert (Hin' : LogAssetsStored counter skipped
                         ∈ [LogAssets (length (valid_entries TemplateAsset.t (entities w)))]
                           ++ concat (asset_plan env options
                                        <$> valid_entries TemplateAsset.t (entities w))).
        { rewrite Hplan.
          rewrite elem_of_app, list_elem_of_singleton in Hin.
          rewrite elem_of_app, elem_of_cons. tauto. }
        apply elem_of_app in Hin' as [Hin'%list_elem_of_singleton|Hin']; [done|].
        apply elem_of_concat in Hin' as (p & Hp & Hin').
        apply list_elem_of_fmap in Hp as (asset & -> & _).
        unfold asset_plan in Hin'. rewrite elem_of_cons in Hin'.
        destruct Hin' as [?|Hin']; [done|].
        destruct (fetch_asset env _); [destruct (dry_run options)|];
          rewrite ?elem_of_cons, ?elem_of_nil in Hin'; naive_solver.
Qed.

(** ** Whole runs *)

(** What [check_integrity] returns, in one statement. *)
Lemma returned_verified (fuel : nat) (self : RegistryEntities) (e : Entropy) n self' e' :
  check_integrity fuel self e = Some (n, self', e') →
  only_flipped self self' ∧ consistent self' ∧ unique self' ∧
  (_result self' = [] → self' = set_result [] self).
Proof.
  intros Hrun. split_and!.
  - apply check_integrity_returned in Hrun as (u & _ & Hscanned & Hgrows & _).
    by eapply only_flipped_of_scanned_grows.
  - apply check_integrity_returned in Hrun as (u & _ & _ & _ & Hquiet & _).
    by apply new_violations_nil_consistent.
  - apply check_integrity_returned in Hrun as (u & Huniq & _ & Hgrows & _).
    by eapply grows_unique.
  - apply check_integrity_returned in Hrun as (u & Huniq & _ & Hgrows & _).
    by eapply grows_unchanged.
Qed.

Lemma bind_done_eq {A B : Type} (c : Run A) (k : A → Run B) (w w1 : World) (a : A) :
  c w = (Done a, w1) → (c ≫= k) w = k a w1.
Proof. unfold mbind, Run_bind. by intros ->. Qed.

Lemma bind_not_done {A B : Type} (c : Run A) (k : A → Run B) (w : World) :
  (∀ a, (c w).1 ≠ Done a) →
  ((c ≫= k) w).2 = (c w).2 ∧ ∀ b, ((c ≫= k) w).1 ≠ Done b.
Proof.
  unfold mbind, Run_bind. intros Hnot.
  destruct (c w) as [[a| | |] w1]; simpl in *; [by destruct (Hnot a)|done..].
Qed.

Lemma for_each_log {X : Type} (l : list X) (f : X → Event) (w : World) :
  for_each l (λ x, log (f x)) w
  = (Done (), {| entities := entities w; entropy := entropy w;
                 trace := trace w ++ (f <$> l) |}).
Proof.
  revert w. induction l as [|x l IH]; intros w.
  - simpl. rewrite app_nil_r. by destruct w.
  - cbn [for_each]. unfold mbind, Run_bind, log at 1. rewrite IH.
    cbn [emit entities entropy trace]. by rewrite fmap_cons, <- app_assoc.
Qed.

(** [RegistryMigrator.check_integrity], from what the verification
    returns. *)
Lemma migrator_check_integrity_run (options : MigrationOptions) (fuel : nat) (w : World)
    n self' e' :
  check_integrity fuel (entities w) (entropy w) = Some (n, self', e') →
  migrator_check_integrity options fuel w
  = (if aborts options (_result self') then Exit "Integrity" else Done (),
     {| entities := self'; entropy := e';
        trace := trace w ++ (LogViolation <$> _result self') |}).
Proof.
  intros Hrun. unfold migrator_check_integrity, mbind, Run_bind, entities_check_integrity.
  rewrite Hrun, for_each_log. cbn [entities entropy trace]. unfold aborts.
  by destruct (negb (fix_integrity options) && bool_decide (0 < length (_result self'))).
Qed.

Lemma migrator_check_integrity_done (options : MigrationOptions) (fuel : nat)
    (w w' : World) :
  migrator_check_integrity options fuel w = (Done (), w') →
  ∃ n, check_integrity fuel (entities w) (entropy w) = Some (n, entities w', entropy w') ∧
       aborts options (_result (entities w')) = false.
Proof.
  destruct (check_integrity fuel (entities w) (entropy w)) as [[[n self'] e']|] eqn:Hrun.
  - rewrite (migrator_check_integrity_run _ _ _ _ _ _ Hrun).
    destruct (aborts options (_result self')) eqn:Habort; [done|].
    intros [= <-]. by exists n.
  - unfold migrator_check_integrity, mbind, Run_bind, entities_check_integrity.
    by rewrite Hrun.
Qed.

Section NoFailure.
Context (env : Env) (options : MigrationOptions).
Hypothesis no_failure : ∀ i, raises env i = false.

Lemma performs_no_failure {A : Type} (E : RegistryEntities) (c : Run A)
    (plan : list Event) (a : A) (w : World) :
  performs env E c plan a → entities w = E →
  c w = (Done a, {| entities := E; entropy := entropy w; trace := trace w ++ plan |}).
Proof.
  intros Hc HE. rewrite (Hc w HE). by rewrite perform_no_failure.
Qed.

Lemma cleanup_postgres_no_failure (w : World) :
  cleanup_postgres env options w
  = (Done (), {| entities := entities w; entropy := entropy w;
                 trace := trace w ++ cleanup_postgres_plan env options |}).
Proof.
  unfold cleanup_postgres, try_except.
  by rewrite (performs_no_failure _ _ _ _ _ (cleanup_postgres_body_performs env options _)
                eq_refl).
Qed.

Lemma insert_no_failure (w : World) :
  insert env options w
  = (Done (), {| entities := entities w; entropy := entropy w;
                 trace := trace w ++ insert_plan options (entities w) |}).
Proof.
  unfold insert.
  rewrite (bind_done_eq _ _ _ _ _
             (performs_no_failure _ _ _ _ _ (insert_batches_performs env _) eq_refl)).
  unfold try_except, unless_dry_run, insert_plan, insert_batches, call.
  destruct (dry_run options); cbn [negb].
  - unfold mret, Run_ret. by rewrite app_nil_r.
  - rewrite no_failure. unfold emit. cbn [entities entropy trace].
    by rewrite <- !app_assoc.
Qed.

Lemma load_no_failure (w : World) :
  load env w
  = (Done (), {| entities := set_result (_result (entities w)) (mongo env);
                 entropy := entropy w; trace := trace w ++ load_plan |}).
Proof.
  destruct (load_proceeds env (entities w) w eq_refl) as (Hout & Htrace & Hentropy & _ & HE).
  rewrite perform_no_failure in Hout, Htrace, HE by done.
  destruct (load env w) as [o [E en t]]. simpl in *. rewrite (HE eq_refl). by subst.
Qed.
End NoFailure.

(** A run of [migrate] in which no store call fails, from what the
    verification of the loaded records returns. *)
Lemma migrate_no_failure (env : Env) (options : MigrationOptions) (fuel : nat) (w : World)
    n self' e' :
  (∀ i, raises env i = false) →
  check_integrity fuel (set_result (_result (entities w)) (mongo env)) (entropy w)
  = Some (n, self', e') →
  migrate env options fuel w
  = (if aborts options (_result self') then Exit "Integrity" else Done (),
     {| entities := self'; entropy := e';
        trace := trace w ++ migrate_plan env options self' |}).
Proof.
  intros Hno Hrun. unfold migrate, migrate_plan.
  rewrite (bind_done_eq _ _ _ _ _ (cleanup_postgres_no_failure env options Hno w)).
  rewrite (bind_done_eq _ _ _ _ _
             (performs_no_failure env Hno _ _ _ _ _
                (cleanup_s3_performs env options _) eq_refl)).
  rewrite (bind_done_eq _ _ _ _ _ (load_no_failure env Hno _)).
  cbn [entities entropy trace].
  unfold mbind at 1, Run_bind at 1.
  rewrite (migrator_check_integrity_run options _ _ n self' e') by done.
  cbn [entities entropy trace].
  destruct (aborts options (_result self')).
  - by rewrite app_nil_r, <- !app_assoc.
  - rewrite (bind_done_eq _ _ _ _ _ (insert_no_failure env options Hno _)).
    rewrite (performs_no_failure env Hno _ _ _ _ _
               (migrate_template_assets_performs env options _) eq_refl).
    cbn [entities entropy trace]. by rewrite <- !app_assoc.
Qed.

(** X20: a run of [migrate] in which no store call fails, with fuel for the
    reference loop. It cleans the target, loads the source and verifies it.
    When the verification reports something and --fix-integrity is not set,
    the run ends with the error 'Integrity': every violation was logged,
    nothing was inserted or transferred, and the target was cleaned before
    (for good, unless the run is a dry run). In every other case the run ends
    normally after the insertion and the asset transfer on the verified
    entities. *)
Theorem migrate_without_failure (env : Env) (options : MigrationOptions) (w : World)
    (k : nat) :
  (∀ i, raises env i = false) →
  ∃ n self' e',
    check_integrity (total_count (mongo env) + k)
      (set_result (_result (entities w)) (mongo env)) (entropy w)
    = Some (n, self', e') ∧
    migrate env options (total_count (mongo env) + k) w
    = (if aborts options (_result self') then Exit "Integrity" else Done (),
       {| entities := self'; entropy := e';
          trace := trace w ++ migrate_plan env options self' |}).
Proof.
  intros Hno.
  destruct (check_integrity_spec (set_result (_result (entities w)) (mongo env))
              (entropy w) k) as (n & u & self' & e' & _ & Hrun & _).
  change (total_count (set_result (_result (entities w)) (mongo env)))
    with (total_count (mongo env)) in Hrun.
  exists n, self', e'. split; [done|].
  exact (migrate_no_failure env options _ w n self' e' Hno Hrun).
Qed.

Lemma migrate_without_failure_witness :
  ∃ n self' e',
    check_integrity (total_count (mongo sample_env) + 0)
      (set_result (_result (entities sample_world)) (mongo sample_env))
      (entropy sample_world)
    = Some (n, self', e') ∧
    migrate sample_env real_run_options (total_count (mongo sample_env) + 0) sample_world
    = (if aborts real_run_options (_result self') then Exit "Integrity" else Done (),
       {| entities := self'; entropy := e';
          trace := trace sample_world ++ migrate_plan sample_env real_run_options self' |}).
Proof.
  apply (migrate_without_failure sample_env real_run_options sample_world 0).
  intros i. reflexivity.
Defined.

(** X21: whatever fails and however a run of [migrate] ends, once it has
    issued a call of the insertion (a batch, or the switch of the triggers)
    the entities it inserts from are verified: they are what the source store
    returned, with markers assigned False and nothing else changed; the
    references of the valid records resolve to valid records, and the valid
    records of a class have different identities. Without --fix-integrity no
    marker was changed: verification reported nothing, and the entities are
    exactly what the source store returned. *)
Theorem migrate_inserts_verified (env : Env) (options : MigrationOptions) (fuel : nat)
    (w : World) (evs : list Event) (ev : Event) :
  trace (migrate env options fuel w).2 = trace w ++ evs →
  ev ∈ evs → is_insert_call ev = true →
  let E := entities (migrate env options fuel w).2 in
  only_flipped (mongo env) E ∧ consistent E ∧ unique E ∧
  (fix_integrity options = false → E = set_result [] (mongo env)).
Proof.
  intros Htrace Hev Hcall E. subst E.
  set (I1 := since (trace w) (before_insert_event options)).
  assert (Hadmits : ∀ ev, before_insert_event options ev → admits I1 ev).
  { intros ev'. apply since_admits. }
  assert (Honly : trace_only I1) by apply since_trace_only.
  assert (Hnever : ∀ w1, I1 w1 → trace w1 = trace w ++ evs → False).
  { intros w1 (evs' & Hevs' & Hall) Hw1. rewrite Hevs' in Hw1.
    apply app_inv_head in Hw1. subst evs'.
    rewrite Forall_forall in Hall. specialize (Hall ev Hev).
    by destruct ev. }
  assert (Hstop : ∀ (c : Run unit) (k : unit → Run unit) w0,
            I1 w0 → keeps I1 c → (∀ a, (c w0).1 ≠ Done a) →
            trace ((c ≫= k) w0).2 = trace w ++ evs → False).
  { intros c k' w0 Hw0 Hkeeps Hnot Ht.
    destruct (bind_not_done c k' w0 Hnot) as [Heq _]. rewrite Heq in Ht.
    eapply Hnever; [|done]. by apply Hkeeps. }
  revert Htrace. unfold migrate.
  destruct (cleanup_postgres env options w) as [o1 w1] eqn:H1.
  assert (Hw1 : I1 w1).
  { replace w1 with (cleanup_postgres env options w).2 by (by rewrite H1).
    apply (cleanup_postgres_keeps env options); [done | apply since_refl]. }
  destruct o1 as [[]| | |]; cycle 1.
  1-3: intros Ht; exfalso; eapply (Hstop _ _ w); [apply since_refl | | |exact Ht];
    [by apply (cleanup_postgres_keeps env options) | by rewrite H1].
  rewrite (bind_done_eq _ _ _ _ _ H1).
  destruct (cleanup_s3 env options w1) as [o2 w2] eqn:H2.
  assert (Hw2 : I1 w2).
  { replace w2 with (cleanup_s3 env options w1).2 by (by rewrite H2).
    by apply (cleanup_s3_keeps env options). }
  destruct o2 as [[]| | |]; cycle 1.
  1-3: intros Ht; exfalso; eapply (Hstop _ _ w1); [done | | |exact Ht];
    [by apply (cleanup_s3_keeps env options) | by rewrite H2].
  rewrite (bind_done_eq _ _ _ _ _ H2).
  destruct (load env w2) as [o3 w3] eqn:H3.
  assert (Hw3 : I1 w3).
  { replace w3 with (load env w2).2 by (by rewrite H3).
    by apply (load_keeps env options). }
  destruct o3 as [[]| | |]; cycle 1.
  1-3: intros Ht; exfalso; eapply (Hstop _ _ w2); [done | | |exact Ht];
    [by apply (load_keeps env options) | by rewrite H3].
  rewrite (bind_done_eq _ _ _ _ _ H3).
  destruct (migrator_check_integrity options fuel w3) as [o4 w4] eqn:H4.
  destruct o4 as [[]| | |]; cycle 1.
  1-3: intros Ht; exfalso; eapply (Hstop _ _ w3); [done | | |exact Ht];
    [by apply (migrator_check_integrity_keeps options) | by rewrite H4].
  rewrite (bind_done_eq _ _ _ _ _ H4). intros _.
  destruct (insertion_events env options w4) as [-> _].
  apply migrator_check_integrity_done in H4 as (n & Hrun & Habort).
  destruct (load_proceeds env (entities w2) w2 eq_refl) as (Hout & _ & _ & _ & HE).
  rewrite H3 in Hout, HE. cbn [fst snd] in Hout, HE.
  destruct (perform env (length (trace w2)) load_plan).1; [|done].
  rewrite (HE eq_refl) in Hrun.
  apply returned_verified in Hrun as (Hflipped & Hconsistent & Hunique & Hsame).
  split_and!; try done.
  - by destruct Hflipped.
  - intros Hfix. unfold aborts in Habort. rewrite Hfix in Habort. simpl in Habort.
    apply bool_decide_eq_false in Habort.
    rewrite Hsame; [done|]. destruct (_result (entities w4)); [done|]. simpl in Habort. lia.
Qed.

Lemma migrate_inserts_verified_witness :
  let E := entities (migrate sample_env dry_run_options 5 sample_world).2 in
  only_flipped (mongo sample_env) E ∧ consistent E ∧ unique E ∧
  (fix_integrity dry_run_options = false → E = set_result [] (mongo sample_env)).
Proof.
  apply (migrate_inserts_verified sample_env dry_run_options 5 sample_world
           (trace (migrate sample_env dry_run_options 5 sample_world).2)
           (PgDisableTriggers Package)).
  - vm_compute. reflexivity.
  - vm_compute. repeat (first [left | right]).
  - reflexivity.
Defined.

(** * The uniqueness scan, position by position *)

Section FirstWins.
Context {A : Type} `{Entity A} `{!StoredId A}.

Lemma uniq_mark_lookup (unique_set : gset string) (items : list A) (i : nat) (x : A) :
  items !! i = Some x →
  uniq_mark unique_set items !! i
  = Some (if bool_decide (id_of x ∈ unique_set ∨ id_of x ∈ id_of <$> take i items)
          then set_integrity_ok false x else x).
Proof.
  revert unique_set i. induction items as [|item rest IH]; intros unique_set i; [done|].
  destruct i as [|i]; cbn [uniq_mark lookup list_lookup take fmap list_fmap].
  - intros [= ->]. f_equal. apply (f_equal (λ b : bool, if b then _ else _)).
    apply bool_decide_ext. rewrite elem_of_nil. tauto.
  - intros Hx. change (uniq_mark ({[id_of item]} ∪ unique_set) rest !! i = Some
       (if bool_decide (id_of x ∈ unique_set ∨ id_of x ∈ id_of item :: (id_of <$> take i rest))
        then set_integrity_ok false x else x)).
    rewrite (IH _ _ Hx). f_equal. apply (f_equal (λ b : bool, if b then _ else _)).
    apply bool_decide_ext. rewrite elem_of_union, elem_of_singleton, elem_of_cons. tauto.
Qed.

Lemma uniq_mark_length (unique_set : gset string) (items : list A) :
  length (uniq_mark unique_set items) = length items.
Proof.
  revert unique_set. induction items as [|item rest IH]; intros unique_set; [done|].
  simpl. by rewrite IH.
Qed.

Lemma uniq_msgs_elem_of (unique_set : gset string) (items : list A) (m : string) :
  m ∈ uniq_msgs unique_set items ↔
  ∃ i x, items !! i = Some x ∧
         (id_of x ∈ unique_set ∨ id_of x ∈ id_of <$> take i items) ∧
         m = "Duplicate ID for " +:+ __name__ +:+ ": " +:+ id_of x.
Proof.
  revert unique_set. induction items as [|item rest IH]; intros unique_set.
  - simpl. rewrite elem_of_nil. naive_solver.
  - cbn [uniq_msgs]. rewrite elem_of_app, IH. split.
    + intros [Hitem|(i & x & Hx & Hseen & ->)].
      * case_bool_decide as Hin; [|by apply elem_of_nil in Hitem].
        apply list_elem_of_singleton in Hitem as ->. exists 0, item. by split_and!; [|left|].
      * exists (S i), x. split_and!; [done| |done].
        cbn [take fmap list_fmap]. rewrite elem_of_cons.
        rewrite elem_of_union, elem_of_singleton in Hseen. tauto.
    + intros ([|i] & x & Hx & Hseen & ->).
      * injection Hx as ->. left. cbn [take fmap list_fmap] in Hseen.
        rewrite elem_of_nil in Hseen. rewrite bool_decide_eq_true_2 by tauto.
        by apply list_elem_of_singleton.
      * right. exists i, x. split_and!; [done| |done].
        cbn [take fmap list_fmap] in Hseen. rewrite elem_of_cons in Hseen.
        rewrite elem_of_union, elem_of_singleton. tauto.
Qed.

Lemma uniq_msgs_length (unique_set : gset string) (items : list A) :
  length (uniq_msgs unique_set items)
  + size (list_to_set (id_of <$> items) ∖ unique_set : gset string)
  = length items.
Proof.
  revert unique_set. induction items as [|item rest IH]; intros unique_set.
  - simpl. by rewrite difference_disjoint_L, size_empty by set_solver.
  - cbn [uniq_msgs fmap list_fmap list_to_set length]. rewrite length_app.
    specialize (IH ({[id_of item]} ∪ unique_set)).
    case_bool_decide as Hin.
    + replace (({[id_of item]} ∪ list_to_set (id_of <$> rest)) ∖ unique_set)
        with (list_to_set (id_of <$> rest) ∖ ({[id_of item]} ∪ unique_set) : gset string)
        by set_solver.
      simpl. lia.
    + assert (Hsplit : ({[id_of item]} ∪ list_to_set (id_of <$> rest)) ∖ unique_set
                = ({[id_of item]}
                   ∪ list_to_set (id_of <$> rest) ∖ ({[id_of item]} ∪ unique_set)
                   : gset string)).
      { apply set_eq. intros y.
        rewrite elem_of_difference, !elem_of_union, elem_of_difference, elem_of_union,
          !elem_of_singleton.
        destruct (decide (y = id_of item)) as [->|]; tauto. }
      rewrite Hsplit, size_union, size_singleton.
      * simpl. lia.
      * intros y. rewrite elem_of_singleton, elem_of_difference, elem_of_union,
          elem_of_singleton. tauto.
Qed.

(** X22: the uniqueness scan of a class whose identity is a stored field,
    for any number of records. The record at a position is assigned False
    exactly when a record before it in the list has the same identity,
    whatever the marker of that record; every other record is left as it is.
    So of the records that share an identity the first one in list order
    survives. One message is appended for each record assigned False, and
    their number is the number of records minus the number of different
    identities. No token is drawn. *)
Theorem check_uniqueness_first_wins `{!EntityList A} (self : RegistryEntities)
    (e : Entropy) :
  let items := list_by_entity self in
  ∃ items' msgs,
    _check_uniqueness A self e
      = (set_result (_result self ++ msgs) (set_list items' self), e) ∧
    length items' = length items ∧
    (∀ i x, items !! i = Some x →
       items' !! i = Some (if bool_decide (id_of x ∈ id_of <$> take i items)
                           then set_integrity_ok false x else x)) ∧
    (∀ m, m ∈ msgs ↔
       ∃ i x, items !! i = Some x ∧ id_of x ∈ id_of <$> take i items ∧
              m = "Duplicate ID for " +:+ __name__ +:+ ": " +:+ id_of x) ∧
    length msgs + size (list_to_set (id_of <$> items) : gset string) = length items.
Proof.
  intros items. subst items. unfold _check_uniqueness.
  rewrite _check_uniqueness_loop_stored.
  exists (uniq_mark ∅ (list_by_entity self)), (uniq_msgs ∅ (list_by_entity self)).
  split_and!.
  - done.
  - apply uniq_mark_length.
  - intros i x Hx. rewrite (uniq_mark_lookup _ _ _ _ Hx). f_equal.
    apply (f_equal (λ b : bool, if b then _ else _)).
    apply bool_decide_ext. rewrite elem_of_empty. tauto.
  - intros m. rewrite uniq_msgs_elem_of. setoid_rewrite elem_of_empty. naive_solver.
  - rewrite <- (uniq_msgs_length ∅ (list_by_entity self)).
    by rewrite difference_empty_L.
Qed.
End FirstWins.

(** * The verification flips no more than it must *)

Lemma check_again_loop_invariant (I : RegistryEntities → Prop) :
  (∀ self, I self → I (references_pass self)) →
  ∀ fuel check_again i self e n self' e',
    check_again_loop fuel check_again i self e = Some (n, self', e') → I self → I self'.
Proof.
  intros Hpass fuel. induction fuel as [|fuel IH]; intros check_again i self e n self' e'.
  - destruct check_again; simpl; [done|]. by intros [= _ <- _].
  - destruct check_again; simpl; [|by intros [= _ <- _]].
    rewrite _check_references_stored. intros Hloop Hself.
    eapply IH; [done|]. by apply Hpass.
Qed.

Section Kept.
Context {A : Type} `{EntityLaws A} `{!StoredId A}.

(** A record that is valid after flips was there before, as it is. *)
Lemma flipped_valid_elem_of (l l' : list A) (x : A) :
  Forall2 flipped l l' → x ∈ l' → is_valid x → x ∈ l.
Proof.
  induction 1 as [|y y' l l' Hflip _ IH]; [done|].
  intros [->|Hx]%elem_of_cons Hvalid; [|right; by apply IH].
  destruct Hflip as [->| ->]; [left|].
  unfold is_valid in Hvalid. by rewrite integrity_ok_set in Hvalid.
Qed.

Lemma ref_mark_keeps (field : A → option string) (ids_set : gset string)
    (items : list A) (x : A) :
  x ∈ items → ¬ broken field ids_set x → x ∈ ref_mark field ids_set items.
Proof.
  intros Hx Hsound. unfold ref_mark. apply list_elem_of_fmap. exists x.
  by rewrite decide_False.
Qed.

Lemma elem_of_ids_of (items : list A) (x : A) :
  x ∈ items → is_valid x → id_of x ∈ ids_of items.
Proof.
  intros Hx Hvalid. unfold ids_of. rewrite elem_of_list_to_set, list_elem_of_fmap.
  exists x. by rewrite list_elem_of_filter.
Qed.
End Kept.

(** X23: the reference passes flip no more than they must. After the
    uniqueness passes, take any family of valid packages whose references all
    lead to packages of the family: [check_integrity] leaves every one of them
    as it is. The packages it leaves valid are such a family themselves,
    hence the largest one. It also leaves as it is every valid action key
    whose organization is valid and every valid template asset or file whose
    template is valid. *)
Theorem check_integrity_keeps_supported (fuel : nat) (self : RegistryEntities)
    (e : Entropy) n self' e' :
  check_integrity fuel self e = Some (n, self', e') →
  ∃ u,
    check_uniqueness_all (set_result [] self) e = (u, e') ∧
    (∀ K, self_supporting K (packages u) → ∀ p, K p → p ∈ packages self') ∧
    self_supporting (λ p, p ∈ packages self' ∧ is_valid p) (packages u) ∧
    (∀ k, k ∈ action_keys u → is_valid k →
          ActionKey.organization_id k ∈ ids_of (organizations u) → k ∈ action_keys self') ∧
    (∀ a, a ∈ template_assets u → is_valid a →
          TemplateAsset.template_id a ∈ ids_of (templates u) → a ∈ template_assets self') ∧
    (∀ f, f ∈ template_files u → is_valid f →
          TemplateFile.template_id f ∈ ids_of (templates u) → f ∈ template_files self').
Proof.
  intros Hrun.
  pose proof Hrun as (u & Huniq & _ & Hgrows & Hquiet & _)%check_integrity_returned.
  exists u. split; [done|].
  unfold check_integrity in Hrun. rewrite Huniq, _check_references_stored in Hrun.
  assert (Hloop : ∀ I : RegistryEntities → Prop,
            (∀ self, I self → I (references_pass self)) → I u → I self').
  { intros I Hpass Hu. eapply check_again_loop_invariant; [done | done |]. by apply Hpass. }
  split_and!.
  - intros K HK.
    apply (Hloop (λ self, ∀ p, K p → p ∈ packages self)); [|intros p Hp; by apply HK].
    clear -HK. intros self Hself p Hp. destruct (HK p Hp) as (_ & Hvalid & Hrefs).
    assert (Hsound : ∀ field,
              field ∈ [Package.previous_package_id; Package.fork_of_package_id;
                       Package.merge_checkpoint_package_id] →
              ¬ broken field (ids_of (packages self)) p).
    { intros field Hfield [_ Hmissing]. destruct (field p) as [ref_id|] eqn:Href; [|done].
      destruct (Hrefs ref_id) as (q & Hq & <-).
      { unfold package_references. apply list_elem_of_omap. exists (Some ref_id).
        split; [|done]. rewrite <- Href.
        rewrite !elem_of_cons, elem_of_nil in Hfield. rewrite !elem_of_cons.
        destruct Hfield as [->|[->|[->|[]]]]; tauto. }
      destruct Hmissing. destruct (HK q Hq) as (_ & Hqvalid & _).
      apply elem_of_ids_of; [by apply Hself | done]. }
    cbn [references_pass packages]. unfold packages_pass.
    apply ref_mark_keeps; [|apply Hsound; rewrite !elem_of_cons; tauto].
    apply ref_mark_keeps; [|apply Hsound; rewrite !elem_of_cons; tauto].
    apply ref_mark_keeps; [by apply Hself|apply Hsound; rewrite !elem_of_cons; tauto].
  - apply new_violations_nil_consistent in Hquiet as [_ Cprev Cfork Cmerge _ _].
    intros p [Hp Hvalid]. split_and!; [|done|].
    { eapply flipped_valid_elem_of; [|done..]. by destruct Hgrows. }
    intros ref_id (field & Hfield & Href)%list_elem_of_omap.
    destruct field as [ref_id'|]; [|done]. injection Href as ->.
    rewrite !elem_of_cons, elem_of_nil in Hfield.
    destruct Hfield as [Hf|[Hf|[Hf|[]]]];
      [destruct (Cprev p ref_id Hp Hvalid) as (q & ? & ? & ?)
      |destruct (Cfork p ref_id Hp Hvalid) as (q & ? & ? & ?)
      |destruct (Cmerge p ref_id Hp Hvalid) as (q & ? & ? & ?)]; by eauto.
  - intros k Hk Hvalid Horg.
    apply (Hloop (λ self, organizations self = organizations u ∧ k ∈ action_keys self));
      [|done].
    intros s [Ho Hs]. split; [done|]. cbn [references_pass action_keys].
    apply ref_mark_keeps; [done|]. intros [_ Hmissing]. simpl in Hmissing.
    by rewrite Ho in Hmissing.
  - intros a Ha Hvalid Htemplate.
    apply (Hloop (λ self, templates self = templates u ∧ a ∈ template_assets self));
      [|done].
    intros s [Ht Hs]. split; [done|]. cbn [references_pass template_assets].
    apply ref_mark_keeps; [done|]. intros [_ Hmissing]. simpl in Hmissing.
    by rewrite Ht in Hmissing.
  - intros f Hf Hvalid Htemplate.
    apply (Hloop (λ self, templates self = templates u ∧ f ∈ template_files self));
      [|done].
    intros s [Ht Hs]. split; [done|]. cbn [references_pass template_files].
    apply ref_mark_keeps; [done|]. intros [_ Hmissing]. simpl in Hmissing.
    by rewrite Ht in Hmissing.
Qed.

Lemma check_integrity_keeps_supported_witness :
  ∃ u,
    check_uniqueness_all (set_result [] mixed_sample) sample_entropy = (u, sample_entropy) ∧
    (∀ K, self_supporting K (packages u) → ∀ p, K p → p ∈ packages mixed_verified) ∧
    self_supporting (λ p, p ∈ packages mixed_verified ∧ is_valid p) (packages u) ∧
    (∀ k, k ∈ action_keys u → is_valid k →
          ActionKey.organization_id k ∈ ids_of (organizations u) →
          k ∈ action_keys mixed_verified) ∧
    (∀ a, a ∈ template_assets u → is_valid a →
          TemplateAsset.template_id a ∈ ids_of (templates u) →
          a ∈ template_assets mixed_verified) ∧
    (∀ f, f ∈ template_files u → is_valid f →
          TemplateFile.template_id f ∈ ids_of (templates u) →
          f ∈ template_files mixed_verified).
Proof.
  apply (check_integrity_keeps_supported 4 mixed_sample sample_entropy 3 mixed_verified
           sample_entropy).
  vm_compute. reflexivity.
Defined.

(** * What the target holds after a run *)

Lemma performs_done {A : Type} (env : Env) (E : RegistryEntities) (c : Run A)
    (plan : list Event) (a b : A) (w w1 : World) :
  performs env E c plan a → entities w = E → c w = (Done b, w1) →
  b = a ∧ w1 = {| entities := E; entropy := entropy w; trace := trace w ++ plan |}.
Proof.
  intros Hc HE Hrun. rewrite (Hc w HE) in Hrun.
  destruct (perform env (length (trace w)) plan).1 eqn:Hok; [|done].
  rewrite (perform_ok _ _ _ Hok) in Hrun. by injection Hrun as -> <-.
Qed.

(** A run of [migrate] that ends normally has emitted the whole plan of the
    entities it ends with, which are the verified records of the source. *)
Lemma migrate_done_plan (env : Env) (options : MigrationOptions) (fuel : nat)
    (w w' : World) :
  migrate env options fuel w = (Done (), w') →
  trace w' = trace w ++ migrate_plan env options (entities w') ∧
  aborts options (_result (entities w')) = false ∧
  ∃ n e', check_integrity fuel (set_result (_result (entities w)) (mongo env)) (entropy w)
          = Some (n, entities w', e').
Proof.
  unfold migrate. intros Hrun.
  apply bind_done in Hrun as ([] & w1 & H1 & Hrun).
  apply bind_done in Hrun as ([] & w2 & H2 & Hrun).
  apply bind_done in Hrun as ([] & w3 & H3 & Hrun).
  apply bind_done in Hrun as ([] & w4 & H4 & Hrun).
  apply bind_done in Hrun as ([] & w5 & H5 & H6).
  assert (H1' : w1 = {| entities := entities w; entropy := entropy w;
                        trace := trace w ++ cleanup_postgres_plan env options |}).
  { unfold cleanup_postgres, try_except in H1.
    pose proof (cleanup_postgres_body_performs env options (entities w) w eq_refl) as Hbody.
    rewrite Hbody in H1.
    destruct (perform env (length (trace w)) (cleanup_postgres_plan env options)).1 eqn:Hok;
      [|done].
    rewrite (perform_ok _ _ _ Hok) in H1. by injection H1 as <-. }
  destruct (performs_done _ _ _ _ _ _ _ _ (cleanup_s3_performs env options (entities w1))
              eq_refl H2) as [_ H2'].
  destruct (load_proceeds env (entities w2) w2 eq_refl) as (Hout & Ht3 & He3 & _ & HE3).
  rewrite H3 in Hout, Ht3, He3, HE3. cbn [fst snd] in Hout, Ht3, He3, HE3.
  destruct (perform env (length (trace w2)) load_plan).1 eqn:Hok; [|done].
  rewrite (perform_ok _ _ _ Hok) in Ht3. specialize (HE3 eq_refl).
  pose proof H4 as (n & Hcheck & Habort)%migrator_check_integrity_done.
  rewrite (migrator_check_integrity_run _ _ _ _ _ _ Hcheck), Habort in H4.
  injection H4 as H4. apply (f_equal trace) in H4. cbn [trace] in H4.
  destruct (insert_follows env options (entities w4) w4 eq_refl)
    as (HE5 & evs5 & Ht5 & _ & Hd5).
  rewrite H5 in HE5, Ht5, Hd5. cbn [fst snd] in HE5, Ht5, Hd5.
  destruct Hd5 as [-> _]; [by eexists|].
  destruct (performs_done _ _ _ _ _ _ _ _
              (migrate_template_assets_performs env options (entities w5)) eq_refl H6)
    as [_ H6'].
  assert (Ht6 : trace w' = trace w5 ++ migrate_template_assets_plan env options (entities w5))
    by (by rewrite H6').
  assert (HE : entities w' = entities w4) by (by rewrite H6').
  assert (Ht2 : trace w2 = trace w1 ++ cleanup_s3_plan env options) by (by rewrite H2').
  assert (Ht1 : trace w1 = trace w ++ cleanup_postgres_plan env options) by (by rewrite H1').
  assert (HE2 : entities w2 = entities w) by (by rewrite H2', H1').
  assert (Hen2 : entropy w2 = entropy w) by (by rewrite H2', H1').
  clear H6' H2' H1'.
  split_and!.
  - rewrite Ht6, Ht5, HE5, <- H4, Ht3, Ht2, Ht1. unfold migrate_plan.
    rewrite HE, Habort, <- !app_assoc. done.
  - by rewrite HE.
  - exists n, (entropy w4). rewrite HE. by rewrite HE3, He3, HE2, Hen2 in Hcheck.
Qed.

Lemma apply_events_app (d : Destination) (evs1 evs2 : list Event) :
  apply_events d (evs1 ++ evs2) = apply_events (apply_events d evs1) evs2.
Proof. apply foldl_app. Qed.

Lemma apply_events_tables_untouched (d : Destination) (evs : list Event) :
  Forall (λ ev, touches_tables ev = false) evs →
  committed (apply_events d evs) = committed d ∧ pending (apply_events d evs) = pending d.
Proof.
  intros Hevs. revert d. induction Hevs as [|ev evs Hev _ IH]; intros d; [done|].
  change (apply_events d (ev :: evs)) with (apply_events (apply_event d ev) evs).
  destruct (IH (apply_event d ev)) as [-> ->]. by destruct ev.
Qed.

Lemma cleanup_s3_plan_tables (env : Env) (options : MigrationOptions) :
  Forall (λ ev, touches_tables ev = false) (cleanup_s3_plan env options).
Proof.
  unfold cleanup_s3_plan.
  destruct (bucket_exists env), (decide (0 < count_templates env)), (dry_run options);
    repeat constructor.
Qed.

Lemma migrate_template_assets_plan_tables (env : Env) (options : MigrationOptions)
    (E : RegistryEntities) :
  Forall (λ ev, touches_tables ev = false) (migrate_template_assets_plan env options E).
Proof.
  unfold migrate_template_assets_plan. rewrite !Forall_app. split_and!.
  - by repeat constructor.
  - apply Forall_concat, Forall_fmap, Forall_forall. intros asset _. unfold compose, asset_plan.
    destruct (fetch_asset env (TemplateAsset.original_uuid asset));
      [destruct (dry_run options)|]; by repeat constructor.
  - by repeat constructor.
Qed.

(** X24: what a run that is no dry run and ends normally leaves in the
    target tables, whatever they held before: for each class, the records of
    the verified entities whose marker is True, in list order, and nothing
    else (the target store is taken to run the statements in a transaction
    that lasts once committed). These entities are the records of the source
    with markers assigned False and nothing else changed; among the valid
    ones every reference resolves and identities differ within a class. *)
Theorem migrate_target_holds_valid_records (env : Env) (options : MigrationOptions)
    (fuel : nat) (w w' : World) (d : Destination) :
  dry_run options = false →
  migrate env options fuel w = (Done (), w') →
  ∃ evs, trace w' = trace w ++ evs ∧
    (∀ entity, committed (apply_events d evs) entity
               = filter (λ x, entry_integrity_ok x = true)
                   (entries_by_entity entity (entities w'))) ∧
    only_flipped (mongo env) (entities w') ∧
    consistent (entities w') ∧ unique (entities w').
Proof.
  intros Hdry (Htrace & Habort & n & e' & Hcheck)%migrate_done_plan.
  exists (migrate_plan env options (entities w')). split; [done|].
  apply returned_verified in Hcheck as (Hflipped & Hconsistent & Hunique & _).
  split_and!; [|by destruct Hflipped|done|done].
  intros entity. unfold migrate_plan. rewrite Habort, !apply_events_app.
  destruct (apply_events_tables_untouched
              (apply_events
                 (apply_events
                    (apply_events
                       (apply_events (apply_events d (cleanup_postgres_plan env options))
                          (cleanup_s3_plan env options)) load_plan)
                    (LogViolation <$> _result (entities w')))
                 (insert_plan options (entities w')))
              (migrate_template_assets_plan env options (entities w')))
    as [-> _]; [apply migrate_template_assets_plan_tables|].
  set (d1 := apply_events d (cleanup_postgres_plan env options)).
  set (d4 := apply_events (apply_events (apply_events d1 _) _) _).
  assert (Hd1 : ∀ t, pending d1 t = []).
  { intros t. subst d1. unfold cleanup_postgres_plan. rewrite Hdry. by destruct t. }
  assert (Hd4 : ∀ t, pending d4 t = []).
  { intros t. subst d4.
    destruct (apply_events_tables_untouched
                (apply_events (apply_events d1 (cleanup_s3_plan env options)) load_plan)
                (LogViolation <$> _result (entities w'))) as [_ ->].
    { apply Forall_fmap, Forall_forall. by intros. }
    destruct (apply_events_tables_untouched
                (apply_events d1 (cleanup_s3_plan env options)) load_plan) as [_ ->].
    { by repeat constructor. }
    destruct (apply_events_tables_untouched d1 (cleanup_s3_plan env options)) as [_ ->];
      [apply cleanup_s3_plan_tables | done]. }
  clearbody d4. unfold insert_plan, run_insert_plan. rewrite Hdry.
  destruct entity; cbn; by rewrite Hd4.
Qed.

Lemma migrate_target_holds_valid_records_witness :
  ∃ evs, trace (migrate sample_env fix_options 5 sample_world).2
           = trace sample_world ++ evs ∧
    (∀ entity, committed (apply_events used_destination evs) entity
               = filter (λ x, entry_integrity_ok x = true)
                   (entries_by_entity entity
                      (entities (migrate sample_env fix_options 5 sample_world).2))) ∧
    only_flipped (mongo sample_env) (entities (migrate sample_env fix_options 5 sample_world).2) ∧
    consistent (entities (migrate sample_env fix_options 5 sample_world).2) ∧
    unique (entities (migrate sample_env fix_options 5 sample_world).2).
Proof.
  apply (migrate_target_holds_valid_records sample_env fix_options 5 sample_world
           (migrate sample_env fix_options 5 sample_world).2 used_destination).
  - reflexivity.
  - vm_compute. reflexivity.
Defined.

(** * The insertion and the dry run, call by call *)

(** What [insert] does is what [perform] says of its plan: it ends normally
    exactly when every call of the plan goes through, and has recorded the
    plan up to and including the first call that raises otherwise. *)
Lemma insert_run (env : Env) (options : MigrationOptions) (w : World) :
  trace (insert env options w).2
  = trace w ++ (perform env (length (trace w)) (insert_plan options (entities w))).2 ∧
  ((insert env options w).1 = Done () ↔
   (perform env (length (trace w)) (insert_plan options (entities w))).1 = true).
Proof.
  assert (Hplan : insert_plan options (entities w)
            = insert_batches (entities w) ++ (if dry_run options then [] else [PgCommit])).
  { unfold insert_plan, insert_batches. by rewrite <- !app_assoc. }
  rewrite Hplan, perform_app. unfold insert, mbind, Run_bind.
  rewrite (insert_batches_performs env (entities w) w eq_refl).
  destruct (perform env (length (trace w)) (insert_batches (entities w))).1 eqn:Hok;
    [|done].
  rewrite (perform_ok _ _ _ Hok). unfold try_except, unless_dry_run.
  destruct (dry_run options); cbn [negb perform fst snd].
  - by rewrite app_nil_r.
  - unfold call, critical. cbn [trace is_log negb andb]. rewrite length_app.
    destruct (raises env _); cbn [fst snd emit trace]; by rewrite <- app_assoc.
Qed.

(** C7: [insert] processes the classes in the order packages, templates,
    audit entries, organizations, action keys, template assets, template
    files ([insert_plan]), and disables and enables triggers for the package
    table only, around its batch. It issues the calls of that plan one after
    the other for as long as none raises: what it emits is the plan up to and
    including the first call that raises, and it ends normally exactly when
    none does. In particular, when no call fails every batch is issued in
    this order and the triggers of the package table are enabled again. *)
Theorem insert_order (env : Env) (options : MigrationOptions) (w : World) :
  entities (insert env options w).2 = entities w ∧
  ∃ evs, trace (insert env options w).2 = trace w ++ evs ∧
         evs `prefix_of` insert_plan options (entities w) ∧
         ((insert env options w).1 = Done () → evs = insert_plan options (entities w)) ∧
         (∀ table, PgDisableTriggers table ∈ evs ∨ PgEnableTriggers table ∈ evs →
                   table = Package) ∧
         filter (λ ev, is_insert_call ev = true) (insert_plan options (entities w))
         = [PgDisableTriggers Package;
            PgExecuteLoop Package
              (filter (λ x, entry_integrity_ok x = true)
                 (entries_by_entity Package (entities w)));
            PgEnableTriggers Package;
            PgExecuteLoop Template
              (filter (λ x, entry_integrity_ok x = true)
                 (entries_by_entity Template (entities w)));
            PgExecuteLoop AuditEntry
              (filter (λ x, entry_integrity_ok x = true)
                 (entries_by_entity AuditEntry (entities w)));
            PgExecuteLoop Organization
              (filter (λ x, entry_integrity_ok x = true)
                 (entries_by_entity Organization (entities w)));
            PgExecuteLoop ActionKey
              (filter (λ x, entry_integrity_ok x = true)
                 (entries_by_entity ActionKey (entities w)));
            PgExecuteLoop TemplateAsset
              (filter (λ x, entry_integrity_ok x = true)
                 (entries_by_entity TemplateAsset (entities w)));
            PgExecuteLoop TemplateFile
              (filter (λ x, entry_integrity_ok x = true)
                 (entries_by_entity TemplateFile (entities w)))] ∧
         evs = (perform env (length (trace w)) (insert_plan options (entities w))).2 ∧
         ((insert env options w).1 = Done () ↔
          (perform env (length (trace w)) (insert_plan options (entities w))).1 = true) ∧
         ((insert env options w).1 ≠ Done () →
          cut_at env (length (trace w)) (insert_plan options (entities w)) evs) ∧
         ((∀ i, raises env i = false) →
          (insert env options w).1 = Done () ∧
          evs = insert_plan options (entities w) ∧
          filter (λ ev, is_insert_call ev = true) evs
          = filter (λ ev, is_insert_call ev = true) (insert_plan options (entities w))).
Proof.
  destruct (insert_follows env options (entities w) w eq_refl)
    as (HE & evs & Htrace & Hprefix & Hdone).
  destruct (insert_run env options w) as [Hrun Hok].
  assert (Hevs : evs = (perform env (length (trace w))
                          (insert_plan options (entities w))).2).
  { rewrite Hrun in Htrace. by apply app_inv_head in Htrace. }
  split; [done|]. exists evs. split_and!; try done.
  - intros Hd. apply Hdone. by eexists.
  - intros table Hin. clear Hevs Hrun Hok Hdone Htrace HE. destruct Hprefix as [rest Hrest].
    assert (Hplan : PgDisableTriggers table ∈ insert_plan options (entities w)
                    ∨ PgEnableTriggers table ∈ insert_plan options (entities w))
      by (rewrite Hrest; destruct Hin; [left | right]; set_solver).
    clear Hin. unfold insert_plan, run_insert_plan in Hplan.
    rewrite !elem_of_app, !list_elem_of_singleton in Hplan.
    destruct (dry_run options); set_solver.
  - unfold insert_plan, run_insert_plan.
    by destruct (dry_run options).
  - intros Hnot. rewrite Hevs. apply perform_failed.
    destruct (perform env (length (trace w)) (insert_plan options (entities w))).1;
      [|done].
    destruct Hnot. by apply Hok.
  - intros Hno.
    assert (Hall : perform env (length (trace w)) (insert_plan options (entities w))
                   = (true, insert_plan options (entities w)))
      by (by apply perform_no_failure).
    rewrite Hall in Hok, Hevs. cbn [fst snd] in Hok, Hevs.
    split_and!; [by apply Hok | done | by rewrite Hevs].
Qed.

(** ** The dry run *)

Lemma filter_all {X : Type} (P : X → Prop) `{∀ x, Decision (P x)} (l : list X) :
  Forall P l → filter P l = l.
Proof.
  induction 1 as [|x l Hx _ IH]; [done|].
  by rewrite filter_cons, decide_True, IH.
Qed.

Lemma insert_batches_persist (E : RegistryEntities) :
  Forall (λ ev, persists ev = false) (insert_batches E).
Proof. unfold insert_batches, run_insert_plan. by repeat constructor. Qed.

Lemma asset_plans_dry (env : Env) (options : MigrationOptions)
    (assets : list TemplateAsset.t) :
  dry_run options = true →
  concat (asset_plan env options <$> assets)
  = filter (λ ev, persists ev = false)
      (concat (asset_plan env (not_dry options) <$> assets)).
Proof.
  intros Hdry. induction assets as [|asset rest IH]; [done|].
  rewrite !fmap_cons. cbn [concat]. rewrite filter_app, <- IH. f_equal.
  unfold asset_plan. rewrite Hdry. cbn [not_dry dry_run].
  by destruct (fetch_asset env (TemplateAsset.original_uuid asset)).
Qed.

(** A dry run is planned as the run without --dry-run, less the calls that
    make a change last. *)
Lemma migrate_plan_dry (env : Env) (options : MigrationOptions) (E : RegistryEntities) :
  dry_run options = true →
  migrate_plan env options E
  = filter (λ ev, persists ev = false) (migrate_plan env (not_dry options) E).
Proof.
  intros Hdry.
  assert (H1 : filter (λ ev, persists ev = false) (cleanup_postgres_plan env (not_dry options))
               = cleanup_postgres_plan env options).
  { unfold cleanup_postgres_plan. by rewrite Hdry. }
  assert (H2 : filter (λ ev, persists ev = false) (cleanup_s3_plan env (not_dry options))
               = cleanup_s3_plan env options).
  { unfold cleanup_s3_plan. rewrite Hdry. cbn [not_dry dry_run].
    by destruct (bucket_exists env), (decide (0 < count_templates env)). }
  assert (H3 : filter (λ ev, persists ev = false) load_plan = load_plan) by done.
  assert (H4 : filter (λ ev, persists ev = false) (LogViolation <$> _result E)
               = LogViolation <$> _result E).
  { apply filter_all, Forall_fmap, Forall_forall. by intros. }
  assert (H5 : filter (λ ev, persists ev = false) (insert_plan (not_dry options) E)
               = insert_plan options E).
  { assert (Hplan : ∀ o, insert_plan o E
              = insert_batches E ++ (if dry_run o then [] else [PgCommit])).
    { intros o. unfold insert_plan, insert_batches. by rewrite <- !app_assoc. }
    rewrite !Hplan, Hdry, filter_app. cbn [not_dry dry_run].
    by rewrite (filter_all _ _ (insert_batches_persist E)). }
  assert (H6 : filter (λ ev, persists ev = false)
                 (migrate_template_assets_plan env (not_dry options) E)
               = migrate_template_assets_plan env options E).
  { unfold migrate_template_assets_plan. rewrite !filter_app.
    by rewrite <- (asset_plans_dry env options _ Hdry). }
  unfold migrate_plan. rewrite !filter_app, H1, H2, H3, H4.
  change (aborts (not_dry options) (_result E)) with (aborts options (_result E)).
  destruct (aborts options (_result E)); [done|].
  by rewrite filter_app, H5, H6.
Qed.

Lemma cleanup_postgres_plan_deletes (env : Env) (options : MigrationOptions)
    (table : EntityClass) :
  PgExecuteDelete table ∈ cleanup_postgres_plan env options ∧
  LogDeleted table (rowcount env table) ∈ cleanup_postgres_plan env options.
Proof.
  unfold cleanup_postgres_plan. rewrite !elem_of_app.
  split; left; destruct table; rewrite !elem_of_cons; tauto.
Qed.

Lemma insert_plan_batches (options : MigrationOptions) (E : RegistryEntities)
    (entity : EntityClass) :
  let instances := entries_by_entity entity E in
  let ok_instances := filter (λ x, entry_integrity_ok x = true) instances in
  LogInsert entity (length ok_instances) (length instances) ∈ insert_plan options E ∧
  PgExecuteLoop entity ok_instances ∈ insert_plan options E.
Proof.
  unfold insert_plan, run_insert_plan. cbn [app].
  split; destruct entity; rewrite !elem_of_cons; tauto.
Qed.

(** C5: in a dry run, whatever way it goes, [migrate] never commits, never
    stores an asset and never creates or empties the bucket, so that what the
    destination holds for good is what it held before. And a dry run does the
    rest: when no call fails (with fuel for the reference loop), it emits the
    plan of the run without --dry-run less these calls, that is every DELETE
    with its count and, unless the verification ends the run with the error
    'Integrity' as it would without --dry-run, every insertion batch with its
    count and the tally of the assets, and then ends normally. *)
Theorem dry_run_persists_nothing (env : Env) (options : MigrationOptions) (fuel : nat)
    (w : World) (d : Destination) :
  dry_run options = true →
  ∃ evs, trace (migrate env options fuel w).2 = trace w ++ evs ∧
    Forall (λ ev, persists ev = false) evs ∧
    committed (apply_events d evs) = committed d ∧
    bucket (apply_events d evs) = bucket d ∧
    ((migrate env options fuel w).1 = Done () →
     ∃ middle,
       evs = cleanup_postgres_plan env options ++ middle
             ++ insert_plan options (entities (migrate env options fuel w).2)
             ++ migrate_template_assets_plan env options
                  (entities (migrate env options fuel w).2)) ∧
    ((∀ i, raises env i = false) → total_count (mongo env) ≤ fuel →
     let E := entities (migrate env options fuel w).2 in
     let assets := valid_entries TemplateAsset.t E in
     (migrate env options fuel w).1
       = (if aborts options (_result E) then Exit "Integrity" else Done ()) ∧
     evs = migrate_plan env options E ∧
     evs = filter (λ ev, persists ev = false) (migrate_plan env (not_dry options) E) ∧
     (∀ table, PgExecuteDelete table ∈ evs ∧ LogDeleted table (rowcount env table) ∈ evs) ∧
     (aborts options (_result E) = false →
      (∀ entity,
         LogInsert entity
           (length (filter (λ x, entry_integrity_ok x = true) (entries_by_entity entity E)))
           (length (entries_by_entity entity E)) ∈ evs ∧
         PgExecuteLoop entity
           (filter (λ x, entry_integrity_ok x = true) (entries_by_entity entity E)) ∈ evs) ∧
      LogAssetsStored (length (filter (has_payload env) assets))
        (length (filter (λ asset, ¬ has_payload env asset) assets)) ∈ evs)).
Proof.
  intros Hdry. destruct (migrate_events env options fuel w) as (evs & Htrace & Hall).
  exists evs. split; [done|].
  assert (Hnone : Forall (λ ev, persists ev = false) evs).
  { eapply Forall_impl; [exact Hall|]. intros ev [Hev|Hev]; destruct ev; try done;
      simpl in Hev; try congruence. destruct Hev; congruence. }
  split; [done|].
  destruct (apply_events_keeps_destination d evs Hnone) as [Hc Hb].
  split_and!; try done.
  - intros Hdone. destruct (migrate env options fuel w) as [out w'] eqn:Hrun.
    simpl in *. subst out. destruct (migrate_done _ _ _ _ _ Hrun) as (middle & Htrace').
    exists middle. rewrite Htrace' in Htrace. by apply app_inv_head in Htrace.
  - intros Hno Hfuel E assets. subst assets E.
    destruct (check_integrity_spec (set_result (_result (entities w)) (mongo env))
                (entropy w) (fuel - total_count (mongo env)))
      as (n & u & self' & e' & _ & Hcheck & _).
    change (total_count (set_result (_result (entities w)) (mongo env)))
      with (total_count (mongo env)) in Hcheck.
    replace (total_count (mongo env) + (fuel - total_count (mongo env))) with fuel
      in Hcheck by lia.
    pose proof (migrate_no_failure env options fuel w n self' e' Hno Hcheck) as Hrun.
    rewrite Hrun in Htrace |- *. cbn [fst snd entities trace] in Htrace |- *.
    apply app_inv_head in Htrace. subst evs.
    split_and!; [done | done | by apply migrate_plan_dry | |].
    + intros table. unfold migrate_plan. rewrite !elem_of_app.
      destruct (cleanup_postgres_plan_deletes env options table). tauto.
    + intros Habort. unfold migrate_plan. rewrite Habort. split.
      * intros entity. rewrite !elem_of_app.
        destruct (insert_plan_batches options self' entity). tauto.
      * unfold migrate_template_assets_plan. rewrite !elem_of_app, !elem_of_cons. tauto.
Qed.

Lemma dry_run_persists_nothing_witness :
  ∃ evs, trace (migrate sample_env dry_run_options 5 sample_world).2
           = trace sample_world ++ evs ∧
    Forall (λ ev, persists ev = false) evs ∧
    committed (apply_events empty_destination evs) = committed empty_destination ∧
    bucket (apply_events empty_destination evs) = bucket empty_destination ∧
    (migrate sample_env dry_run_options 5 sample_world).1 = Done () ∧
    evs = migrate_plan sample_env dry_run_options
            (entities (migrate sample_env dry_run_options 5 sample_world).2) ∧
    PgExecuteDelete Package ∈ evs ∧
    PgExecuteLoop Package [] ∈ evs.
Proof.
  destruct (dry_run_persists_nothing sample_env dry_run_options 5 sample_world
              empty_destination eq_refl)
    as (evs & Htrace & Hnone & Hc & Hb & _ & Hprogress).
  destruct Hprogress as (Hout & Hplan & _ & Hdeletes & Hinserts).
  { intros i. reflexivity. }
  { vm_compute. repeat constructor. }
  exists evs. split_and!; [exact Htrace | exact Hnone | exact Hc | exact Hb | | exact Hplan | |].
  - rewrite Hout. vm_compute. reflexivity.
  - apply Hdeletes.
  - destruct Hinserts as [Hbatches _]; [vm_compute; reflexivity|].
    destruct (Hbatches Package) as [_ Hbatch]. revert Hbatch. vm_compute. exact id.
Defined.
